(** * plotsoftware.py: the image-grid viewer, embedded and verified

    A shallow embedding of [src/plotsoftware.py] (class [ImageGrid] and the
    module-level constants), followed by the properties of the grid builder,
    the cache eviction, the text fitter, the viewport, the fullscreen
    navigation and the export pipeline.

    Conventions of the embedding.
    - Python [int] is [Z]; Python [float] is a binary64 primitive float.
    - Python [str] is [string]; one [ascii] stands for one character (code
      points below 256), so that comparison of strings is the code-point
      comparison Python uses.
    - A Python call either returns or raises: [result].
    - [dict] is [gmap], [set] is [gset], [list] is [list].
    - The file system, the font and the clock are explicit arguments. *)

From Stdlib Require Import ZArith List String Ascii Bool Lia PrimFloat FloatOps SpecFloat Uint63
  FloatAxioms.
From stdpp Require Import base option list gmap sets strings sorting pretty.

Open Scope string_scope.
Open Scope Z_scope.

(** ** Python outcomes *)

Inductive exn : Type :=
| OSError
| IndexError
| KeyError
| ZeroDivisionError
| ValueError
| OverflowError.

Inductive result (A : Type) : Type :=
| Ok (a : A)
| Raise (e : exn).

Arguments Ok {A} a.
Arguments Raise {A} e.

#[global] Instance result_ret : MRet result := fun A a => Ok a.

#[global] Instance result_bind : MBind result := fun A B f m =>
  match m with
  | Ok a => f a
  | Raise e => Raise e
  end.

(** The first computation of a chain of binds. *)
Ltac bind_head t :=
  lazymatch t with
  | mbind _ ?m => bind_head m
  | _ => constr:(t)
  end.

(** A chain of binds that returned: every step of it returned. *)
Ltac returned H :=
  repeat lazymatch type of H with
         | mbind _ ?m = Ok _ =>
             let h := bind_head m in
             let E := fresh "E" in
             destruct h eqn:E; simpl in H; [|discriminate H]
         end.

(** ** Python strings *)

(** [str.lower] on the characters that matter here: ASCII letters. *)
Definition lower_ascii (c : ascii) : ascii :=
  let n := N_of_ascii c in
  if ((65 <=? n) && (n <=? 90))%N then ascii_of_N (n + 32) else c.

Fixpoint lower (s : string) : string :=
  match s with
  | EmptyString => EmptyString
  | String c s' => String (lower_ascii c) (lower s')
  end.

(** [s.endswith(suffix)] *)
Definition endswith (s suffix : string) : bool :=
  let n := String.length s in
  let m := String.length suffix in
  (m <=? n)%nat && String.eqb (substring (n - m) m s) suffix.

(** [s.startswith(prefix)] *)
Definition startswith (s prefix : string) : bool := String.prefix prefix s.

(** [s.rfind(c)] for a one-character needle: the last index, or -1. *)
Fixpoint rfind_from (c : ascii) (s : string) (i acc : Z) : Z :=
  match s with
  | EmptyString => acc
  | String a s' => rfind_from c s' (i + 1) (if Ascii.eqb a c then i else acc)
  end.

Definition rfind (c : ascii) (s : string) : Z := rfind_from c s 0 (-1).

(** [s[:k]] and [s[k:]] for [0 <= k]. *)
Definition slice_to (s : string) (k : Z) : string := substring 0 (Z.to_nat k) s.

Definition slice_from (s : string) (k : Z) : string :=
  substring (Z.to_nat k) (String.length s - Z.to_nat k) s.

(** The supported image extensions, the tuple every [endswith] test uses. *)
Definition supported_exts : list string :=
  [".png"; ".jpg"; ".jpeg"; ".gif"; ".bmp"; ".tiff"; ".webp"].

(** [f.lower().endswith(supported_exts)] *)
Definition has_supported_ext (f : string) : bool :=
  existsb (endswith (lower f)) supported_exts.

(** ** os.path (POSIX flavour) *)

(** [os.path.join(a, b)] *)
Definition path_join (a b : string) : string :=
  if startswith b "/" then b
  else if String.eqb a "" || endswith a "/" then a ++ b
  else a ++ "/" ++ b.

(** [os.path.basename(p)] *)
Definition path_basename (p : string) : string := slice_from p (rfind "/" p + 1).

(** [os.path.splitext(p)]: split at the last dot of the last component,
    unless that component has only leading dots before it. *)
Definition path_splitext (p : string) : string * string :=
  let sepIndex := rfind "/" p in
  let dotIndex := rfind "." p in
  if (sepIndex <? dotIndex)
     && existsb (fun c => negb (Ascii.eqb c "."))
          (list_ascii_of_string
             (substring (Z.to_nat (sepIndex + 1)) (Z.to_nat (dotIndex - (sepIndex + 1))) p))
  then (slice_to p dotIndex, slice_from p dotIndex)
  else (p, "").

(** ** Ordering of strings and [sorted] *)

(** Python compares strings by code point: the lexicographic order on
    characters, [String.le].  [sorted(xs)] on strings: *)
Definition sorted (xs : list string) : list string := merge_sort String.le xs.

(** The order the specification names: case-insensitive lexicographic. *)
Definition ci_le (a b : string) : Prop := String.le (lower a) (lower b).

(** ** The file system *)

Record FileSystem : Type := {
  listdir : string -> option (list string);
  isdir : string -> bool;
  isfile : string -> bool
}.

(** [os.listdir(path)] raises [OSError] when the path cannot be listed. *)
Definition os_listdir (fs : FileSystem) (path : string) : result (list string) :=
  match listdir fs path with
  | Some entries => Ok entries
  | None => Raise OSError
  end.

(** ** ImageGrid.build_grid *)

Definition PLACEHOLDER : string := "PLACEHOLDER:".

(** The [folders] list: one [(base_img, folder_path)] per sorted base image. *)
Definition folders_of (subfolders_dir : string) (base_images : list string)
  : list (string * string) :=
  map (fun base_img => (base_img, path_join subfolders_dir (path_splitext base_img).1))
      (sorted base_images).

(** The loop that fills [all_filenames]. *)
Fixpoint collect_filenames (fs : FileSystem) (folders : list (string * string))
    (all_filenames : gset string) : result (gset string) :=
  match folders with
  | [] => Ok all_filenames
  | (_, folder_path) :: rest =>
      if isdir fs folder_path then
        entries ← os_listdir fs folder_path;
        collect_filenames fs rest
          (list_to_set (filter (fun f => has_supported_ext f = true) entries) ∪ all_filenames)
      else collect_filenames fs rest all_filenames
  end.

(** One variant row: the filename, then one cell per folder. *)
Definition variant_row (fs : FileSystem) (folders : list (string * string))
    (filename : string) : list string :=
  filename ::
  map (fun '(_, folder_path) =>
         let img_path := path_join folder_path filename in
         if isfile fs img_path then img_path else PLACEHOLDER)
      folders.

(** [for row_idx, filename in enumerate(sorted_filenames, start=2)] *)
Fixpoint fill_rows (fs : FileSystem) (folders : list (string * string))
    (row_idx : Z) (filenames : list string) (grid : gmap Z (list string))
  : gmap Z (list string) :=
  match filenames with
  | [] => grid
  | filename :: rest =>
      fill_rows fs folders (row_idx + 1) rest
        (<[row_idx := variant_row fs folders filename]> grid)
  end.

Definition build_grid (fs : FileSystem) (base_folder subfolders_dir : string)
  : result (gmap Z (list string)) :=
  entries ← os_listdir fs base_folder;
  let base_images := filter (fun f => has_supported_ext f = true) entries in
  match base_images with
  | [] => Ok ∅
  | _ =>
      let folders := folders_of subfolders_dir base_images in
      all_filenames ← collect_filenames fs folders ∅;
      let sorted_filenames := sorted (elements all_filenames) in
      let row0 := "" :: map (fun '(_, folder_path) => path_basename folder_path) folders in
      let row1 := "Base Images" :: map (fun '(base_img, _) => path_join base_folder base_img) folders in
      Ok (fill_rows fs folders 2 sorted_filenames (<[1 := row1]> (<[0 := row0]> ∅)))
  end.

(** The label of a row: its column-0 cell. *)
Definition row_label (grid : gmap Z (list string)) (row : Z) : option string :=
  grid !! row ≫= head.

(** [f] is offered by one of the [folders]: a supported image file listed in
    a folder path that is a directory. *)
Definition folder_offers (fs : FileSystem) (folders : list (string * string)) (f : string)
  : Prop :=
  ∃ base_img folder_path entries,
    (base_img, folder_path) ∈ folders ∧ isdir fs folder_path = true ∧
    listdir fs folder_path = Some entries ∧ f ∈ entries ∧ has_supported_ext f = true.

(** [f] is a variant filename: a supported image file found in the variant
    folder of some base image. *)
Definition variant_filename (fs : FileSystem) (base_folder subfolders_dir f : string)
  : Prop :=
  ∃ entries base_img variants,
    listdir fs base_folder = Some entries ∧
    base_img ∈ entries ∧ has_supported_ext base_img = true ∧
    isdir fs (path_join subfolders_dir (path_splitext base_img).1) = true ∧
    listdir fs (path_join subfolders_dir (path_splitext base_img).1) = Some variants ∧
    f ∈ variants ∧ has_supported_ext f = true.

(** The order the specification asks of the variant rows: case-insensitive
    lexicographic, from row 2 down. *)
Definition rows_case_insensitive (g : gmap Z (list string)) : Prop :=
  ∀ r1 r2 l1 l2, 2 <= r1 < r2 →
    row_label g r1 = Some l1 → row_label g r2 = Some l2 → ci_le l1 l2.

(** Two states of the file system that hold the same tree: the same
    directories and files, each directory listed in some order. *)
Definition same_tree (fs fs' : FileSystem) : Prop :=
  (∀ p, isdir fs p = isdir fs' p) ∧
  (∀ p, isfile fs p = isfile fs' p) ∧
  (∀ p, match listdir fs p, listdir fs' p with
        | Some l, Some l' => l ≡ₚ l'
        | None, None => True
        | _, _ => False
        end).

(** ** Python lists, ranges and numbers *)

(** [l[i]]: a negative index counts from the end; out of range raises. *)
Definition py_index {A : Type} (l : list A) (i : Z) : result A :=
  let n := Z.of_nat (length l) in
  let j := if i <? 0 then i + n else i in
  if (0 <=? j) && (j <? n) then
    match l !! Z.to_nat j with
    | Some x => Ok x
    | None => Raise IndexError
    end
  else Raise IndexError.

(** [range(a, b)] *)
Definition py_range (a b : Z) : list Z := seqZ a (b - a).

(** [a // b] on ints: floor division, [ZeroDivisionError] on a zero divisor. *)
Definition floordiv (a b : Z) : result Z :=
  if b =? 0 then Raise ZeroDivisionError else Ok (a / b).

(** The conversion of an int to a float, as every mixed operation makes
    it: the nearest binary64 value, ties to even; [OverflowError] when that
    lies beyond the largest float. *)
Definition float_of_Z (z : Z) : result float :=
  match binary_normalize prec emax z 0 false with
  | S754_infinity _ => Raise OverflowError
  | sf => Ok (SF2Prim sf)
  end.

(** [int(f)]: truncation toward zero; nan and the infinities raise. *)
Definition int_of_float (f : float) : result Z :=
  match Prim2SF f with
  | S754_zero _ => Ok 0
  | S754_finite s m e =>
      let mag := match e with
                 | Zneg p => Z.shiftr (Zpos m) (Zpos p)
                 | _ => Z.shiftl (Zpos m) e
                 end in
      Ok (if s then - mag else mag)
  | S754_infinity _ => Raise OverflowError
  | S754_nan => Raise ValueError
  end.

(** A value that is an int or a float, as the scroll offsets are. *)
Inductive num : Type :=
| Int (z : Z)
| Float (f : float).

Definition to_float (x : num) : result float :=
  match x with
  | Int z => float_of_Z z
  | Float f => Ok f
  end.

(** [x + y], [x - y], [x * y]: exact on two ints; otherwise the int is
    converted and the operation is the float one. *)
Definition num_add (x y : num) : result num :=
  match x, y with
  | Int a, Int b => Ok (Int (a + b))
  | _, _ => fx ← to_float x; fy ← to_float y; Ok (Float (PrimFloat.add fx fy))
  end.

Definition num_sub (x y : num) : result num :=
  match x, y with
  | Int a, Int b => Ok (Int (a - b))
  | _, _ => fx ← to_float x; fy ← to_float y; Ok (Float (PrimFloat.sub fx fy))
  end.

Definition num_mul (x y : num) : result num :=
  match x, y with
  | Int a, Int b => Ok (Int (a * b))
  | _, _ => fx ← to_float x; fy ← to_float y; Ok (Float (PrimFloat.mul fx fy))
  end.

(** An int as an unrounded binary number. *)
Definition Z_to_SF (z : Z) : spec_float :=
  match z with
  | Z0 => S754_zero false
  | Zpos p => S754_finite false p 0
  | Zneg p => S754_finite true p 0
  end.

(** [a / b] on two ints: the quotient of the two integers, rounded once to
    the nearest float; [OverflowError] when it lies beyond the largest. *)
Definition int_truediv (a b : Z) : result float :=
  if b =? 0 then Raise ZeroDivisionError
  else
    match SFdiv prec emax (Z_to_SF a) (Z_to_SF b) with
    | S754_infinity _ => Raise OverflowError
    | q => Ok (SF2Prim q)
    end.

(** [x / y]: true division, always a float. *)
Definition float_truediv (x y : num) : result float :=
  match x, y with
  | Int a, Int b => int_truediv a b
  | _, _ =>
      fx ← to_float x;
      fy ← to_float y;
      if PrimFloat.eqb fy PrimFloat.zero then Raise ZeroDivisionError
      else Ok (PrimFloat.div fx fy)
  end.

Definition num_truediv (x y : num) : result num :=
  q ← float_truediv x y; Ok (Float q).

(** An int against a float: the two values are compared as they are, the int
    is not converted; nan compares with nothing. *)
Definition Z_compare_float (z : Z) (f : float) : option comparison :=
  match Prim2SF f with
  | S754_nan => None
  | S754_infinity s => Some (if s then Gt else Lt)
  | S754_zero _ => Some (z ?= 0)
  | S754_finite s m e =>
      let v := if s then Zneg m else Zpos m in
      Some (match e with
            | Zneg p => Z.shiftl z (Zpos p) ?= v
            | _ => z ?= Z.shiftl v e
            end)
  end.

Definition num_ltb (x y : num) : bool :=
  match x, y with
  | Int a, Int b => a <? b
  | Int a, Float g => match Z_compare_float a g with Some Lt => true | _ => false end
  | Float f, Int b => match Z_compare_float b f with Some Gt => true | _ => false end
  | Float f, Float g => PrimFloat.ltb f g
  end.

(** [min(x, y)] and [max(x, y)]: the first argument wins a tie. *)
Definition py_min (x y : num) : num := if num_ltb y x then y else x.

Definition py_max (x y : num) : num := if num_ltb x y then y else x.

Definition float_min (x y : float) : float := if PrimFloat.ltb y x then y else x.

Definition float_max (x y : float) : float := if PrimFloat.ltb x y then y else x.

(** ** Module constants *)

Definition MAX_HEADER_HEIGHT : Z := 200.
Definition MAX_FILENAME_WIDTH : Z := 200.
Definition MIN_COLUMN_0_WIDTH : Z := 128.
Definition MAX_COLUMN_0_WIDTH : Z := 256.
Definition MIN_ROW_0_HEIGHT : Z := 256.
Definition MAX_ROW_0_HEIGHT : Z := 128.
Definition MIN_HEADER_HEIGHT : Z := 1.
Definition MIN_FILENAME_WIDTH : Z := 1.
Definition CELL_PADDING : Z := 5.
Definition FONT_SIZE : Z := 14.
Definition ZOOM_SPEED : float := 0x1.999999999999ap-5%float.
Definition MIN_START_ZOOM : float := 0.5%float.
Definition MIN_ZOOM : float := 0x1.999999999999ap-5%float.
Definition MAX_ZOOM : float := 3%float.
Definition INFO_HEIGHT : Z := 30.
Definition MIN_TEXT_CELL_WIDTH : Z := 1.
Definition MIN_TEXT_CELL_HEIGHT : Z := 1.

(** ** The state of an [ImageGrid] *)

(** What a pygame surface held by the viewer is: a decoded image, or a
    filled box with a caption. *)
Inductive surface : Type :=
| ImageSurface (path : string)
| BoxSurface (w h : Z) (fill : Z * Z * Z) (caption : string).

Record ImageGrid : Type := mkImageGrid {
  export_queue : list (string * option string);
  export_in_progress : bool;
  current_progress : num;
  current_message : string;
  subfolders_dir : string;
  base_folder : string;
  grid : gmap Z (list string);
  image_cache : gmap string surface;
  cell_size : Z;
  zoom_level : float;
  scroll_offset : num * num;
  fullscreen_image : option string;
  fullscreen_original : option surface;
  max_rows : Z;
  max_cols : Z;
  col_widths : list Z;
  row_heights : list Z;
  base_resolution : string;
  fullscreen_row : option Z;
  fullscreen_col : option Z
}.

Definition set_export (q : list (string * option string)) (b : bool) (p : num)
    (m : string) (self : ImageGrid) : ImageGrid :=
  mkImageGrid q b p m
    (subfolders_dir self) (base_folder self) (grid self) (image_cache self)
    (cell_size self) (zoom_level self) (scroll_offset self)
    (fullscreen_image self) (fullscreen_original self)
    (max_rows self) (max_cols self) (col_widths self) (row_heights self)
    (base_resolution self) (fullscreen_row self) (fullscreen_col self).

Definition set_image_cache (c : gmap string surface) (self : ImageGrid) : ImageGrid :=
  mkImageGrid (export_queue self) (export_in_progress self) (current_progress self)
    (current_message self) (subfolders_dir self) (base_folder self) (grid self) c
    (cell_size self) (zoom_level self) (scroll_offset self)
    (fullscreen_image self) (fullscreen_original self)
    (max_rows self) (max_cols self) (col_widths self) (row_heights self)
    (base_resolution self) (fullscreen_row self) (fullscreen_col self).

Definition set_viewport (cs : Z) (zl : float) (so : num * num) (cw rh : list Z)
    (self : ImageGrid) : ImageGrid :=
  mkImageGrid (export_queue self) (export_in_progress self) (current_progress self)
    (current_message self) (subfolders_dir self) (base_folder self) (grid self)
    (image_cache self) cs zl so
    (fullscreen_image self) (fullscreen_original self)
    (max_rows self) (max_cols self) cw rh
    (base_resolution self) (fullscreen_row self) (fullscreen_col self).

Definition set_fullscreen (img : option string) (orig : option surface)
    (row col : option Z) (self : ImageGrid) : ImageGrid :=
  mkImageGrid (export_queue self) (export_in_progress self) (current_progress self)
    (current_message self) (subfolders_dir self) (base_folder self) (grid self)
    (image_cache self) (cell_size self) (zoom_level self) (scroll_offset self)
    img orig
    (max_rows self) (max_cols self) (col_widths self) (row_heights self)
    (base_resolution self) row col.

(** The truth value of [self.fullscreen_image]: a non-empty string. *)
Definition truthy (s : option string) : bool :=
  match s with
  | Some p => negb (String.eqb p "")
  | None => false
  end.

(** ** The viewport: update_cell_sizes, zoom, enforce_scroll_bounds, scroll *)

Section Viewport.

(** The module global [DEFAULT_CELL_SIZE], assigned once in [main]. *)
Variable DEFAULT_CELL_SIZE : Z.

(** [int(DEFAULT_CELL_SIZE * zoom_level)] *)
Definition zoomed_cell_size (zl : float) : result Z :=
  d ← float_of_Z DEFAULT_CELL_SIZE;
  int_of_float (PrimFloat.mul d zl).

Definition update_cell_sizes (self : ImageGrid) : result ImageGrid :=
  zoomed_size ← zoomed_cell_size (zoom_level self);
  let cw :=
    map (fun col =>
           if col =? 0 then
             Z.max MIN_TEXT_CELL_WIDTH
               (Z.min MAX_FILENAME_WIDTH (Z.max MIN_FILENAME_WIDTH zoomed_size))
           else zoomed_size)
        (py_range 0 (max_cols self)) in
  let rh :=
    map (fun row =>
           if row =? 0 then
             Z.max MIN_TEXT_CELL_HEIGHT
               (Z.min MAX_HEADER_HEIGHT (Z.max MIN_HEADER_HEIGHT zoomed_size))
           else zoomed_size)
        (py_range 0 (max_rows self)) in
  Ok (set_viewport (cell_size self) (zoom_level self) (scroll_offset self) cw rh self).

(** [reset_viewport]; [screen_size] is the size of the display surface. *)
Definition reset_viewport (screen_size : Z * Z) (self : ImageGrid) : result ImageGrid :=
  let '(screen_width, screen_height) := screen_size in
  visible_cols ← floordiv screen_width DEFAULT_CELL_SIZE;
  visible_rows ← floordiv (screen_height - INFO_HEIGHT) DEFAULT_CELL_SIZE;
  zc ← (if (visible_cols <? 3) || (visible_rows <? 3) then
          w3 ← float_truediv (Int screen_width) (Int 3);
          zx ← float_truediv (Float w3) (Int DEFAULT_CELL_SIZE);
          h3 ← float_truediv (Int (screen_height - INFO_HEIGHT)) (Int 3);
          zy ← float_truediv (Float h3) (Int DEFAULT_CELL_SIZE);
          let required_zoom := float_max MIN_START_ZOOM (float_min zx zy) in
          cs ← zoomed_cell_size required_zoom;
          Ok (required_zoom, cs)
        else Ok (1%float, DEFAULT_CELL_SIZE));
  update_cell_sizes
    (set_viewport zc.2 zc.1 (Int 0, Int 0) (col_widths self) (row_heights self) self).

Definition enforce_scroll_bounds (screen_size : Z * Z) (self : ImageGrid) : ImageGrid :=
  if truthy (fullscreen_image self) then self
  else
    let '(screen_width, screen_height) := screen_size in
    let max_scroll_x := Z.max 0 (max_cols self * cell_size self - screen_width) in
    let max_scroll_y :=
      Z.max 0 (max_rows self * cell_size self - (screen_height - INFO_HEIGHT)) in
    let so0 := py_max (Int 0) (py_min (Int max_scroll_x) (scroll_offset self).1) in
    let so1 := py_max (Int 0) (py_min (Int max_scroll_y) (scroll_offset self).2) in
    set_viewport (cell_size self) (zoom_level self) (so0, so1)
      (col_widths self) (row_heights self) self.

(** [zoom(direction, mouse_pos)]; [screen_size] is [screen.get_size()] of
    the global window. *)
Definition zoom (direction : Z) (mouse_pos : option (Z * Z)) (screen_size : Z * Z)
    (self : ImageGrid) : result ImageGrid :=
  if truthy (fullscreen_image self) then Ok self
  else
    step ← float_of_Z direction;
    let zl :=
      float_max MIN_ZOOM
        (float_min MAX_ZOOM
           (PrimFloat.add (zoom_level self) (PrimFloat.mul step ZOOM_SPEED))) in
    self1 ← update_cell_sizes
              (set_viewport (cell_size self) zl (scroll_offset self)
                 (col_widths self) (row_heights self) self);
    self2 ←
      match mouse_pos with
      | Some (mx, my) =>
          px ← num_add (scroll_offset self1).1 (Int mx);
          grid_x ← num_truediv px (Int (cell_size self1));
          py ← num_add (scroll_offset self1).2 (Int my);
          py ← num_sub py (Int INFO_HEIGHT);
          grid_y ← num_truediv py (Int (cell_size self1));
          cs ← zoomed_cell_size (zoom_level self1);
          px ← num_mul grid_x (Int cs);
          so0 ← num_sub px (Int mx);
          py ← num_mul grid_y (Int cs);
          so1 ← num_sub py (Int (my - INFO_HEIGHT));
          Ok (set_viewport cs (zoom_level self1) (so0, so1)
                (col_widths self1) (row_heights self1) self1)
      | None =>
          cs ← zoomed_cell_size (zoom_level self1);
          Ok (set_viewport cs (zoom_level self1) (scroll_offset self1)
                (col_widths self1) (row_heights self1) self1)
      end;
    Ok (enforce_scroll_bounds screen_size self2).

Definition scroll (dx dy : Z) (screen_size : Z * Z) (self : ImageGrid)
  : result ImageGrid :=
  if truthy (fullscreen_image self) then Ok self
  else
    so0 ← num_add (scroll_offset self).1 (Int dx);
    so1 ← num_add (scroll_offset self).2 (Int dy);
    Ok (enforce_scroll_bounds screen_size
          (set_viewport (cell_size self) (zoom_level self) (so0, so1)
             (col_widths self) (row_heights self) self)).

End Viewport.

(** ** The image cache: unload_distant_images *)

(** The inner loop: [for col in range(...): visible_paths.add(grid[row][col])] *)
Fixpoint add_row_paths (cells : list string) (cols : list Z) (visible_paths : gset string)
  : result (gset string) :=
  match cols with
  | [] => Ok visible_paths
  | col :: rest =>
      path ← py_index cells col;
      add_row_paths cells rest ({[path]} ∪ visible_paths)
  end.

(** The outer loop over [range(start_row, end_row + 1)] *)
Fixpoint add_visible_paths (g : gmap Z (list string)) (rows : list Z)
    (start_col end_col : Z) (visible_paths : gset string) : result (gset string) :=
  match rows with
  | [] => Ok visible_paths
  | row :: rest =>
      match g !! row with
      | Some cells =>
          v ← add_row_paths cells
                (py_range start_col (Z.min (end_col + 1) (Z.of_nat (length cells))))
                visible_paths;
          add_visible_paths g rest start_col end_col v
      | None => add_visible_paths g rest start_col end_col visible_paths
      end
  end.

Definition visible_paths_of (g : gmap Z (list string)) (visible_cells : Z * Z * Z * Z)
  : result (gset string) :=
  let '(start_row, end_row, start_col, end_col) := visible_cells in
  add_visible_paths g (py_range start_row (end_row + 1)) start_col end_col ∅.

(** [for path in list(cache.keys()): if ...: del cache[path]] *)
Definition evict_paths (visible_paths : gset string) (fullscreen : option string)
    (keys : list string) (cache : gmap string surface) : gmap string surface :=
  fold_left
    (fun c path =>
       if decide ((path ∉ visible_paths) ∧ (Some path ≠ fullscreen)) then delete path c else c)
    keys cache.

Definition unload_distant_images (visible_cells : Z * Z * Z * Z) (self : ImageGrid)
  : result ImageGrid :=
  visible_paths ← visible_paths_of (grid self) visible_cells;
  Ok (set_image_cache
        (evict_paths visible_paths (fullscreen_image self)
           (map fst (map_to_list (image_cache self))) (image_cache self))
        self).

(** [path] is the path of a cell inside the visible range: a row between
    [start_row] and [end_row] that the grid has, a column from [start_col]
    up to [end_col] and the end of the row. *)
Definition visible_cell (g : gmap Z (list string)) (visible_cells : Z * Z * Z * Z)
    (path : string) : Prop :=
  let '(start_row, end_row, start_col, end_col) := visible_cells in
  ∃ row col cells,
    start_row <= row <= end_row ∧ g !! row = Some cells ∧
    start_col <= col < Z.min (end_col + 1) (Z.of_nat (length cells)) ∧
    py_index cells col = Ok path.

(** ** Fullscreen: toggle_fullscreen and navigate_fullscreen *)

Definition PLACEHOLDER_COLOR : Z * Z * Z := (80, 40, 40).

(** [self.grid[row]]: a missing key raises [KeyError]. *)
Definition grid_row (g : gmap Z (list string)) (row : Z) : result (list string) :=
  match g !! row with
  | Some cells => Ok cells
  | None => Raise KeyError
  end.

(** [path.split(":", 1)[1].split(" at ")[0]] on a placeholder cell: the
    builder only writes the bare marker, whose caption is empty. *)
Definition placeholder_caption (path : string) : string :=
  let rest := slice_from path 12 in
  match index 0 " at " rest with
  | Some i => substring 0 i rest
  | None => rest
  end.

Section Fullscreen.

(** Whether [pygame.image.load(path)] succeeds. *)
Variable image_load : string -> bool.

Definition toggle_fullscreen (row col : Z) (self : ImageGrid) : result ImageGrid :=
  if decide (fullscreen_row self = Some row ∧ fullscreen_col self = Some col) then
    Ok (set_fullscreen None None None None self)
  else
    cells ← grid_row (grid self) row;
    path ← py_index cells col;
    let original :=
      if startswith path PLACEHOLDER then
        BoxSurface 800 600 PLACEHOLDER_COLOR (placeholder_caption path)
      else if image_load path then ImageSurface path
      else BoxSurface 800 600 (120, 40, 40) "Error loading image" in
    Ok (set_fullscreen (Some path) (Some original) (Some row) (Some col) self).

(** The last two tests of [navigate_fullscreen] and the call they guard. *)
Definition navigate_to (row col new_row new_col : Z) (self : ImageGrid)
  : result ImageGrid :=
  if (new_row =? row) && (new_col =? col) then Ok self
  else
    match grid self !! new_row with
    | None => Ok self
    | Some cells =>
        if Z.of_nat (length cells) <=? new_col then Ok self
        else toggle_fullscreen new_row new_col self
    end.

Definition navigate_fullscreen (direction : string) (self : ImageGrid)
  : result ImageGrid :=
  match truthy (fullscreen_image self), fullscreen_row self, fullscreen_col self with
  | true, Some row, Some col =>
      if String.eqb direction "left" then
        navigate_to row col row (Z.max 1 (col - 1)) self
      else if String.eqb direction "right" then
        cells ← grid_row (grid self) row;
        if col + 1 <? Z.of_nat (length cells) then navigate_to row col row (col + 1) self
        else Ok self
      else if String.eqb direction "up" then
        navigate_to row col (Z.max 1 (row - 1)) col self
      else if String.eqb direction "down" then
        if row + 1 <? max_rows self then navigate_to row col (row + 1) col self
        else Ok self
      else Ok self
  | _, _, _ => Ok self
  end.

End Fullscreen.

(** The cell a direction aims at, before any clamping. *)
Definition navigation_target (direction : string) (row col : Z) : option (Z * Z) :=
  if String.eqb direction "left" then Some (row, col - 1)
  else if String.eqb direction "right" then Some (row, col + 1)
  else if String.eqb direction "up" then Some (row - 1, col)
  else if String.eqb direction "down" then Some (row + 1, col)
  else None.

(** A data cell of the grid: not in the header row or column, and in range. *)
Definition data_cell (self : ImageGrid) (row col : Z) : Prop :=
  1 <= row < max_rows self ∧
  ∃ cells, grid self !! row = Some cells ∧ 1 <= col < Z.of_nat (length cells).

(** The state is focused on the cell [(row, col)]. *)
Definition focused_on (self : ImageGrid) (row col : Z) : Prop :=
  truthy (fullscreen_image self) = true ∧
  fullscreen_row self = Some row ∧ fullscreen_col self = Some col.

(** ** The text fitter: draw_wrapped_text *)

(** A pygame font: [font.get_height()] and the width [font.size(text)[0]]. *)
Record Font : Type := {
  get_height : Z;
  font_size : string -> Z
}.

Record Rect : Type := {
  rect_left : Z;
  rect_top : Z;
  rect_width : Z;
  rect_height : Z
}.

(** [str.isspace] on one character. *)
Definition is_space (c : ascii) : bool :=
  let n := N_of_ascii c in
  (((9 <=? n) && (n <=? 13)) || ((28 <=? n) && (n <=? 32)) || (n =? 133) || (n =? 160))%N.

Fixpoint lstrip (s : string) : string :=
  match s with
  | EmptyString => EmptyString
  | String c s' => if is_space c then lstrip s' else s
  end.

Definition rstrip (s : string) : string := String.rev (lstrip (String.rev s)).

Definition strip (s : string) : string := rstrip (lstrip s).

(** [s[:-1]] *)
Definition drop_last (s : string) : string := substring 0 (String.length s - 1) s.

Definition ellipsis : string := "...".

Section TextFitter.

Variable font : Font.
Variable max_width : Z.

Definition fits (s : string) : bool := font_size font s <=? max_width.

(** The binary search [while low <= high] over the prefix length. *)
Fixpoint prefix_search (remaining_text : string) (fuel : nat) (low high : Z)
    (best : string) : string :=
  match fuel with
  | O => best
  | S fuel' =>
      if low <=? high then
        let mid := (low + high) / 2 in
        let test_text := slice_to remaining_text mid in
        if fits test_text then prefix_search remaining_text fuel' (mid + 1) high test_text
        else prefix_search remaining_text fuel' low (mid - 1) best
      else best
  end.

(** [for i in range(len(remaining_text), 0, -1)]: the longest prefix that
    fits with an ellipsis appended. *)
Fixpoint ellipsis_search (remaining_text : string) (i : nat) : string :=
  match i with
  | O => ""
  | S i' =>
      let test_text := substring 0 i remaining_text ++ ellipsis in
      if fits test_text then test_text else ellipsis_search remaining_text i'
  end.

(** The line chosen by one pass of the outer loop, before it is appended;
    the empty string when the loop breaks. *)
Definition choose_line (remaining_text : string) : string :=
  let n := String.length remaining_text in
  let best := prefix_search remaining_text (S (S n)) 0 (Z.of_nat n) "" in
  let best :=
    if String.eqb best "" then
      let best := ellipsis_search remaining_text n in
      if String.eqb best "" then (if fits ellipsis then ellipsis else "") else best
    else best in
  if String.eqb best "" then ""
  else if (0 <=? rfind " " best) && (String.length best <? n)%nat then
    let last_space := rfind " " best in
    if 0 <? last_space then
      let candidate := slice_to best last_space in
      if fits candidate then candidate else best
    else best
  else best.

(** [while remaining_text and len(lines) < max_lines]; [room] is
    [max_lines - len(lines)]. *)
Fixpoint wrap_loop (room : nat) (remaining_text : string) (lines : list string)
  : list string * string :=
  match room with
  | O => (lines, remaining_text)
  | S room' =>
      if String.eqb remaining_text "" then (lines, remaining_text)
      else
        let best := choose_line remaining_text in
        if String.eqb best "" then (lines, remaining_text)
        else
          wrap_loop room'
            (lstrip (slice_from remaining_text (Z.of_nat (String.length best))))
            (lines ++ [best])
  end.

(** [while last_line and font.size(last_line[:-1] + ellipsis)[0] > max_width] *)
Fixpoint shrink_last (n : nat) (last_line : string) : string :=
  match n with
  | O => last_line
  | S n' =>
      if negb (String.eqb last_line "") && negb (fits (drop_last last_line ++ ellipsis))
      then shrink_last n' (drop_last last_line)
      else last_line
  end.

(** The block after the loop: the ellipsis on the last line. *)
Definition mark_truncated (max_lines : Z) (lines : list string) (remaining_text : string)
  : list string :=
  if negb (String.eqb remaining_text "") && (Z.of_nat (length lines) =? max_lines) then
    match last lines with
    | Some last_line =>
        let ellipsis_width := font_size font ellipsis in
        if font_size font last_line + ellipsis_width <=? max_width then
          removelast lines ++ [last_line ++ ellipsis]
        else
          removelast lines
            ++ [shrink_last (String.length last_line) last_line ++ ellipsis]
    | None => lines
    end
  else lines.

End TextFitter.

(** The [lines] list [draw_wrapped_text] renders. *)
Definition wrapped_lines (text : string) (rect : Rect) (font : Font) : result (list string) :=
  if String.eqb text "" || String.eqb (strip text) "" then Ok []
  else
    let line_height := get_height font in
    let max_width := rect_width rect - 10 in
    q ← floordiv (rect_height rect - 10) line_height;
    let max_lines := Z.max 1 q in
    let '(lines, remaining_text) :=
      wrap_loop font max_width (Z.to_nat max_lines) (strip text) [] in
    Ok (mark_truncated font max_width max_lines lines remaining_text).

(** [draw_wrapped_text]: the blits onto the surface, each a rendered line
    and its position. *)
Definition draw_wrapped_text (text : string) (rect : Rect) (font : Font)
  : result (list (string * (Z * Z))) :=
  lines ← wrapped_lines text rect font;
  Ok (imap (fun i line => (line, (rect_left rect + 5,
                                  rect_top rect + Z.of_nat i * get_height font)))
           lines).

(** ** The export pipeline *)

(** A PIL font: [font.getbbox(text)] is [(x0, y0, x1, y1)]. *)
Record PILFont : Type := {
  getbbox : string -> Z * Z * Z * Z
}.

Definition bbox_width (b : Z * Z * Z * Z) : Z :=
  let '(x0, _, x1, _) := b in x1 - x0.

Definition bbox_height (b : Z * Z * Z * Z) : Z :=
  let '(_, y0, _, y1) := b in y1 - y0.

(** [len(text.split('\n'))] *)
Fixpoint count_lines (text : string) : Z :=
  match text with
  | EmptyString => 1
  | String c rest => (if Ascii.eqb c "010" then 1 else 0) + count_lines rest
  end.

(** The first loop of the layout pass: the width of column 0. *)
Definition column_0_width_step (font : PILFont) (g : gmap Z (list string))
    (column_0_width row : Z) : Z :=
  match g !! row with
  | Some (cell :: _) =>
      let text := if 0 <? row then cell else "" in
      if String.eqb text "" then column_0_width
      else
        let text_width := bbox_width (getbbox font text) + 20 in
        Z.max column_0_width (Z.min text_width MAX_COLUMN_0_WIDTH)
  | _ => column_0_width
  end.

Definition export_column_0_width (font : PILFont) (self : ImageGrid) : Z :=
  fold_left (column_0_width_step font (grid self)) (py_range 0 (max_rows self))
    MIN_COLUMN_0_WIDTH.

(** The second loop: the height of row 0. *)
Fixpoint row_0_height_loop (font : PILFont) (headers : list string) (row_0_height : Z)
  : result Z :=
  match headers with
  | [] => Ok row_0_height
  | text :: rest =>
      if String.eqb text "" then row_0_height_loop font rest row_0_height
      else
        let line_height := bbox_height (getbbox font "A") in
        max_lines ← floordiv (MAX_ROW_0_HEIGHT - 10) line_height;
        row_0_height_loop font rest
          (Z.max row_0_height
             (Z.min (MIN_ROW_0_HEIGHT + count_lines text * line_height) MAX_ROW_0_HEIGHT))
  end.

Definition export_row_0_height (font : PILFont) (self : ImageGrid) : result Z :=
  match grid self !! 0 with
  | Some headers => row_0_height_loop font headers MIN_ROW_0_HEIGHT
  | None => Ok MIN_ROW_0_HEIGHT
  end.

(** The geometry the layout pass fixes for the mosaic. *)
Record Layout : Type := {
  column_0_width : Z;
  row_0_height : Z;
  total_width : Z;
  total_height : Z
}.

Definition export_layout (font : PILFont) (self : ImageGrid) : result Layout :=
  let c0 := export_column_0_width font self in
  r0 ← export_row_0_height font self;
  Ok {| column_0_width := c0;
        row_0_height := r0;
        total_width := c0 + (max_cols self - 1) * cell_size self;
        total_height := r0 + (max_rows self - 1) * cell_size self |}.

(** [cell_width] and [cell_height] of the drawing loop. *)
Definition cell_width (l : Layout) (self : ImageGrid) (col : Z) : Z :=
  if col =? 0 then column_0_width l else cell_size self.

Definition cell_height (l : Layout) (self : ImageGrid) (row : Z) : Z :=
  if row =? 0 then row_0_height l else cell_size self.

(** The measured widths of the filename labels: for each row below row 0
    with a non-empty label, the width of its text box plus 20. *)
Definition measured_labels (font : PILFont) (self : ImageGrid) : list Z :=
  omap (fun row =>
          match grid self !! row with
          | Some (cell :: _) =>
              if (0 <? row) && negb (String.eqb cell "")
              then Some (bbox_width (getbbox font cell) + 20)
              else None
          | _ => None
          end)
       (py_range 0 (max_rows self)).

(** The widest of a list of widths (0 for none). *)
Definition widest (ws : list Z) : Z := foldr Z.max 0 ws.

(** What the world outside the model did during one run of a job: whether
    the part of the [try] body that decodes, draws and writes files came to
    its end or raised, and the last value it stored in [current_progress]
    (if it stored any). *)
Record JobRun : Type := {
  run_io : result unit;
  run_progress : option num
}.

(** A computation on the object that may raise; the object survives. *)
Definition action (A : Type) : Type := ImageGrid -> result A * ImageGrid.

(** [try: body finally: cleanup] *)
Definition try_finally {A : Type} (body : action A) (cleanup : ImageGrid -> ImageGrid)
  : action A :=
  fun self => let '(r, self') := body self in (r, cleanup self').

Definition set_progress (p : option num) (self : ImageGrid) : ImageGrid :=
  match p with
  | Some v =>
      set_export (export_queue self) (export_in_progress self) v (current_message self) self
  | None => self
  end.

Definition queue_put (item : string * option string) (self : ImageGrid) : ImageGrid :=
  set_export (export_queue self ++ [item]) (export_in_progress self)
    (current_progress self) (current_message self) self.

Definition clear_in_progress (self : ImageGrid) : ImageGrid :=
  set_export (export_queue self) false (current_progress self) (current_message self) self.

(** [_export_grid]: the [try] body is the font, the layout pass and the
    rasterisation; [except Exception] turns a failure into [None]. *)
Definition _export_grid (filename : string) (now : string) (truetype : option PILFont)
    (run : JobRun) : action (option string) :=
  fun self =>
    let filename :=
      if String.eqb filename "" then "grid_export_" ++ now ++ ".png" else filename in
    let layout : result Layout :=
      font ← (match truetype with Some f => Ok f | None => Raise OSError end);
      export_layout font self in
    match layout with
    | Ok _ =>
        match run_io run with
        | Ok _ => (Ok (Some filename), set_progress (run_progress run) self)
        | Raise _ => (Ok None, set_progress (run_progress run) self)
        end
    | Raise _ => (Ok None, self)
    end.

(** [_export_html]: the whole body is inside the [try]. *)
Definition _export_html (output_folder : string) (run : JobRun) : action (option string) :=
  fun self =>
    match run_io run with
    | Ok _ => (Ok (Some (path_join output_folder "index.html")),
               set_progress (run_progress run) self)
    | Raise _ => (Ok None, set_progress (run_progress run) self)
    end.

(** What [_export_grid] hands back: the file name when the font opened, the
    layout pass came through and the drawing and saving did too; [None] as
    soon as one of them raised. *)
Definition grid_job_result (name : string) (truetype : option PILFont) (run : JobRun)
    (self : ImageGrid) : option string :=
  match truetype with
  | Some font =>
      match export_layout font self, run_io run with
      | Ok _, Ok _ => Some name
      | _, _ => None
      end
  | None => None
  end.

(** What [_export_html] hands back: the path of the page, or [None] when
    anything in the job raised. *)
Definition html_job_result (output_folder : string) (run : JobRun) : option string :=
  match run_io run with
  | Ok _ => Some (path_join output_folder "index.html")
  | Raise _ => None
  end.

(** The closure handed to [threading.Thread]. *)
Inductive thread : Type :=
| GridThread (filename : string)
| HtmlThread (output_folder : string).

(** The kind a worker reports with its result. *)
Definition thread_kind (t : thread) : string :=
  match t with
  | GridThread _ => "grid"
  | HtmlThread _ => "html"
  end.

(** [export_thread], the body of the worker. *)
Definition export_thread (t : thread) (now : string) (truetype : option PILFont)
    (run : JobRun) : action unit :=
  try_finally
    (fun self =>
       let '(r, self1) :=
         match t with
         | GridThread filename => _export_grid filename now truetype run self
         | HtmlThread output_folder => _export_html output_folder run self
         end in
       match r with
       | Ok result => (Ok tt, queue_put (thread_kind t, result) self1)
       | Raise e => (Raise e, self1)
       end)
    clear_in_progress.

(** [start_export_grid(filename)]: the value returned, the object, and the
    thread started (if any). *)
Definition start_export_grid (filename : option string) (now : string) (self : ImageGrid)
  : option string * ImageGrid * option thread :=
  if export_in_progress self then (None, self, None)
  else
    let self1 := set_export (export_queue self) true (Int 0) "Exporting PNG..." self in
    let filename :=
      match filename with
      | Some f => if String.eqb f "" then "grid_export_" ++ now ++ ".png" else f
      | None => "grid_export_" ++ now ++ ".png"
      end in
    (Some filename, self1, Some (GridThread filename)).

Definition start_export_html (output_folder : string) (self : ImageGrid)
  : option string * ImageGrid * option thread :=
  if export_in_progress self then (None, self, None)
  else
    let self1 := set_export (export_queue self) true (Int 0) "Exporting HTML..." self in
    (Some (path_join output_folder "index.html"), self1, Some (HtmlThread output_folder)).

(** ** Construction and startup: __init__, get_max_image_resolution, main *)

Section Startup.

Variable fs : FileSystem.

(** [Image.open(path).size], or [None] when the file cannot be decoded. *)
Variable image_dims : string -> option (Z * Z).

Definition get_max_image_resolution (folder : string) : result Z :=
  entries ← os_listdir fs folder;
  let max_res :=
    fold_left
      (fun max_res filename =>
         if has_supported_ext filename then
           match image_dims (path_join folder filename) with
           | Some (width, height) => Z.max (Z.max max_res width) height
           | None => max_res
           end
         else max_res)
      entries 0 in
  Ok (if 0 <? max_res then max_res else 10).

(** The loop of [get_base_resolution]: the first supported file that opens. *)
Fixpoint first_resolution (folder : string) (entries : list string) : string :=
  match entries with
  | [] => "Unknown"
  | f :: rest =>
      if has_supported_ext f then
        match image_dims (path_join folder f) with
        | Some (width, height) =>
            pretty width ++ String (ascii_of_N 215) (pretty height)
        | None => first_resolution folder rest
        end
      else first_resolution folder rest
  end.

Definition get_base_resolution (folder : string) : result string :=
  entries ← os_listdir fs folder;
  Ok (first_resolution folder entries).

(** [max(len(row) for row in self.grid.values()) if self.grid else 0] *)
Definition grid_max_cols (g : gmap Z (list string)) : Z :=
  if decide (g = ∅) then 0
  else map_fold (fun _ row acc => Z.max (Z.of_nat (length row)) acc) 0 g.

(** [ImageGrid.__init__] *)
Definition init (DEFAULT_CELL_SIZE : Z) (screen_size : Z * Z)
    (base subfolders : string) : result ImageGrid :=
  g ← build_grid fs base subfolders;
  self ← update_cell_sizes DEFAULT_CELL_SIZE
           {| export_queue := []; export_in_progress := false;
              current_progress := Int 0; current_message := "";
              subfolders_dir := subfolders; base_folder := base;
              grid := g; image_cache := ∅;
              cell_size := DEFAULT_CELL_SIZE; zoom_level := 1%float;
              scroll_offset := (Int 0, Int 0);
              fullscreen_image := None; fullscreen_original := None;
              max_rows := Z.of_nat (size g); max_cols := grid_max_cols g;
              col_widths := []; row_heights := [];
              base_resolution := "";
              fullscreen_row := None; fullscreen_col := None |};
  resolution ← get_base_resolution base;
  reset_viewport DEFAULT_CELL_SIZE screen_size
    (mkImageGrid (export_queue self) (export_in_progress self) (current_progress self)
       (current_message self) (subfolders_dir self) (base_folder self) (grid self)
       (image_cache self) (cell_size self) (zoom_level self) (scroll_offset self)
       (fullscreen_image self) (fullscreen_original self)
       (max_rows self) (max_cols self) (col_widths self) (row_heights self)
       resolution (fullscreen_row self) (fullscreen_col self)).

(** How [main] gets to its [while True] loop. *)
Inductive startup : Type :=
| Exited
| EnteredLoop (DEFAULT_CELL_SIZE : Z) (self : ImageGrid).

(** [main] up to the loop; the two folders are the resolved arguments (the
    empty string when none was chosen). *)
Definition main_startup (base_folder subfolders_dir : string) : result startup :=
  if String.eqb base_folder "" || negb (isdir fs base_folder) then Ok Exited
  else if String.eqb subfolders_dir "" || negb (isdir fs subfolders_dir) then Ok Exited
  else
    let screen_size := (1024, 768) in
    DEFAULT_CELL_SIZE ← get_max_image_resolution base_folder;
    self ← init DEFAULT_CELL_SIZE screen_size base_folder subfolders_dir;
    self ← reset_viewport DEFAULT_CELL_SIZE screen_size self;
    Ok (EnteredLoop DEFAULT_CELL_SIZE
          (enforce_scroll_bounds screen_size self)).

End Startup.

(** ** Auxiliary notions for the further properties *)

(** The position of the last occurrence of a character, counted from the
    start of the string. *)
Fixpoint last_index (c : ascii) (s : string) : option nat :=
  match s with
  | EmptyString => None
  | String a s' =>
      match last_index c s' with
      | Some k => Some (S k)
      | None => if Ascii.eqb a c then Some O else None
      end
  end.

(** A name without a path separator, as [os.listdir] returns them. *)
Definition plain_name (f : string) : Prop := rfind "/" f = -1.

(** ** The visible range and the image cache: get_visible_cells, load_image *)

Definition BUFFER_ROWS : Z := 2.
Definition BUFFER_COLS : Z := 2.

(** [int(x)] on an int or a float. *)
Definition py_int (x : num) : result Z :=
  match x with
  | Int z => Ok z
  | Float f => int_of_float f
  end.

Definition get_visible_cells (screen_width screen_height : Z) (self : ImageGrid)
  : result (Z * Z * Z * Z) :=
  let view_height := screen_height - INFO_HEIGHT in
  q ← num_truediv (scroll_offset self).2 (Int (cell_size self));
  i ← py_int q;
  let start_row := Z.max 0 i in
  bottom ← num_add (scroll_offset self).2 (Int view_height);
  q ← num_truediv bottom (Int (cell_size self));
  i ← py_int q;
  let end_row := Z.min (max_rows self) (i + BUFFER_ROWS) in
  q ← num_truediv (scroll_offset self).1 (Int (cell_size self));
  i ← py_int q;
  let start_col := Z.max 0 i in
  right ← num_add (scroll_offset self).1 (Int screen_width);
  q ← num_truediv right (Int (cell_size self));
  i ← py_int q;
  let end_col := Z.min (max_cols self) (i + BUFFER_COLS) in
  Ok (start_row, end_row, start_col, end_col).

(** [load_image(path)]: the surface returned and the object afterwards;
    [image_load] tells whether [pygame.image.load] succeeds on a path. *)
Definition load_image (image_load : string -> bool) (path : string) (self : ImageGrid)
  : surface * ImageGrid :=
  if startswith path PLACEHOLDER then
    (BoxSurface 100 100 PLACEHOLDER_COLOR (placeholder_caption path), self)
  else
    match image_cache self !! path with
    | None =>
        let img :=
          if image_load path then ImageSurface path
          else BoxSurface 100 100 (120, 40, 40) "Error" in
        (img, set_image_cache (<[path := img]> (image_cache self)) self)
    | Some img => (img, self)
    end.

(** [x <= y] on ints and floats. *)
Definition num_leb (x y : num) : bool :=
  match x, y with
  | Int a, Int b => a <=? b
  | Int a, Float g =>
      match Z_compare_float a g with Some (Lt | Eq) => true | _ => false end
  | Float f, Int b =>
      match Z_compare_float b f with Some (Gt | Eq) => true | _ => false end
  | Float f, Float g => PrimFloat.leb f g
  end.

(** The scroll offset lies within the content bounds of
    [enforce_scroll_bounds]: between 0 and [max_scroll] on each axis. *)
Definition scroll_in_bounds (screen_size : Z * Z) (self : ImageGrid) : Prop :=
  let max_scroll_x := Z.max 0 (max_cols self * cell_size self - screen_size.1) in
  let max_scroll_y :=
    Z.max 0 (max_rows self * cell_size self - (screen_size.2 - INFO_HEIGHT)) in
  num_leb (Int 0) (scroll_offset self).1 = true ∧
  num_leb (scroll_offset self).1 (Int max_scroll_x) = true ∧
  num_leb (Int 0) (scroll_offset self).2 = true ∧
  num_leb (scroll_offset self).2 (Int max_scroll_y) = true.

(** The direction that undoes a direction. *)
Definition opposite (direction : string) : string :=
  if String.eqb direction "left" then "right"
  else if String.eqb direction "right" then "left"
  else if String.eqb direction "up" then "down"
  else if String.eqb direction "down" then "up"
  else direction.

(** No cell is focused: the four fullscreen fields are [None]. *)
Definition browsing (self : ImageGrid) : Prop :=
  fullscreen_image self = None ∧ fullscreen_original self = None ∧
  fullscreen_row self = None ∧ fullscreen_col self = None.

(** ** Text on the mosaic: draw_wrapped_text_pil *)



Section PILText.

Variable font : PILFont.
Variable max_width : Z.





End PILText.



(** ** The mosaic, cell by cell *)

(** [sum(...)] of ints. *)
Definition py_sum (l : list Z) : Z := fold_left Z.add l 0.

(** The [box] of a cell in the drawing loop of [_export_grid]:
    [(x, y, x + cell_width, y + cell_height)]. *)
Definition cell_box (l : Layout) (self : ImageGrid) (row col : Z) : Z * Z * Z * Z :=
  let x :=
    py_sum (map (fun c => if c =? 0 then column_0_width l else cell_size self)
                (py_range 0 col)) in
  let y :=
    py_sum (map (fun r => if r =? 0 then row_0_height l else cell_size self)
                (py_range 0 row)) in
  (x, y, x + cell_width l self col, y + cell_height l self row).

(** [processed_cells] when the drawing loop of [_export_grid] has gone
    through every row: one step per cell of every row of the grid in
    [range(max_rows)]. *)
Definition export_processed_cells (self : ImageGrid) : Z :=
  fold_left
    (fun processed_cells row =>
       match grid self !! row with
       | Some cells =>
           fold_left (fun processed_cells _ => processed_cells + 1)
             (py_range 0 (Z.of_nat (length cells))) processed_cells
       | None => processed_cells
       end)
    (py_range 0 (max_rows self)) 0.

(** ** The HTML export: the work counted and the work done *)

(** [enumerate(row)] *)
Definition enumerate {A : Type} (l : list A) : list (Z * A) :=
  imap (fun i x => (Z.of_nat i, x)) l.

(** [total_cells]: [sum(len(row) for row in self.grid.values())] *)
Definition html_total_cells (self : ImageGrid) : Z :=
  map_fold (fun _ row acc => acc + Z.of_nat (length row)) 0 (grid self).

(** The condition of the generator that counts [total_images]. *)
Definition counted_image (row_idx : Z) (cell : Z * string) : bool :=
  negb (startswith cell.2 PLACEHOLDER) && (1 <? row_idx) && (0 <? cell.1).

Definition html_total_images (self : ImageGrid) : Z :=
  map_fold
    (fun row_idx row acc =>
       acc + Z.of_nat (length (filter (fun cell => counted_image row_idx cell = true)
                                 (enumerate row))))
    0 (grid self).

Definition html_total_work (self : ImageGrid) : Z :=
  html_total_cells self + html_total_images self.

(** The steps of [processed] for one cell: one for the cell, and one more
    when the cell is an image that is converted; [image_ok value] tells
    whether the [try] block that opens, resizes and saves the image runs to
    its end. *)
Definition html_cell_steps (image_ok : string -> bool) (row_idx col_idx : Z)
    (value : string) : Z :=
  1 + (if row_idx =? 0 then 0
       else if col_idx =? 0 then 0
       else if startswith value PLACEHOLDER then 0
       else if image_ok value then 1 else 0).

(** [processed] when the cell loop of [_export_html] has gone through every
    row; the inner loop reads [grid[row_idx][col_idx]] for every index of
    the row, which is [enumerate]. *)
Definition html_processed (image_ok : string -> bool) (self : ImageGrid) : Z :=
  fold_left
    (fun processed row_idx =>
       match grid self !! row_idx with
       | Some row =>
           fold_left
             (fun processed '(col_idx, value) =>
                processed + html_cell_steps image_ok row_idx col_idx value)
             (enumerate row) processed
       | None => processed
       end)
    (py_range 0 (max_rows self)) 0.

(** The cells of row 1 after its label: the base images. *)
Definition base_image_cells (self : ImageGrid) : list string :=
  match grid self !! 1 with
  | Some (_ :: paths) => paths
  | _ => []
  end.

(** A sum over the rows of the grid that a list of row numbers names. *)
Definition range_sum (F : Z -> list string -> Z) (g : gmap Z (list string))
    (rows : list Z) (acc : Z) : Z :=
  fold_left
    (fun acc row => match g !! row with Some cells => acc + F row cells | None => acc end)
    rows acc.

(** ** The frame: draw, and the click that main resolves to a cell *)

(** A [for] loop whose body may raise; the state is threaded through. *)
Fixpoint for_each {A S : Type} (items : list A) (body : A -> S -> result S) (s : S)
  : result S :=
  match items with
  | [] => Ok s
  | x :: rest => s' ← body x s; for_each rest body s'
  end.

(** [col_positions] and [row_positions]: [[start]], then
    [positions.append(positions[-1] + w)] for every size but the last. *)
Definition positions (start : Z) (sizes : list Z) : list Z :=
  fold_left (fun positions w => positions ++ [default 0 (last positions) + w])%list
    (removelast sizes) [start].

(** One scrollbar: the fraction scrolled, clamped to [0, 1], the length of
    the bar (a tenth of the track, 10 at least) and how far along the track
    the bar starts. *)
Definition scrollbar (offset : num) (max_scroll track : Z) : result num :=
  fraction ← num_truediv offset (Int max_scroll);
  let fraction := py_max (Int 0) (py_min (Int 1) fraction) in
  tenth ← num_mul (Int track) (Float 0x1.999999999999ap-4%float);
  let bar := py_max (Int 10) tenth in
  room ← num_sub (Int track) bar;
  num_mul fraction room.

(** [draw_scrollbars]: apart from rendering, the place of the bar on each
    axis, computed only when [max_scroll] is positive. *)
Definition draw_scrollbars (screen_width screen_height : Z) (self : ImageGrid)
  : result unit :=
  _ ← (if 0 <? max_rows self then
         let max_scroll_y :=
           max_rows self * cell_size self - (screen_height - INFO_HEIGHT) in
         if 0 <? max_scroll_y then
           pos ← scrollbar (scroll_offset self).2 max_scroll_y (screen_height - INFO_HEIGHT);
           _ ← num_add pos (Int INFO_HEIGHT);
           Ok tt
         else Ok tt
       else Ok tt);
  if 0 <? max_cols self then
    let max_scroll_x := max_cols self * cell_size self - screen_width in
    if 0 <? max_scroll_x then
      _ ← scrollbar (scroll_offset self).1 max_scroll_x screen_width; Ok tt
    else Ok tt
  else Ok tt.

(** [draw_progress_bar]: apart from rendering, the two conversions of the
    progress to an int. *)
Definition draw_progress_bar (self : ImageGrid) : result unit :=
  if negb (export_in_progress self) then Ok tt
  else
    filled ← num_mul (Int 400) (current_progress self);
    _ ← py_int filled;
    percent ← num_mul (current_progress self) (Int 100);
    _ ← py_int percent;
    Ok tt.

(** [self.export_queue.get_nowait()] inside [try ... except queue.Empty]:
    the head of the queue, if any, is taken off. *)
Definition poll_export_queue (self : ImageGrid) : ImageGrid :=
  set_export (tail (export_queue self)) (export_in_progress self)
    (current_progress self) (current_message self) self.

Section Frame.

(** The module global [DEFAULT_CELL_SIZE]. *)
Variable DEFAULT_CELL_SIZE : Z.

(** Whether [pygame.image.load(path)] succeeds. *)
Variable image_load : string -> bool.

(** [self.font] *)
Variable font : Font.

(** [surface.get_size()] *)
Variable surface_size : surface -> Z * Z.

(** The integer [pygame.Rect] makes of a coordinate. *)
Variable rect_coord : num -> Z.

(** [pygame.Rect(x + 5, y + 5, w - 10, h - 10)] *)
Definition text_rect (x y : num) (w h : Z) : result Rect :=
  x5 ← num_add x (Int 5);
  y5 ← num_add y (Int 5);
  Ok {| rect_left := rect_coord x5;
        rect_top := rect_coord y5;
        rect_width := w - 10;
        rect_height := h - 10 |}.

(** [draw_fullscreen]: apart from rendering, the scale of the image and the
    two labels read from the grid. *)
Definition draw_fullscreen (screen_size : Z * Z) (self : ImageGrid) : result unit :=
  match fullscreen_original self with
  | Some original =>
      let '(screen_width, screen_height) := screen_size in
      let '(img_width, img_height) := surface_size original in
      sx ← num_truediv (Int screen_width) (Int img_width);
      sy ← num_truediv (Int screen_height) (Int img_height);
      let scale := py_min sx sy in
      scaled_width ← num_mul (Int img_width) scale;
      new_width ← py_int scaled_width;
      scaled_height ← num_mul (Int img_height) scale;
      new_height ← py_int scaled_height;
      match fullscreen_col self, grid self !! 0 with
      | Some col, Some headers =>
          if col <? Z.of_nat (length headers) then
            col_name ← py_index headers col; Ok tt
          else Ok tt
      | _, _ => Ok tt
      end
  | None => Ok tt
  end.

(** The body of the loop over the data cells of a row: the image is loaded,
    and the cell's rectangle [(x, y, w, h)] is returned when the cell is
    drawn, [None] when it is skipped as off screen. *)
Definition draw_cell (screen_size : Z * Z) (col_positions row_positions : list Z)
    (row : Z) (cells : list string) (col : Z) (self : ImageGrid)
  : result (ImageGrid * option (num * num * Z * Z)) :=
  let '(screen_width, screen_height) := screen_size in
  path ← py_index cells col;
  let '(img, self) := load_image image_load path self in
  cx ← py_index col_positions col;
  x ← num_sub (Int cx) (scroll_offset self).1;
  cy ← py_index row_positions row;
  y ← num_sub (Int cy) (scroll_offset self).2;
  w ← py_index (col_widths self) col;
  h ← py_index (row_heights self) row;
  x_end ← num_add x (Int w);
  if num_ltb x_end (Int 0) then Ok (self, None)
  else
    y_end ← num_add y (Int h);
    if num_ltb y_end (Int INFO_HEIGHT) then Ok (self, None)
    else if num_ltb (Int screen_width) x || num_ltb (Int screen_height) y
    then Ok (self, None)
    else Ok (self, Some (x, y, w, h)).

(** The first loop of [draw]: the data cells of the visible range. *)
Definition draw_cells (screen_size : Z * Z) (col_positions row_positions : list Z)
    (visible_cells : Z * Z * Z * Z) (self : ImageGrid) : result ImageGrid :=
  let '(start_row, end_row, start_col, end_col) := visible_cells in
  for_each (py_range (Z.max 1 start_row) (end_row + 1))
    (fun row self =>
       match grid self !! row with
       | None => Ok self
       | Some cells =>
           for_each
             (py_range (Z.max 1 start_col)
                (Z.min (end_col + 1) (Z.of_nat (length cells))))
             (fun col self =>
                r ← draw_cell screen_size col_positions row_positions row cells col self;
                Ok r.1)
             self
       end)
    self.

(** The second loop: the header row, which stays at the top. *)
Definition draw_headers (screen_width : Z) (col_positions : list Z)
    (visible_cells : Z * Z * Z * Z) (self : ImageGrid) : result unit :=
  let '(start_row, end_row, start_col, end_col) := visible_cells in
  match grid self !! 0 with
  | None => Ok tt
  | Some headers =>
      let y := INFO_HEIGHT in
      h ← py_index (row_heights self) 0;
      for_each
        (py_range (Z.max 0 start_col) (Z.min (end_col + 1) (Z.of_nat (length headers))))
        (fun col _ =>
           text ← py_index headers col;
           cx ← py_index col_positions col;
           x ← num_sub (Int cx) (scroll_offset self).1;
           w ← py_index (col_widths self) col;
           x_end ← num_add x (Int w);
           if num_ltb x_end (Int 0) || num_ltb (Int screen_width) x
           then Ok tt
           else
             let display_text := if col =? 0 then "Filenames" else text in
             if String.eqb display_text "" then Ok tt
             else
               rect ← text_rect x (Int y) w h;
               _ ← draw_wrapped_text display_text rect font;
               Ok tt)
        tt
  end.

(** The third loop: the filename column, which stays at the left. *)
Definition draw_filenames (screen_height : Z) (row_positions : list Z)
    (visible_cells : Z * Z * Z * Z) (self : ImageGrid) : result unit :=
  let '(start_row, end_row, start_col, end_col) := visible_cells in
  for_each (py_range (Z.max 1 start_row) (Z.min (end_row + 1) (max_rows self)))
    (fun row _ =>
       match grid self !! row with
       | None => Ok tt
       | Some cells =>
           filename ← py_index cells 0;
           let x := 0 in
           cy ← py_index row_positions row;
           y ← num_sub (Int cy) (scroll_offset self).2;
           w ← py_index (col_widths self) 0;
           h ← py_index (row_heights self) row;
           y_end ← num_add y (Int h);
           if num_ltb y_end (Int INFO_HEIGHT) || num_ltb (Int screen_height) y
           then Ok tt
           else
             rect ← text_rect (Int x) y w h;
             _ ← draw_wrapped_text filename rect font;
             Ok tt
       end)
    tt.

(** [draw(screen)]: the two button rectangles it returns ([x, y, w, h];
    [None] under a fullscreen image) and the object after the frame.
    Rendering itself is left out; what the frame reads from the grid and
    the size lists, what it computes and what it changes on the object is
    all here, in the order of the source. *)
Definition draw (screen_size : Z * Z) (self : ImageGrid)
  : result (option ((Z * Z * Z * Z) * (Z * Z * Z * Z)) * ImageGrid) :=
  if truthy (fullscreen_image self) then
    _ ← draw_fullscreen screen_size self;
    Ok (None, self)
  else
    let '(screen_width, screen_height) := screen_size in
    visible_cells ← get_visible_cells screen_width screen_height self;
    let col_positions := positions 0 (col_widths self) in
    let row_positions := positions INFO_HEIGHT (row_heights self) in
    self ← draw_cells screen_size col_positions row_positions visible_cells self;
    _ ← draw_headers screen_width col_positions visible_cells self;
    _ ← draw_filenames screen_height row_positions visible_cells self;
    let button_width := 110 in
    let button_spacing := 10 in
    let html_button_rect :=
      (screen_width - button_width - button_spacing - button_width, 5, button_width, 20) in
    let export_button_rect := (screen_width - button_width, 5, button_width, 20) in
    corner_w ← py_index (col_widths self) 0;
    corner_h ← py_index (row_heights self) 0;
    _ ← (if String.eqb (base_resolution self) "" then Ok 0
         else zoomed_cell_size DEFAULT_CELL_SIZE (zoom_level self));
    _ ← draw_scrollbars screen_width screen_height self;
    self ← unload_distant_images visible_cells self;
    let self := poll_export_queue self in
    _ ← (if export_in_progress self then draw_progress_bar self else Ok tt);
    Ok (Some (export_button_rect, html_button_rect), self).

End Frame.

(** The scan of [main] over [col_widths] (or [row_heights]) for the cell
    under a pixel: the first index at which the running sum passes the
    pixel plus the scroll offset, or -1. *)
Fixpoint hit_scan (sizes : list Z) (pixel : Z) (offset : num) (accum idx : Z) : result Z :=
  match sizes with
  | [] => Ok (-1)
  | size :: rest =>
      let accum := accum + size in
      target ← num_add (Int pixel) offset;
      if num_ltb target (Int accum) then Ok idx
      else hit_scan rest pixel offset accum (idx + 1)
  end.

(** The cell a click at [mouse_pos] selects in [main], when it selects one:
    the two scans and the test that guards [toggle_fullscreen]. *)
Definition click_cell (mouse_pos : Z * Z) (self : ImageGrid) : result (option (Z * Z)) :=
  col_index ← hit_scan (col_widths self) mouse_pos.1 (scroll_offset self).1 0 0;
  row_index ← hit_scan (row_heights self) mouse_pos.2 (scroll_offset self).2 INFO_HEIGHT 0;
  if (0 <=? row_index) && (0 <=? col_index)
     && match grid self !! row_index with
        | Some cells => col_index <? Z.of_nat (length cells)
        | None => false
        end
     && (1 <=? row_index) && (1 <=? col_index)
  then Ok (Some (row_index, col_index))
  else Ok None.

(** The sizes agree with the grid: every row number is below [max_rows],
    every row has between 1 and [max_cols] cells, there is one width per
    column and one height per row, and there is at least one of each. *)
Definition well_formed (self : ImageGrid) : Prop :=
  map_Forall (fun row cells =>
                0 <= row < max_rows self ∧ 1 <= Z.of_nat (length cells) <= max_cols self)
             (grid self) ∧
  Z.of_nat (length (col_widths self)) = max_cols self ∧
  Z.of_nat (length (row_heights self)) = max_rows self ∧
  1 <= max_rows self ∧ 1 <= max_cols self.

(** The exceptions a bad index or a missing key raises. *)
Definition lookup_error (e : exn) : bool :=
  match e with
  | IndexError | KeyError => true
  | _ => false
  end.

(** A computation that raises no [IndexError] and no [KeyError]. *)
Definition in_range {A : Type} (r : result A) : Prop :=
  match r with
  | Ok _ => True
  | Raise e => lookup_error e = false
  end.

(** ** The event loop of main *)

Definition SCROLL_SPEED : Z := 30.

(** [self.drag_threshold], set once in [__init__]. *)
Definition drag_threshold : Z := 5.

(** The keys [main] tells apart. *)
Inductive key : Type :=
| K_ESCAPE | K_LEFT | K_RIGHT | K_UP | K_DOWN
| K_PLUS | K_EQUALS | K_MINUS | K_h | K_0 | K_r | K_e
| K_OTHER.

(** The events [main] handles; [MOUSEBUTTONUP] carries, besides
    [event.pos], what [pygame.mouse.get_pos()] answers when it is handled. *)
Inductive event : Type :=
| QUIT
| MOUSEBUTTONDOWN (button : Z) (pos : Z * Z)
| MOUSEBUTTONUP (button : Z) (pos : Z * Z) (mouse_pos : Z * Z)
| MOUSEMOTION (pos : Z * Z)
| KEYDOWN (k : key)
| VIDEORESIZE (w h : Z)
| OTHER_EVENT.

(** The variables of [main]'s loop: the viewer [grid], the size of the
    global [screen], the drag state, the two button rectangles of the last
    frame, and the worker threads started so far. *)
Record Loop : Type := mkLoop {
  viewer : ImageGrid;
  screen : Z * Z;
  dragging : bool;
  last_mouse_pos : Z * Z;
  drag_start_pos : option (Z * Z);
  export_button_rect : option (Z * Z * Z * Z);
  html_button_rect : option (Z * Z * Z * Z);
  started : list thread
}.

Definition set_viewer (self : ImageGrid) (l : Loop) : Loop :=
  mkLoop self (screen l) (dragging l) (last_mouse_pos l) (drag_start_pos l)
    (export_button_rect l) (html_button_rect l) (started l).

(** [rect and rect.collidepoint(pos)]: a rectangle is truthy when its width
    and height are not zero. *)
Definition hits (rect : option (Z * Z * Z * Z)) (pos : Z * Z) : bool :=
  match rect with
  | Some (x, y, w, h) =>
      negb (w =? 0) && negb (h =? 0)
      && (x <=? pos.1) && (pos.1 <? x + w) && (y <=? pos.2) && (pos.2 <? y + h)
  | None => false
  end.

(** What a call of [start_export_grid] or [start_export_html] leaves in the
    loop: the object, and the thread if one was started. *)
Definition after_start (r : option string * ImageGrid * option thread) (l : Loop) : Loop :=
  let '(_, self, t) := r in
  mkLoop self (screen l) (dragging l) (last_mouse_pos l) (drag_start_pos l)
    (export_button_rect l) (html_button_rect l)
    (match t with Some t => started l ++ [t] | None => started l end)%list.

Section EventLoop.

Variable fs : FileSystem.
Variable image_dims : string -> option (Z * Z).
Variable image_load : string -> bool.

(** The module global [DEFAULT_CELL_SIZE] and the two folders of [main]. *)
Variable DEFAULT_CELL_SIZE : Z.
Variable base_folder_arg : string.
Variable subfolders_dir_arg : string.

(** The body of [for event in pygame.event.get()]; [now] is the clock
    reading a started export names its file after.  [None] is
    [sys.exit()]. *)
Definition handle_event (now : string) (ev : event) (l : Loop) : result (option Loop) :=
  let grid := viewer l in
  match ev with
  | QUIT => Ok None
  | MOUSEBUTTONDOWN button pos =>
      if button =? 1 then
        if truthy (fullscreen_image grid) then
          (* toggle_fullscreen(grid.fullscreen_row, grid.fullscreen_col): the
             two comparisons hold, so the four fields are cleared *)
          Ok (Some (set_viewer (set_fullscreen None None None None grid) l))
        else if hits (export_button_rect l) pos then
          Ok (Some (after_start (start_export_grid None now grid) l))
        else if hits (html_button_rect l) pos then
          Ok (Some (after_start (start_export_html "html_export" grid) l))
        else
          Ok (Some (mkLoop grid (screen l) true pos (Some pos)
                      (export_button_rect l) (html_button_rect l) (started l)))
      else if button =? 4 then
        self ← zoom DEFAULT_CELL_SIZE 1 (Some pos) (screen l) grid;
        Ok (Some (set_viewer self l))
      else if button =? 5 then
        self ← zoom DEFAULT_CELL_SIZE (-1) (Some pos) (screen l) grid;
        Ok (Some (set_viewer self l))
      else Ok (Some l)
  | MOUSEBUTTONUP button pos mouse_pos =>
      if (button =? 1) && dragging l then
        self ←
          match drag_start_pos l with
          | Some start =>
              if (Z.abs (pos.1 - start.1) <? drag_threshold)
                 && (Z.abs (pos.2 - start.2) <? drag_threshold)
              then
                cell ← click_cell mouse_pos grid;
                match cell with
                | Some (row_index, col_index) =>
                    toggle_fullscreen image_load row_index col_index grid
                | None => Ok grid
                end
              else Ok grid
          | None => Ok grid
          end;
        Ok (Some (mkLoop self (screen l) false (last_mouse_pos l) None
                    (export_button_rect l) (html_button_rect l) (started l)))
      else Ok (Some l)
  | MOUSEMOTION pos =>
      if dragging l then
        let dx := (last_mouse_pos l).1 - pos.1 in
        let dy := (last_mouse_pos l).2 - pos.2 in
        self ← scroll dx dy (screen l) grid;
        Ok (Some (mkLoop self (screen l) (dragging l) pos
                    (drag_start_pos l) (export_button_rect l) (html_button_rect l)
                    (started l)))
      else Ok (Some l)
  | KEYDOWN k =>
      if truthy (fullscreen_image grid) then
        match k with
        | K_ESCAPE => Ok (Some (set_viewer (set_fullscreen None None None None grid) l))
        | K_LEFT =>
            self ← navigate_fullscreen image_load "left" grid; Ok (Some (set_viewer self l))
        | K_RIGHT =>
            self ← navigate_fullscreen image_load "right" grid; Ok (Some (set_viewer self l))
        | K_UP =>
            self ← navigate_fullscreen image_load "up" grid; Ok (Some (set_viewer self l))
        | K_DOWN =>
            self ← navigate_fullscreen image_load "down" grid; Ok (Some (set_viewer self l))
        | _ => Ok (Some l)
        end
      else
        match k with
        | K_UP =>
            self ← scroll 0 SCROLL_SPEED (screen l) grid; Ok (Some (set_viewer self l))
        | K_DOWN =>
            self ← scroll 0 (- SCROLL_SPEED) (screen l) grid; Ok (Some (set_viewer self l))
        | K_LEFT =>
            self ← scroll SCROLL_SPEED 0 (screen l) grid; Ok (Some (set_viewer self l))
        | K_RIGHT =>
            self ← scroll (- SCROLL_SPEED) 0 (screen l) grid; Ok (Some (set_viewer self l))
        | K_PLUS | K_EQUALS =>
            self ← zoom DEFAULT_CELL_SIZE 1 None (screen l) grid;
            Ok (Some (set_viewer self l))
        | K_MINUS =>
            self ← zoom DEFAULT_CELL_SIZE (-1) None (screen l) grid;
            Ok (Some (set_viewer self l))
        | K_h => Ok (Some (after_start (start_export_html "html_export" grid) l))
        | K_0 =>
            self ← reset_viewport DEFAULT_CELL_SIZE (screen l) grid;
            Ok (Some (set_viewer (enforce_scroll_bounds (screen l) self) l))
        | K_ESCAPE => Ok None
        | K_r =>
            self ← init fs image_dims DEFAULT_CELL_SIZE (screen l)
                     base_folder_arg subfolders_dir_arg;
            Ok (Some (set_viewer self l))
        | K_e => Ok (Some (after_start (start_export_grid None now grid) l))
        | K_OTHER => Ok (Some l)
        end
  | VIDEORESIZE w h =>
      Ok (Some (mkLoop (enforce_scroll_bounds (w, h) grid) (w, h) (dragging l)
                  (last_mouse_pos l) (drag_start_pos l)
                  (export_button_rect l) (html_button_rect l) (started l)))
  | OTHER_EVENT => Ok (Some l)
  end.

End EventLoop.

(** The viewer is coherent: every row of the grid is below [max_rows], and
    either no cell is focused or the focused cell is a data cell of the
    grid. *)
Definition coherent (self : ImageGrid) : Prop :=
  map_Forall (fun row _ => 0 <= row < max_rows self) (grid self) ∧
  (browsing self ∨
   ∃ row col,
     fullscreen_row self = Some row ∧ fullscreen_col self = Some col ∧
     data_cell self row col).

(** The loop is coherent: its viewer is, and no drag is under way while an
    image is focused. *)
Definition loop_coherent (l : Loop) : Prop :=
  coherent (viewer l) ∧
  (truthy (fullscreen_image (viewer l)) = true → dragging l = false).

(** The events that act on a focused image: the left click and ESC, which
    leave it, and the arrow keys, which move it. *)
Definition focus_event (ev : event) : bool :=
  match ev with
  | MOUSEBUTTONDOWN button _ => button =? 1
  | KEYDOWN (K_ESCAPE | K_LEFT | K_RIGHT | K_UP | K_DOWN) => true
  | _ => false
  end.

(** ** Sample inputs *)

(** A base folder with two images and a stray text file; one variant folder
    per image. *)
Definition fs_demo : FileSystem := {|
  listdir := fun p =>
    if String.eqb p "base" then Some ["x.png"; "notes.txt"; "A.JPG"]
    else if String.eqb p "var/x" then Some ["a.png"; "B.png"; "readme.md"]
    else if String.eqb p "var/A" then Some ["a.png"; "c.webp"]
    else None;
  isdir := fun p =>
    String.eqb p "base" || String.eqb p "var" || String.eqb p "var/x" || String.eqb p "var/A";
  isfile := fun p =>
    String.eqb p "var/x/a.png" || String.eqb p "var/x/B.png" || String.eqb p "var/A/c.webp"
|}.

(** The grid built from [fs_demo]. *)
Definition grid_demo : gmap Z (list string) :=
  <[0 := [""; "A"; "x"]]>
    (<[1 := ["Base Images"; "base/A.JPG"; "base/x.png"]]>
       (<[2 := ["B.png"; "PLACEHOLDER:"; "var/x/B.png"]]>
          (<[3 := ["a.png"; "PLACEHOLDER:"; "var/x/a.png"]]>
             (<[4 := ["c.webp"; "var/A/c.webp"; "PLACEHOLDER:"]]> ∅)))).

(** The same tree as [fs_demo], its directories listed in another order. *)
Definition fs_demo_relisted : FileSystem := {|
  listdir := fun p =>
    if String.eqb p "base" then Some ["A.JPG"; "x.png"; "notes.txt"]
    else if String.eqb p "var/x" then Some ["readme.md"; "B.png"; "a.png"]
    else if String.eqb p "var/A" then Some ["c.webp"; "a.png"]
    else None;
  isdir := isdir fs_demo;
  isfile := isfile fs_demo
|}.

(** A base folder that holds no image. *)
Definition fs_no_images : FileSystem := {|
  listdir := fun p => if String.eqb p "base" then Some ["notes.txt"] else None;
  isdir := fun p => String.eqb p "base" || String.eqb p "variants";
  isfile := fun _ => false
|}.

(** A viewer on [grid_demo] with three decoded images in its cache. *)
Definition viewer_demo : ImageGrid := {|
  export_queue := [];
  export_in_progress := false;
  current_progress := Int 0;
  current_message := "";
  subfolders_dir := "var";
  base_folder := "base";
  grid := grid_demo;
  image_cache :=
    <["base/A.JPG" := ImageSurface "base/A.JPG"]>
      (<["var/x/a.png" := ImageSurface "var/x/a.png"]>
         (<["var/x/B.png" := ImageSurface "var/x/B.png"]> ∅));
  cell_size := 300;
  zoom_level := 1%float;
  scroll_offset := (Int 0, Int 0);
  fullscreen_image := None;
  fullscreen_original := None;
  max_rows := 5;
  max_cols := 3;
  col_widths := [200; 300; 300];
  row_heights := [200; 300; 300; 300; 300];
  base_resolution := "Unknown";
  fullscreen_row := None;
  fullscreen_col := None
|}.

(** The same viewer focused on the cell in row 2, column 2. *)
Definition viewer_focused : ImageGrid :=
  set_fullscreen (Some "var/x/B.png") (Some (ImageSurface "var/x/B.png"))
    (Some 2) (Some 2) viewer_demo.

(** A fixed-pitch font: 10 pixels a character, lines 10 pixels high. *)
Definition mono : Font := {|
  get_height := 10;
  font_size := fun s => 10 * Z.of_nat (String.length s)
|}.

(** A box 60 pixels wide and 20 high: room for 50 pixels and one line. *)
Definition narrow_box : Rect := {|
  rect_left := 0; rect_top := 0; rect_width := 60; rect_height := 20
|}.

(** A PIL font: 8 pixels a character, boxes 11 pixels high. *)
Definition arial_demo : PILFont := {|
  getbbox := fun s => (0, 0, 8 * Z.of_nat (String.length s), 11)
|}.

(** [viewer_demo] after one wheel step of zoom at the pixel (100, 200). *)
Definition viewer_zoomed : ImageGrid :=
  Eval vm_compute in
    match zoom 300 1 (Some (100, 200)) (1024, 768) viewer_demo with
    | Ok self' => self'
    | Raise _ => viewer_demo
    end.

(** [viewer_zoomed] after [reset_viewport] on a 1920 by 1080 display. *)
Definition viewer_reset : ImageGrid :=
  Eval vm_compute in
    match reset_viewport 300 (1920, 1080) viewer_zoomed with
    | Ok self' => self'
    | Raise _ => viewer_demo
    end.

(** The sizes of the two base images of [fs_demo]. *)
Definition dims_demo (path : string) : option (Z * Z) :=
  if String.eqb path "base/x.png" then Some (300, 200)
  else if String.eqb path "base/A.JPG" then Some (640, 480)
  else None.

(** The viewer [ImageGrid("base", "var")] on [fs_demo], on a 1024 by 768
    display with [DEFAULT_CELL_SIZE] 640. *)
Definition viewer_initial : ImageGrid :=
  Eval vm_compute in
    match init fs_demo dims_demo 640 (1024, 768) "base" "var" with
    | Ok self => self
    | Raise _ => viewer_demo
    end.

(** The mosaic layout of [viewer_demo] with [arial_demo]. *)
Definition layout_demo : Layout :=
  Eval vm_compute in
    match export_layout arial_demo viewer_demo with
    | Ok l => l
    | Raise _ => {| column_0_width := 0; row_0_height := 0;
                    total_width := 0; total_height := 0 |}
    end.

(** [viewer_demo] after one frame on a 1024 by 768 window. *)
Definition viewer_drawn : ImageGrid :=
  Eval vm_compute in
    match draw 300 (fun _ => true) mono (fun _ => (300, 200)) (fun _ => 0) (1024, 768)
            viewer_demo with
    | Ok (_, self') => self'
    | Raise _ => viewer_demo
    end.

(** The loop with [viewer_demo] on a 1024 by 768 window, after a frame. *)
Definition loop_demo : Loop := {|
  viewer := viewer_demo;
  screen := (1024, 768);
  dragging := false;
  last_mouse_pos := (0, 0);
  drag_start_pos := None;
  export_button_rect := Some (914, 5, 110, 20);
  html_button_rect := Some (794, 5, 110, 20);
  started := []
|}.

(** The same loop with the viewer focused on the cell in row 2, column 2. *)
Definition loop_focused : Loop := set_viewer viewer_focused loop_demo.

(** * Properties *)

(** ** The grid builder *)

Lemma sorted_Permutation xs : sorted xs ≡ₚ xs.
Proof. apply merge_sort_Permutation. Qed.

Lemma sorted_length xs : length (sorted xs) = length xs.
Proof. by rewrite sorted_Permutation. Qed.

Lemma sorted_Sorted xs : Sorted String.le (sorted xs).
Proof. apply (Sorted_merge_sort _). Qed.

(** The order of the input does not matter to [sorted]. *)
Lemma sorted_proper xs ys : xs ≡ₚ ys → sorted xs = sorted ys.
Proof.
  intros Hp. apply (Sorted_unique String.le); [apply sorted_Sorted..|].
  by rewrite !sorted_Permutation.
Qed.

Lemma fill_rows_lookup_lt fs folders names :
  ∀ i g k, k < i → fill_rows fs folders i names g !! k = g !! k.
Proof.
  induction names as [|f names IH]; intros i g k Hk; simpl; [done|].
  rewrite IH by lia. apply lookup_insert_ne. lia.
Qed.

Lemma fill_rows_lookup_ge fs folders names :
  ∀ i g k, i <= k →
    fill_rows fs folders i names g !! k =
    match names !! Z.to_nat (k - i) with
    | Some f => Some (variant_row fs folders f)
    | None => g !! k
    end.
Proof.
  induction names as [|f names IH]; intros i g k Hk; simpl; [done|].
  destruct (decide (k = i)) as [->|Hne].
  - rewrite fill_rows_lookup_lt by lia. rewrite Z.sub_diag. simpl.
    by rewrite lookup_insert_eq.
  - rewrite IH by lia.
    replace (Z.to_nat (k - i)) with (S (Z.to_nat (k - (i + 1)))) by lia. simpl.
    destruct (names !! _); [done|]. apply lookup_insert_ne. lia.
Qed.

Lemma fill_rows_size fs folders names :
  ∀ i g, (∀ k, i <= k → g !! k = None) →
    size (fill_rows fs folders i names g) = (size g + length names)%nat.
Proof.
  induction names as [|f names IH]; intros i g Hfresh; simpl; [lia|].
  rewrite IH.
  - rewrite map_size_insert_None by (apply Hfresh; lia). lia.
  - intros k Hk. rewrite lookup_insert_ne by lia. apply Hfresh. lia.
Qed.

Lemma collect_filenames_spec fs folders :
  ∀ acc s, collect_filenames fs folders acc = Ok s →
    ∀ f, f ∈ s ↔ f ∈ acc ∨ folder_offers fs folders f.
Proof.
  unfold folder_offers.
  induction folders as [|[b fp] rest IH]; intros acc s Hs f; simpl in Hs.
  - inversion Hs; subst. split; [by left|]. intros [?|(?&?&?&Hin&_)]; [done|].
    by apply elem_of_nil in Hin.
  - destruct (isdir fs fp) eqn:Hdir.
    + unfold os_listdir in Hs. destruct (listdir fs fp) as [entries|] eqn:Hls; [|done].
      simpl in Hs. rewrite (IH _ _ Hs f), elem_of_union, elem_of_list_to_set,
        list_elem_of_filter.
      split.
      * intros [[[Hsup Hin]|Hacc]|(b'&fp'&es&Hin&?)]; [right|by left|right].
        -- exists b, fp, entries. split_and!; [by left|done..].
        -- exists b', fp', es. split; [by right|done].
      * intros [Hacc|(b'&fp'&es&Hin&Hd&Hl&Hf&Hsup)]; [by left; right|].
        apply elem_of_cons in Hin as [Heq|Hin].
        -- inversion Heq; subst. rewrite Hls in Hl. inversion Hl; subst.
           by left; left.
        -- right. by exists b', fp', es.
    + rewrite (IH _ _ Hs f). split.
      * intros [?|(b'&fp'&es&Hin&?)]; [by left|right].
        exists b', fp', es. split; [by right|done].
      * intros [?|(b'&fp'&es&Hin&Hd&?)]; [by left|right].
        apply elem_of_cons in Hin as [Heq|Hin].
        -- inversion Heq; subst. congruence.
        -- by exists b', fp', es.
Qed.

Lemma elem_of_folders_of sub imgs b fp :
  (b, fp) ∈ folders_of sub imgs ↔ b ∈ imgs ∧ fp = path_join sub (path_splitext b).1.
Proof.
  unfold folders_of. rewrite list_elem_of_In, in_map_iff. split.
  - intros (x & Heq & Hin). inversion Heq; subst. split; [|done].
    apply list_elem_of_In in Hin. by rewrite sorted_Permutation in Hin.
  - intros [Hin ->]. exists b. split; [done|].
    apply list_elem_of_In. by rewrite sorted_Permutation.
Qed.

Lemma length_folders_of sub imgs : length (folders_of sub imgs) = length imgs.
Proof. unfold folders_of. by rewrite length_map, sorted_length. Qed.

(** The folders offer exactly the variant filenames. *)
Lemma folder_offers_variant fs base sub entries f :
  listdir fs base = Some entries →
  folder_offers fs (folders_of sub (filter (fun f => has_supported_ext f = true) entries)) f
  ↔ variant_filename fs base sub f.
Proof.
  intros Hls. unfold folder_offers, variant_filename. split.
  - intros (b & fp & vs & Hin & Hd & Hl & Hf & Hsup).
    apply elem_of_folders_of in Hin as [Hin ->].
    apply list_elem_of_filter in Hin as [Hb Hin].
    by exists entries, b, vs.
  - intros (es & b & vs & Hes & Hin & Hb & Hd & Hl & Hf & Hsup).
    rewrite Hls in Hes. inversion Hes; subst.
    exists b, (path_join sub (path_splitext b).1), vs.
    rewrite elem_of_folders_of, list_elem_of_filter. by split_and!.
Qed.

(** What [build_grid] returns when the base folder has a supported image:
    the set of names it collected, and the grid laid out from it. *)
Lemma build_grid_inv fs base sub entries g :
  listdir fs base = Some entries →
  filter (fun f => has_supported_ext f = true) entries ≠ [] →
  build_grid fs base sub = Ok g →
  ∃ names : gset string,
    let folders := folders_of sub (filter (fun f => has_supported_ext f = true) entries) in
    (∀ f, f ∈ names ↔ variant_filename fs base sub f) ∧
    g = fill_rows fs folders 2 (sorted (elements names))
          (<[1 := "Base Images" :: map (fun '(b, _) => path_join base b) folders]>
             (<[0 := "" :: map (fun '(_, fp) => path_basename fp) folders]> ∅)).
Proof.
  intros Hls Hne Hg. unfold build_grid, os_listdir in Hg. rewrite Hls in Hg. simpl in Hg.
  destruct (filter _ entries) as [|b0 imgs] eqn:Himgs; [done|].
  destruct (collect_filenames fs _ ∅) as [names|] eqn:Hc; [|done]. simpl in Hg.
  exists names. split; [|by inversion Hg].
  intros f. rewrite (collect_filenames_spec _ _ _ _ Hc f), <- Himgs.
  rewrite (folder_offers_variant fs base sub entries f Hls).
  split; [intros [Hin|?]; [by apply elem_of_empty in Hin|done]|by right].
Qed.

(** C1. Every grid [build_grid] returns for a base folder with at least one
    supported image has 2 rows plus one row per distinct variant filename
    found across the variant folders, and every row, rows 0 and 1 included,
    has 1 cell plus one cell per base image. *)
Theorem build_grid_shape fs base sub entries g :
  listdir fs base = Some entries →
  filter (fun f => has_supported_ext f = true) entries ≠ [] →
  build_grid fs base sub = Ok g →
  ∃ names : gset string,
    (∀ f, f ∈ names ↔ variant_filename fs base sub f) ∧
    size g = (2 + size names)%nat ∧
    ∀ row cells, g !! row = Some cells →
      length cells = (1 + length (filter (fun f => has_supported_ext f = true) entries))%nat.
Proof.
  intros Hls Hne Hg.
  destruct (build_grid_inv _ _ _ _ _ Hls Hne Hg) as (names & Hnames & ->).
  exists names. split; [done|]. split.
  - rewrite fill_rows_size.
    + rewrite sorted_length. change (length (elements names)) with (size names).
      rewrite !map_size_insert_None, map_size_empty; [lia|done|].
      by rewrite lookup_insert_ne.
    + intros k Hk. rewrite !lookup_insert_ne by lia. done.
  - intros row cells Hrow.
    destruct (decide (2 <= row)) as [Hge|Hlt].
    + rewrite fill_rows_lookup_ge in Hrow by done.
      destruct (_ !! Z.to_nat (row - 2)) as [f|].
      * inversion Hrow; subst. unfold variant_row. simpl.
        by rewrite length_map, length_folders_of.
      * rewrite !lookup_insert_ne in Hrow by lia. done.
    + rewrite fill_rows_lookup_lt in Hrow by lia.
      destruct (decide (row = 1)) as [->|]; [|destruct (decide (row = 0)) as [->|]].
      * rewrite lookup_insert_eq in Hrow. inversion Hrow; subst. simpl.
        by rewrite length_map, length_folders_of.
      * rewrite lookup_insert_ne, lookup_insert_eq in Hrow by done.
        inversion Hrow; subst. simpl. by rewrite length_map, length_folders_of.
      * rewrite !lookup_insert_ne in Hrow by done. done.
Qed.

Lemma build_grid_demo : build_grid fs_demo "base" "var" = Ok grid_demo.
Proof. vm_compute. reflexivity. Qed.

Lemma build_grid_shape_witness :
  ∃ names : gset string,
    (∀ f, f ∈ names ↔ variant_filename fs_demo "base" "var" f) ∧
    size grid_demo = (2 + size names)%nat ∧
    ∀ row cells, grid_demo !! row = Some cells →
      length cells =
      (1 + length (filter (fun f => has_supported_ext f = true)
                     ["x.png"; "notes.txt"; "A.JPG"]))%nat.
Proof.
  apply (build_grid_shape fs_demo "base" "var" ["x.png"; "notes.txt"; "A.JPG"] grid_demo).
  - reflexivity.
  - vm_compute. discriminate.
  - vm_compute. reflexivity.
Defined.

(** In a sorted list without duplicates, an earlier entry is strictly below
    a later one. *)
Lemma sorted_lookup_strict (l : list string) :
  Sorted String.le l → NoDup l →
  ∀ i j a b, (i < j)%nat → l !! i = Some a → l !! j = Some b → strict String.le a b.
Proof.
  intros Hs%(Sorted_StronglySorted _). induction Hs as [|x l Hs IH Hall]; [done|].
  intros [Hx Hnd]%NoDup_cons [|i] [|j] a b Hij Ha Hb; simpl in *; try lia.
  - inversion Ha; subst.
    assert (b ∈ l) as Hin by (by eapply list_elem_of_lookup_2).
    rewrite Forall_forall in Hall. split; [by apply Hall|].
    intros Hba. assert (a = b) as -> by (apply (anti_symm String.le); auto).
    done.
  - eapply (IH Hnd i j); [lia|done..].
Qed.

Lemma sorted_elements_NoDup (names : gset string) : NoDup (sorted (elements names)).
Proof. rewrite sorted_Permutation. apply NoDup_elements. Qed.

Lemma collect_filenames_same_tree fs fs' folders :
  same_tree fs fs' →
  ∀ acc, collect_filenames fs folders acc = collect_filenames fs' folders acc.
Proof.
  intros (Hdir & _ & Hls). induction folders as [|[b fp] rest IH]; intros acc; simpl; [done|].
  rewrite <- Hdir. destruct (isdir fs fp); [|apply IH].
  unfold os_listdir. specialize (Hls fp).
  destruct (listdir fs fp) as [l|], (listdir fs' fp) as [l'|]; try done. simpl.
  rewrite IH. f_equal. f_equal. apply set_eq. intros f.
  by rewrite !elem_of_list_to_set, !list_elem_of_filter, Hls.
Qed.

Lemma fill_rows_same_tree fs fs' folders :
  same_tree fs fs' →
  ∀ names i g, fill_rows fs folders i names g = fill_rows fs' folders i names g.
Proof.
  intros (_ & Hfile & _). induction names as [|f names IH]; intros i g; simpl; [done|].
  rewrite IH. do 2 f_equal. unfold variant_row. f_equal.
  apply map_ext. intros [b fp]. by rewrite Hfile.
Qed.

(** The build does not depend on the order in which directories are listed. *)
Lemma build_grid_same_tree fs fs' base sub :
  same_tree fs fs' → build_grid fs base sub = build_grid fs' base sub.
Proof.
  intros Hsame. unfold build_grid, os_listdir.
  pose proof Hsame as (_ & _ & Hls). specialize (Hls base).
  destruct (listdir fs base) as [l|], (listdir fs' base) as [l'|]; try done. simpl.
  assert (filter (fun f => has_supported_ext f = true) l
          ≡ₚ filter (fun f => has_supported_ext f = true) l') as Hp by (by rewrite Hls).
  destruct (filter _ l) as [|b imgs] eqn:Hl, (filter _ l') as [|b' imgs'] eqn:Hl'.
  - done.
  - by apply Permutation_nil_cons in Hp.
  - symmetry in Hp. by apply Permutation_nil_cons in Hp.
  - unfold folders_of. rewrite (sorted_proper _ _ Hp).
    rewrite (collect_filenames_same_tree fs fs' _ Hsame).
    destruct (collect_filenames fs' _ ∅) as [names|]; [|done]. simpl.
    by rewrite (fill_rows_same_tree fs fs' _ Hsame).
Qed.

(** The labels of the variant rows are the entries of the sorted name list. *)
Lemma build_grid_row_label fs base sub entries g :
  listdir fs base = Some entries →
  filter (fun f => has_supported_ext f = true) entries ≠ [] →
  build_grid fs base sub = Ok g →
  ∃ names : gset string,
    (∀ f, f ∈ names ↔ variant_filename fs base sub f) ∧
    ∀ r, 2 <= r → row_label g r = sorted (elements names) !! Z.to_nat (r - 2).
Proof.
  intros Hls Hne Hg.
  destruct (build_grid_inv _ _ _ _ _ Hls Hne Hg) as (names & Hnames & ->).
  exists names. split; [done|]. intros r Hr. unfold row_label.
  rewrite fill_rows_lookup_ge by done.
  destruct (_ !! Z.to_nat (r - 2)); [done|].
  by rewrite !lookup_insert_ne by lia.
Qed.

(** C7, as the code has it.  The variant rows (rows 2 and up) carry exactly
    the variant filenames, in strictly increasing code-point order (the
    order of Python's [sorted], which is case-sensitive), and the grid is
    the same for every listing order of the same directory tree. *)
Theorem build_grid_rows_sorted fs fs' base sub g :
  build_grid fs base sub = Ok g →
  same_tree fs fs' →
  (∀ r1 r2 l1 l2, 2 <= r1 < r2 →
     row_label g r1 = Some l1 → row_label g r2 = Some l2 → strict String.le l1 l2) ∧
  (∀ f, variant_filename fs base sub f ↔ ∃ r, 2 <= r ∧ row_label g r = Some f) ∧
  build_grid fs' base sub = Ok g.
Proof.
  intros Hg Hsame. split; [|split]; [..|by rewrite <- (build_grid_same_tree _ _ _ _ Hsame)].
  - pose proof Hg as Hg'. unfold build_grid, os_listdir in Hg'.
    destruct (listdir fs base) as [entries|] eqn:Hls; [|done]. simpl in Hg'.
    destruct (decide (filter (fun f => has_supported_ext f = true) entries = [])) as [He|Hne].
    { rewrite He in Hg'. inversion Hg'; subst. intros r1 r2 l1 l2 _ Hl. done. }
    clear Hg'. destruct (build_grid_row_label _ _ _ _ _ Hls Hne Hg) as (names & _ & Hlab).
    intros r1 r2 l1 l2 Hr H1 H2. rewrite Hlab in H1, H2 by lia.
    eapply (sorted_lookup_strict _ (sorted_Sorted _) (sorted_elements_NoDup names));
      [|done..]. lia.
  - pose proof Hg as Hg'. unfold build_grid, os_listdir in Hg'.
    destruct (listdir fs base) as [entries|] eqn:Hls; [|done]. simpl in Hg'.
    destruct (decide (filter (fun f => has_supported_ext f = true) entries = [])) as [He|Hne].
    { rewrite He in Hg'. inversion Hg'; subst. intros f. split.
      - intros (es & b & vs & Hes & Hin & Hb & _). rewrite Hls in Hes.
        inversion Hes; subst.
        assert (b ∈ filter (fun f => has_supported_ext f = true) es) as Hbin
          by (by apply list_elem_of_filter).
        rewrite He in Hbin. by apply elem_of_nil in Hbin.
      - by intros (r & _ & Hr). }
    clear Hg'.
    destruct (build_grid_row_label _ _ _ _ _ Hls Hne Hg) as (names & Hnames & Hlab).
    intros f. rewrite <- Hnames, <- elem_of_elements, <- (sorted_Permutation (elements names)).
    rewrite list_elem_of_lookup. split.
    + intros (i & Hi). exists (Z.of_nat i + 2). split; [lia|].
      rewrite Hlab by lia. by replace (Z.to_nat (Z.of_nat i + 2 - 2)) with i by lia.
    + intros (r & Hr & Hf). rewrite Hlab in Hf by done. eauto.
Qed.

Lemma same_tree_demo : same_tree fs_demo fs_demo_relisted.
Proof.
  split; [done|]. split; [done|]. intros p. simpl.
  destruct (String.eqb p "base").
  { symmetry. apply (Permutation_cons_append ["x.png"; "notes.txt"] "A.JPG"). }
  destruct (String.eqb p "var/x").
  { apply (Permutation_rev ["a.png"; "B.png"; "readme.md"]). }
  destruct (String.eqb p "var/A"); [apply perm_swap|done].
Qed.

Lemma build_grid_rows_sorted_witness :
  (∀ r1 r2 l1 l2, 2 <= r1 < r2 →
     row_label grid_demo r1 = Some l1 → row_label grid_demo r2 = Some l2 →
     strict String.le l1 l2) ∧
  (∀ f, variant_filename fs_demo "base" "var" f
        ↔ ∃ r, 2 <= r ∧ row_label grid_demo r = Some f) ∧
  build_grid fs_demo_relisted "base" "var" = Ok grid_demo.
Proof.
  apply (build_grid_rows_sorted fs_demo fs_demo_relisted "base" "var" grid_demo).
  - vm_compute. reflexivity.
  - exact same_tree_demo.
Defined.

(** C7, as the specification words it, fails: the rows of [grid_demo] are
    "B.png" then "a.png", which is not case-insensitive order. *)
Lemma rows_not_case_insensitive :
  build_grid fs_demo "base" "var" = Ok grid_demo ∧ ¬ rows_case_insensitive grid_demo.
Proof.
  split; [vm_compute; reflexivity|].
  intros H. specialize (H 2 3 "B.png" "a.png").
  assert (ci_le "B.png" "a.png") as Hle by (apply H; [lia|reflexivity..]).
  vm_compute in Hle. exact Hle.
Qed.

Lemma no_supported_entries entries :
  filter (fun f => has_supported_ext f = true) entries = [] →
  Forall (fun f => has_supported_ext f = false) entries.
Proof.
  induction entries as [|f entries IH]; intros Hf; [done|].
  rewrite filter_cons in Hf. destruct (decide (has_supported_ext f = true)); [done|].
  constructor; [by destruct (has_supported_ext f)|auto].
Qed.

Lemma max_resolution_no_images fs image_dims folder entries :
  listdir fs folder = Some entries →
  Forall (fun f => has_supported_ext f = false) entries →
  get_max_image_resolution fs image_dims folder = Ok 10.
Proof.
  intros Hls Hno. unfold get_max_image_resolution, os_listdir. rewrite Hls. simpl.
  assert (∀ acc, fold_left
            (fun max_res filename =>
               if has_supported_ext filename then
                 match image_dims (path_join folder filename) with
                 | Some (width, height) => Z.max (Z.max max_res width) height
                 | None => max_res
                 end
               else max_res) entries acc = acc) as ->; [|done].
  clear Hls. induction Hno as [|f entries Hf Hrest IH]; intros acc; simpl; [done|].
  rewrite Hf. apply IH.
Qed.

Lemma base_resolution_no_images fs image_dims folder entries :
  listdir fs folder = Some entries →
  Forall (fun f => has_supported_ext f = false) entries →
  get_base_resolution fs image_dims folder = Ok "Unknown".
Proof.
  intros Hls Hno. unfold get_base_resolution, os_listdir. rewrite Hls. simpl. f_equal.
  clear Hls. induction Hno as [|f entries Hf Hrest IH]; simpl; [done|]. rewrite Hf. apply IH.
Qed.

(** C8, as the code has it.  When the base folder holds no file with a
    supported image extension, [build_grid] returns the empty grid rather
    than failing; the constructor completes with no rows and no columns,
    and [main] reaches its loop. *)
Theorem build_grid_empty_base fs image_dims base sub entries :
  listdir fs base = Some entries →
  filter (fun f => has_supported_ext f = true) entries = [] →
  build_grid fs base sub = Ok ∅ ∧
  (base ≠ "" → isdir fs base = true → sub ≠ "" → isdir fs sub = true →
   ∃ self, main_startup fs image_dims base sub = Ok (EnteredLoop 10 self) ∧
           grid self = ∅ ∧ max_rows self = 0 ∧ max_cols self = 0).
Proof.
  intros Hls He.
  assert (build_grid fs base sub = Ok ∅) as Hg.
  { unfold build_grid, os_listdir. rewrite Hls. simpl. by rewrite He. }
  split; [done|]. intros Hb Hbd Hs Hsd.
  pose proof (no_supported_entries _ He) as Hno.
  unfold main_startup. rewrite Hbd, Hsd.
  apply String.eqb_neq in Hb, Hs. rewrite Hb, Hs. simpl.
  rewrite (max_resolution_no_images _ _ _ _ Hls Hno). simpl.
  unfold init. rewrite Hg. simpl.
  rewrite (base_resolution_no_images _ _ _ _ Hls Hno).
  eexists. split; [vm_compute; reflexivity|]. done.
Qed.

Lemma build_grid_empty_base_witness :
  build_grid fs_no_images "base" "variants" = Ok ∅ ∧
  ∃ self, main_startup fs_no_images (fun _ => None) "base" "variants"
            = Ok (EnteredLoop 10 self) ∧
          grid self = ∅ ∧ max_rows self = 0 ∧ max_cols self = 0.
Proof.
  destruct (build_grid_empty_base fs_no_images (fun _ => None) "base" "variants"
              ["notes.txt"]) as [Hg Hmain].
  - reflexivity.
  - reflexivity.
  - split; [exact Hg|]. apply Hmain; [discriminate|reflexivity|discriminate|reflexivity].
Defined.

(** C8, as the specification words it, fails: on a base folder holding only
    "notes.txt" the build returns a grid (the empty one) and [main] goes on
    into its loop. *)
Lemma empty_base_does_not_abort :
  listdir fs_no_images "base" = Some ["notes.txt"] ∧
  filter (fun f => has_supported_ext f = true) ["notes.txt"] = [] ∧
  build_grid fs_no_images "base" "variants" = Ok ∅ ∧
  ∃ self, main_startup fs_no_images (fun _ => None) "base" "variants"
            = Ok (EnteredLoop 10 self).
Proof.
  split; [reflexivity|]. split; [reflexivity|]. split; [reflexivity|].
  eexists. vm_compute. reflexivity.
Qed.

(** ** The image cache *)

Lemma elem_of_py_range a b x : x ∈ py_range a b ↔ a <= x < b.
Proof. unfold py_range. rewrite elem_of_seqZ. lia. Qed.

Lemma add_row_paths_spec cells cols :
  ∀ acc s, add_row_paths cells cols acc = Ok s →
    ∀ p, p ∈ s ↔ p ∈ acc ∨ ∃ col, col ∈ cols ∧ py_index cells col = Ok p.
Proof.
  induction cols as [|c cols IH]; intros acc s Hs p; simpl in Hs.
  - inversion Hs; subst. split; [by left|]. intros [?|(col & Hin & _)]; [done|].
    by apply elem_of_nil in Hin.
  - destruct (py_index cells c) as [q|] eqn:Hq; [|done]. simpl in Hs.
    rewrite (IH _ _ Hs p), elem_of_union, elem_of_singleton. split.
    + intros [[->|?]|(col & Hin & Hp)]; [right|by left|right].
      * exists c. split; [by left|done].
      * exists col. split; [by right|done].
    + intros [?|(col & Hin & Hp)]; [by left; right|].
      apply elem_of_cons in Hin as [->|Hin].
      * left; left. congruence.
      * right. by exists col.
Qed.

Lemma add_visible_paths_spec g rows start_col end_col :
  ∀ acc s, add_visible_paths g rows start_col end_col acc = Ok s →
    ∀ p, p ∈ s ↔
         p ∈ acc ∨
         ∃ row col cells, row ∈ rows ∧ g !! row = Some cells ∧
           start_col <= col < Z.min (end_col + 1) (Z.of_nat (length cells)) ∧
           py_index cells col = Ok p.
Proof.
  induction rows as [|r rows IH]; intros acc s Hs p; simpl in Hs.
  - inversion Hs; subst. split; [by left|]. intros [?|(row & ? & ? & Hin & _)]; [done|].
    by apply elem_of_nil in Hin.
  - destruct (g !! r) as [cells|] eqn:Hr.
    + destruct (add_row_paths cells _ acc) as [v|] eqn:Hv; [|done]. simpl in Hs.
      rewrite (IH _ _ Hs p), (add_row_paths_spec _ _ _ _ Hv p). split.
      * intros [[?|(col & Hin & Hp)]|(row & col & cs & Hin & ?)]; [by left|right..].
        -- apply elem_of_py_range in Hin. exists r, col, cells.
           split; [by left|done].
        -- exists row, col, cs. split; [by right|done].
      * intros [?|(row & col & cs & Hin & Hrow & Hcol & Hp)]; [by left; left|].
        apply elem_of_cons in Hin as [->|Hin].
        -- left; right. rewrite Hr in Hrow. inversion Hrow; subst.
           exists col. by rewrite elem_of_py_range.
        -- right. by exists row, col, cs.
    + rewrite (IH _ _ Hs p). split.
      * intros [?|(row & col & cs & Hin & ?)]; [by left|right].
        exists row, col, cs. split; [by right|done].
      * intros [?|(row & col & cs & Hin & Hrow & ?)]; [by left|right].
        apply elem_of_cons in Hin as [->|Hin]; [congruence|].
        by exists row, col, cs.
Qed.

(** The set the eviction tests against holds paths of visible cells only. *)
Lemma visible_paths_of_spec g visible_cells s :
  visible_paths_of g visible_cells = Ok s → ∀ p, p ∈ s ↔ visible_cell g visible_cells p.
Proof.
  destruct visible_cells as [[[start_row end_row] start_col] end_col]. simpl.
  intros Hs p. rewrite (add_visible_paths_spec _ _ _ _ _ _ Hs p). split.
  - intros [Hin|(row & col & cells & Hin & ?)]; [by apply elem_of_empty in Hin|].
    apply elem_of_py_range in Hin. exists row, col, cells. split; [lia|done].
  - intros (row & col & cells & Hrow & ?). right. exists row, col, cells.
    rewrite elem_of_py_range. split; [lia|done].
Qed.

(** An entry that survives the deletion loop was in the cache, and if its key
    was visited it is visible or the fullscreen key. *)
Lemma evict_paths_spec visible fullscreen keys :
  ∀ cache k, is_Some (evict_paths visible fullscreen keys cache !! k) →
    is_Some (cache !! k) ∧ (k ∈ keys → k ∈ visible ∨ fullscreen = Some k).
Proof.
  unfold evict_paths.
  induction keys as [|x keys IH]; intros cache k Hk; simpl in Hk.
  - split; [done|]. intros Hin. by apply elem_of_nil in Hin.
  - apply IH in Hk as [Hsome Hkeys].
    destruct (decide ((x ∉ visible) ∧ (Some x ≠ fullscreen))) as [[Hnv Hnf]|Hkeep].
    + destruct (decide (k = x)) as [->|Hne].
      * rewrite lookup_delete_eq in Hsome. by destruct Hsome.
      * rewrite lookup_delete_ne in Hsome by done. split; [done|].
        intros [->|Hin]%elem_of_cons; [done|auto].
    + split; [done|]. intros [->|Hin]%elem_of_cons; [|auto].
      destruct (decide (x ∈ visible)) as [?|Hnv]; [by left|right].
      destruct (decide (fullscreen = Some x)) as [?|Hnf]; [done|].
      exfalso. apply Hkeep. split; [done|congruence].
Qed.

(** C4. After [unload_distant_images] has run, every key left in the image
    cache is the path of a cell inside the given visible range or is the
    current fullscreen image. *)
Theorem unload_distant_images_keeps visible_cells self self' :
  unload_distant_images visible_cells self = Ok self' →
  fullscreen_image self' = fullscreen_image self ∧
  ∀ k, k ∈ dom (image_cache self') →
    visible_cell (grid self) visible_cells k ∨ fullscreen_image self' = Some k.
Proof.
  unfold unload_distant_images. intros Hrun.
  destruct (visible_paths_of (grid self) visible_cells) as [visible|] eqn:Hv; [|done].
  simpl in Hrun. inversion Hrun; subst; clear Hrun. simpl. split; [done|].
  intros k [v Hk]%elem_of_dom.
  destruct (evict_paths_spec visible (fullscreen_image self)
              (map fst (map_to_list (image_cache self))) (image_cache self) k)
    as [[v0 Hv0] Hkeys]; [by exists v|].
  rewrite <- (visible_paths_of_spec _ _ _ Hv k). apply Hkeys.
  apply list_elem_of_In, in_map_iff. exists (k, v0). split; [done|].
  by apply list_elem_of_In, elem_of_map_to_list.
Qed.

Lemma py_index_in_range {A : Type} (l : list A) (i : Z) :
  0 <= i < Z.of_nat (length l) → ∃ x, py_index l i = Ok x.
Proof.
  intros Hi. unfold py_index.
  assert ((i <? 0) = false) as -> by lia.
  assert (((0 <=? i) && (i <? Z.of_nat (length l))) = true) as -> by lia.
  destruct (lookup_lt_is_Some_2 l (Z.to_nat i)) as [x ->]; [lia|]. by exists x.
Qed.

Lemma add_row_paths_total cells cols :
  Forall (fun c => 0 <= c < Z.of_nat (length cells)) cols →
  ∀ acc, ∃ s, add_row_paths cells cols acc = Ok s.
Proof.
  induction 1 as [|c cols Hc _ IH]; intros acc; simpl; [by eexists|].
  destruct (py_index_in_range cells c Hc) as [p ->]. simpl. apply IH.
Qed.

Lemma add_visible_paths_total g rows start_col end_col :
  0 <= start_col → ∀ acc, ∃ s, add_visible_paths g rows start_col end_col acc = Ok s.
Proof.
  intros Hc. induction rows as [|r rows IH]; intros acc; simpl; [by eexists|].
  destruct (g !! r) as [cells|]; [|apply IH].
  destruct (add_row_paths_total cells
              (py_range start_col (Z.min (end_col + 1) (Z.of_nat (length cells))))) with (acc := acc)
    as [v ->].
  - apply Forall_forall. intros c Hin%elem_of_py_range. lia.
  - simpl. apply IH.
Qed.

(** The eviction returns for every range whose first column is not negative,
    as the ranges of [get_visible_cells] are. *)
Lemma unload_distant_images_returns start_row end_row start_col end_col self :
  0 <= start_col →
  ∃ self', unload_distant_images (start_row, end_row, start_col, end_col) self = Ok self'.
Proof.
  intros Hc. unfold unload_distant_images, visible_paths_of.
  destruct (add_visible_paths_total (grid self) (py_range start_row (end_row + 1))
              start_col end_col Hc ∅) as [v ->].
  simpl. by eexists.
Qed.

Lemma unload_distant_images_keeps_witness :
  let self' :=
    set_image_cache
      (<["base/A.JPG" := ImageSurface "base/A.JPG"]>
         (<["var/x/B.png" := ImageSurface "var/x/B.png"]> ∅))
      viewer_focused in
  fullscreen_image self' = fullscreen_image viewer_focused ∧
  ∀ k, k ∈ dom (image_cache self') →
    visible_cell (grid viewer_focused) (0, 1, 0, 1) k ∨ fullscreen_image self' = Some k.
Proof.
  apply (unload_distant_images_keeps (0, 1, 0, 1) viewer_focused).
  vm_compute. reflexivity.
Defined.

(** ** Fullscreen navigation *)

Lemma toggle_fullscreen_other image_load self row col new_row new_col cells :
  fullscreen_row self = Some row → fullscreen_col self = Some col →
  (new_row, new_col) ≠ (row, col) →
  grid self !! new_row = Some cells → 0 <= new_col < Z.of_nat (length cells) →
  ∃ path original,
    toggle_fullscreen image_load new_row new_col self
    = Ok (set_fullscreen (Some path) (Some original) (Some new_row) (Some new_col) self).
Proof.
  intros Hr Hc Hne Hrow Hcol. unfold toggle_fullscreen.
  destruct (decide _) as [[H1 H2]|_]; [congruence|].
  unfold grid_row. rewrite Hrow. simpl.
  destruct (py_index_in_range cells new_col Hcol) as [path ->]. simpl. by eexists _, _.
Qed.

(** The guarded move of [navigate_fullscreen], towards a cell that is out of
    the header row and column: it lands on a data cell, and stays where it
    is unless the cell aimed at is one. *)
Lemma navigate_to_data_cell image_load self row col new_row new_col :
  focused_on self row col → data_cell self row col →
  1 <= new_row < max_rows self → 1 <= new_col →
  ∃ self' row' col',
    navigate_to image_load row col new_row new_col self = Ok self' ∧
    grid self' = grid self ∧ max_rows self' = max_rows self ∧
    fullscreen_row self' = Some row' ∧ fullscreen_col self' = Some col' ∧
    data_cell self' row' col' ∧
    (¬ data_cell self new_row new_col → self' = self) ∧
    (data_cell self new_row new_col → row' = new_row ∧ col' = new_col).
Proof.
  intros (Hfs & Hr & Hc) Hcell Hnr Hnc. unfold navigate_to.
  destruct ((new_row =? row) && (new_col =? col)) eqn:Hsame.
  { apply andb_true_iff in Hsame as [->%Z.eqb_eq ->%Z.eqb_eq].
    exists self, row, col. by split_and!. }
  assert ((new_row, new_col) ≠ (row, col)) as Hne.
  { intros Heq. inversion Heq; subst. by rewrite !Z.eqb_refl in Hsame. }
  destruct (grid self !! new_row) as [cells|] eqn:Hrow.
  - destruct (Z.of_nat (length cells) <=? new_col) eqn:Hlen.
    + exists self, row, col. split_and!; try done.
      intros (_ & cells' & Hrow' & Hcol'). rewrite Hrow in Hrow'.
      inversion Hrow'; subst. lia.
    + destruct (toggle_fullscreen_other image_load self row col new_row new_col cells)
        as (path & original & ->); [done..|lia|].
      eexists _, new_row, new_col. split; [done|]. simpl. split_and!; try done.
      * split; [done|]. exists cells. split; [done|lia].
      * intros Hnot. exfalso. apply Hnot. split; [done|]. exists cells. split; [done|lia].
  - exists self, row, col. split_and!; try done.
    intros (_ & cells' & Hrow' & _). congruence.
Qed.

(** C6. From a state focused on a data cell, [navigate_fullscreen] in any
    direction returns a state focused on a data cell ([row >= 1], [col >= 1],
    [row < rowCount], [col < rowLength(row)]); when the cell the direction
    aims at is not a data cell, the state is left as it was. *)
Theorem navigate_fullscreen_stays image_load direction self row col :
  focused_on self row col → data_cell self row col →
  ∃ self' row' col',
    navigate_fullscreen image_load direction self = Ok self' ∧
    grid self' = grid self ∧ max_rows self' = max_rows self ∧
    fullscreen_row self' = Some row' ∧ fullscreen_col self' = Some col' ∧
    data_cell self' row' col' ∧
    match navigation_target direction row col with
    | Some (target_row, target_col) =>
        (¬ data_cell self target_row target_col → self' = self) ∧
        (data_cell self target_row target_col → row' = target_row ∧ col' = target_col)
    | None => self' = self
    end.
Proof.
  intros Hfocus Hcell.
  pose proof Hfocus as (Hfs & Hr & Hc). pose proof Hcell as (Hrow & cells & Hcells & Hcol).
  unfold navigate_fullscreen, navigation_target. rewrite Hfs, Hr, Hc.
  destruct (String.eqb direction "left"); [|destruct (String.eqb direction "right");
    [|destruct (String.eqb direction "up"); [|destruct (String.eqb direction "down")]]].
  - destruct (navigate_to_data_cell image_load self row col row (Z.max 1 (col - 1)))
      as (self' & row' & col' & Hnav & Hg & Hm & Hr' & Hc' & Hcell' & Hstay & Hmove);
      [done..|lia|].
    exists self', row', col'. split_and!; try done.
    + intros Hout. destruct (decide (col = 1)) as [->|].
      * unfold navigate_to in Hnav. rewrite !Z.eqb_refl in Hnav. simpl in Hnav. congruence.
      * apply Hstay. by replace (Z.max 1 (col - 1)) with (col - 1) by lia.
    + intros Hin.
      assert (1 <= col - 1) by (destruct Hin as (_ & ? & _ & ?); lia).
      replace (col - 1) with (Z.max 1 (col - 1)) by lia. apply Hmove.
      by replace (Z.max 1 (col - 1)) with (col - 1) by lia.
  - unfold grid_row. rewrite Hcells. simpl.
    destruct (col + 1 <? Z.of_nat (length cells)) eqn:Hlt.
    + destruct (navigate_to_data_cell image_load self row col row (col + 1))
        as (self' & row' & col' & Hnav & Hg & Hm & Hr' & Hc' & Hcell' & Hstay & Hmove);
        [done..|lia|].
      exists self', row', col'. split_and!; try done; intros; by apply Hmove.
    + exists self, row, col. split_and!; try done;
        intros (_ & cells' & Hcells' & ?); rewrite Hcells in Hcells';
        inversion Hcells'; subst; lia.
  - destruct (navigate_to_data_cell image_load self row col (Z.max 1 (row - 1)) col)
      as (self' & row' & col' & Hnav & Hg & Hm & Hr' & Hc' & Hcell' & Hstay & Hmove);
      [done..|lia|lia|].
    exists self', row', col'. split_and!; try done.
    + intros Hout. destruct (decide (row = 1)) as [->|].
      * unfold navigate_to in Hnav. rewrite !Z.eqb_refl in Hnav. simpl in Hnav. congruence.
      * apply Hstay. by replace (Z.max 1 (row - 1)) with (row - 1) by lia.
    + intros Hin.
      assert (1 <= row - 1) by (destruct Hin as ([? _] & _); lia).
      replace (row - 1) with (Z.max 1 (row - 1)) by lia. apply Hmove.
      by replace (Z.max 1 (row - 1)) with (row - 1) by lia.
  - destruct (row + 1 <? max_rows self) eqn:Hlt.
    + destruct (navigate_to_data_cell image_load self row col (row + 1) col)
        as (self' & row' & col' & Hnav & Hg & Hm & Hr' & Hc' & Hcell' & Hstay & Hmove);
        [done..|lia|lia|].
      exists self', row', col'. split_and!; try done; intros; by apply Hmove.
    + exists self, row, col. split_and!; try done; intros ([_ ?] & _); lia.
  - exists self, row, col. by split_and!.
Qed.

Lemma navigate_fullscreen_stays_witness :
  ∃ self' row' col',
    navigate_fullscreen (fun _ => true) "down" viewer_focused = Ok self' ∧
    grid self' = grid viewer_focused ∧ max_rows self' = max_rows viewer_focused ∧
    fullscreen_row self' = Some row' ∧ fullscreen_col self' = Some col' ∧
    data_cell self' row' col' ∧
    match navigation_target "down" 2 2 with
    | Some (target_row, target_col) =>
        (¬ data_cell viewer_focused target_row target_col → self' = viewer_focused) ∧
        (data_cell viewer_focused target_row target_col →
         row' = target_row ∧ col' = target_col)
    | None => self' = viewer_focused
    end.
Proof.
  apply (navigate_fullscreen_stays (fun _ => true) "down" viewer_focused 2 2).
  - split; [reflexivity|]. split; reflexivity.
  - split; [simpl; lia|]. exists ["B.png"; "PLACEHOLDER:"; "var/x/B.png"].
    split; [reflexivity|simpl; lia].
Defined.

(** ** The viewport while an image is focused *)

(** C10. While a fullscreen image is focused, [zoom], [scroll] and
    [enforce_scroll_bounds] change nothing, whatever their arguments: the
    zoom level, the cell size and the scroll offset stay as they are. *)
Theorem fullscreen_freezes_viewport DEFAULT_CELL_SIZE direction mouse_pos dx dy
    screen_size self :
  truthy (fullscreen_image self) = true →
  zoom DEFAULT_CELL_SIZE direction mouse_pos screen_size self = Ok self ∧
  scroll dx dy screen_size self = Ok self ∧
  enforce_scroll_bounds screen_size self = self.
Proof.
  intros Hfs. unfold zoom, scroll, enforce_scroll_bounds. by rewrite Hfs.
Qed.

Lemma fullscreen_freezes_viewport_witness :
  zoom 300 1 (Some (100, 200)) (1024, 768) viewer_focused = Ok viewer_focused ∧
  scroll 30 (-30) (1024, 768) viewer_focused = Ok viewer_focused ∧
  enforce_scroll_bounds (1024, 768) viewer_focused = viewer_focused.
Proof.
  apply (fullscreen_freezes_viewport 300 1 (Some (100, 200)) 30 (-30) (1024, 768)
           viewer_focused).
  reflexivity.
Defined.

(** Out of fullscreen the same calls do move the viewport. *)
Example zoom_moves_viewport :
  ∃ self', zoom 300 1 (Some (100, 200)) (1024, 768) viewer_demo = Ok self' ∧
           cell_size self' = 315 ∧ self' ≠ viewer_demo.
Proof.
  eexists. split; [vm_compute; reflexivity|]. split; [reflexivity|]. discriminate.
Qed.

(** ** The export pipeline *)

(** [finally] runs whether the body returns or raises. *)
Lemma try_finally_clears {A : Type} (body : action A) self :
  export_in_progress (try_finally body clear_in_progress self).2 = false.
Proof. unfold try_finally. by destruct (body self). Qed.

Lemma _export_grid_returns filename now truetype run self :
  ∃ result self1,
    _export_grid filename now truetype run self = (Ok result, self1) ∧
    export_queue self1 = export_queue self ∧
    export_in_progress self1 = export_in_progress self.
Proof.
  unfold _export_grid.
  destruct truetype as [font|]; simpl; [|by eexists _, _].
  destruct (export_layout font self); simpl; [|by eexists _, _].
  destruct (run_io run), (run_progress run); simpl; by eexists _, _.
Qed.

Lemma _export_html_returns output_folder run self :
  ∃ result self1,
    _export_html output_folder run self = (Ok result, self1) ∧
    export_queue self1 = export_queue self ∧
    export_in_progress self1 = export_in_progress self.
Proof.
  unfold _export_html.
  destruct (run_io run), (run_progress run); simpl; by eexists _, _.
Qed.

(** The name [start_export_grid] settles on is never empty. *)
Lemma export_name_nonempty now : String.eqb ("grid_export_" ++ now ++ ".png") "" = false.
Proof. reflexivity. Qed.

Lemma _export_grid_result name now truetype run self :
  String.eqb name "" = false →
  ∃ self1,
    _export_grid name now truetype run self
    = (Ok (grid_job_result name truetype run self), self1) ∧
    export_queue self1 = export_queue self.
Proof.
  intros Hname. unfold _export_grid, grid_job_result. rewrite Hname.
  destruct truetype as [font|]; simpl; [|by eexists].
  destruct (export_layout font self); simpl; [|by eexists].
  destruct (run_io run), (run_progress run); simpl; by eexists.
Qed.

Lemma _export_html_result output_folder run self :
  ∃ self1,
    _export_html output_folder run self = (Ok (html_job_result output_folder run), self1) ∧
    export_queue self1 = export_queue self.
Proof.
  unfold _export_html, html_job_result.
  destruct (run_io run), (run_progress run); simpl; by eexists.
Qed.

(** Whatever happens inside the job, the worker posts one tuple, of its own
    kind and with the job's result, and leaves the flag cleared. *)
Lemma export_thread_grid name now truetype run self :
  String.eqb name "" = false →
  ∃ final,
    export_thread (GridThread name) now truetype run self = (Ok tt, final) ∧
    export_in_progress final = false ∧
    export_queue final
    = (export_queue self ++ [("grid", grid_job_result name truetype run self)])%list.
Proof.
  intros Hname. unfold export_thread, try_finally.
  destruct (_export_grid_result name now truetype run self Hname) as (self1 & -> & Hq).
  eexists. split; [done|]. simpl. by rewrite Hq.
Qed.

Lemma export_thread_html output_folder now truetype run self :
  ∃ final,
    export_thread (HtmlThread output_folder) now truetype run self = (Ok tt, final) ∧
    export_in_progress final = false ∧
    export_queue final
    = (export_queue self ++ [("html", html_job_result output_folder run)])%list.
Proof.
  unfold export_thread, try_finally.
  destruct (_export_html_result output_folder run self) as (self1 & -> & Hq).
  eexists. split; [done|]. simpl. by rewrite Hq.
Qed.

(** C5. Starting an export (PNG or HTML) while one is in progress returns
    no job and leaves the object as it is.  Otherwise [start_export_grid]
    starts the PNG worker on the file name it returns and
    [start_export_html] the HTML worker on its folder, each with the flag
    set and the queue untouched; and whenever such a worker runs, whatever
    the object has become by then and whether the job inside succeeds or
    raises, it ends with the in-progress flag cleared and exactly one tuple
    added to the queue: [("grid", result)] for the PNG worker and
    [("html", result)] for the HTML worker, [result] being the path written
    when the job came through and [None] when it raised. *)
Theorem export_single_flight filename now output_folder self :
  (export_in_progress self = true →
     start_export_grid filename now self = (None, self, None) ∧
     start_export_html output_folder self = (None, self, None)) ∧
  (export_in_progress self = false →
     (∃ name self1,
        start_export_grid filename now self = (Some name, self1, Some (GridThread name)) ∧
        export_in_progress self1 = true ∧
        export_queue self1 = export_queue self ∧
        ∀ truetype run later,
          ∃ final,
            export_thread (GridThread name) now truetype run later = (Ok tt, final) ∧
            export_in_progress final = false ∧
            export_queue final
            = (export_queue later
               ++ [("grid",
                    match truetype with
                    | Some font =>
                        match export_layout font later, run_io run with
                        | Ok _, Ok _ => Some name
                        | _, _ => None
                        end
                    | None => None
                    end)])%list) ∧
     (∃ self1,
        start_export_html output_folder self
        = (Some (path_join output_folder "index.html"), self1,
           Some (HtmlThread output_folder)) ∧
        export_in_progress self1 = true ∧
        export_queue self1 = export_queue self ∧
        ∀ truetype run later,
          ∃ final,
            export_thread (HtmlThread output_folder) now truetype run later
            = (Ok tt, final) ∧
            export_in_progress final = false ∧
            export_queue final
            = (export_queue later
               ++ [("html",
                    match run_io run with
                    | Ok _ => Some (path_join output_folder "index.html")
                    | Raise _ => None
                    end)])%list)).
Proof.
  split.
  - intros Hbusy. unfold start_export_grid, start_export_html. by rewrite Hbusy.
  - intros Hidle. unfold start_export_grid, start_export_html. rewrite Hidle. split.
    + eexists _, _. split; [done|]. split; [done|]. split; [done|].
      intros truetype run later. apply export_thread_grid.
      destruct filename as [f|]; [|apply export_name_nonempty].
      destruct (String.eqb f "") eqn:Hf; [apply export_name_nonempty|done].
    + eexists. split; [done|]. split; [done|]. split; [done|].
      intros truetype run later. apply export_thread_html.
Qed.

Example export_thread_success :
  (export_thread (GridThread "out.png") "20240101_000000" (Some arial_demo)
     {| run_io := Ok tt; run_progress := Some (Float 1) |}
     (set_export [] true (Int 0) "Exporting PNG..." viewer_demo)).2
  = set_export [("grid", Some "out.png")] false (Float 1) "Exporting PNG..." viewer_demo.
Proof. vm_compute. reflexivity. Qed.

Example export_thread_failure :
  (export_thread (GridThread "out.png") "20240101_000000" None
     {| run_io := Ok tt; run_progress := None |}
     (set_export [] true (Int 0) "Exporting PNG..." viewer_demo)).2
  = set_export [("grid", None)] false (Int 0) "Exporting PNG..." viewer_demo.
Proof. vm_compute. reflexivity. Qed.

Lemma column_0_width_fold font g rows :
  ∀ c0, 0 <= c0 →
    fold_left (column_0_width_step font g) rows c0
    = Z.max c0
        (Z.min
           (widest
              (omap (fun row =>
                       match g !! row with
                       | Some (cell :: _) =>
                           if (0 <? row) && negb (String.eqb cell "")
                           then Some (bbox_width (getbbox font cell) + 20)
                           else None
                       | _ => None
                       end) rows))
           MAX_COLUMN_0_WIDTH).
Proof.
  unfold MAX_COLUMN_0_WIDTH, widest.
  induction rows as [|row rows IH]; intros c0 Hc0; simpl; [lia|].
  unfold column_0_width_step at 2.
  destruct (g !! row) as [[|cell cells]|]; try by apply IH.
  destruct (0 <? row); simpl; [|by apply IH].
  destruct (String.eqb cell ""); simpl; [by apply IH|].
  unfold MAX_COLUMN_0_WIDTH. rewrite IH by lia.
  match goal with |- context [foldr Z.max 0 ?l] => set (W := foldr Z.max 0 l) end.
  match goal with |- context [foldr Z.max 0 ?l] => change (foldr Z.max 0 l) with W end.
  lia.
Qed.

Lemma column_0_width_bounds font g rows :
  ∀ c0, 128 <= c0 <= 256 →
    128 <= fold_left (column_0_width_step font g) rows c0 <= 256.
Proof.
  induction rows as [|row rows IH]; intros c0 Hc0; simpl; [done|].
  apply IH. unfold column_0_width_step, MAX_COLUMN_0_WIDTH.
  destruct (g !! row) as [[|cell cells]|]; try done.
  destruct (String.eqb _ ""); lia.
Qed.

Lemma row_0_height_loop_bounds font headers :
  ∀ r0, 128 <= r0 <= 256 →
    match row_0_height_loop font headers r0 with
    | Ok h => 128 <= h <= 256
    | Raise e => e = ZeroDivisionError ∧ bbox_height (getbbox font "A") = 0
    end.
Proof.
  induction headers as [|text headers IH]; intros r0 Hr0; simpl; [done|].
  destruct (String.eqb text ""); [by apply IH|].
  unfold floordiv. destruct (bbox_height (getbbox font "A") =? 0) eqn:Hz; simpl.
  - split; [done|lia].
  - apply IH. unfold MIN_ROW_0_HEIGHT, MAX_ROW_0_HEIGHT. lia.
Qed.

(** C9, as the code has it.  When the layout pass of the PNG export comes to
    its end, the width of column 0 lies in [128, 256] (the widest measured
    filename label, clamped) and the height of row 0 lies in [128, 256]; every other column and row has the current cell
    size.  The pass fails only on a font whose line height is 0. *)
Theorem export_layout_bounds font self :
  match export_layout font self with
  | Ok l =>
      128 <= column_0_width l <= 256 ∧
      column_0_width l = Z.max 128 (Z.min (widest (measured_labels font self)) 256) ∧
      128 <= row_0_height l <= 256 ∧
      (∀ col, col ≠ 0 → cell_width l self col = cell_size self) ∧
      (∀ row, row ≠ 0 → cell_height l self row = cell_size self)
  | Raise e => e = ZeroDivisionError ∧ bbox_height (getbbox font "A") = 0
  end.
Proof.
  unfold export_layout.
  assert (match export_row_0_height font self with
          | Ok h => 128 <= h <= 256
          | Raise e => e = ZeroDivisionError ∧ bbox_height (getbbox font "A") = 0
          end) as Hrow.
  { unfold export_row_0_height. destruct (grid self !! 0); [|done].
    by apply row_0_height_loop_bounds. }
  destruct (export_row_0_height font self) as [h|e]; simpl; [|done].
  split; [|split; [|split; [done|split]]].
  - by apply column_0_width_bounds.
  - unfold export_column_0_width, measured_labels.
    by rewrite column_0_width_fold.
  - intros col Hcol. unfold cell_width. by destruct (Z.eqb_spec col 0).
  - intros row Hrow0. unfold cell_height. by destruct (Z.eqb_spec row 0).
Qed.

(** C9, as the specification words it, fails: on [viewer_demo] the height of
    row 0 is 256 pixels, above 200. *)
Lemma export_row_0_height_above_200 :
  ∃ l, export_layout arial_demo viewer_demo = Ok l ∧
       row_0_height l = 256 ∧ ¬ (128 <= row_0_height l <= 200).
Proof.
  eexists. split; [vm_compute; reflexivity|]. split; [reflexivity|]. simpl. lia.
Qed.

(** Because [MIN_ROW_0_HEIGHT] is 256 and [MAX_ROW_0_HEIGHT] is 128, the
    clamp never moves the height of row 0 off its starting value. *)
Lemma export_row_0_height_constant font self :
  match export_row_0_height font self with
  | Ok h => h = 256
  | Raise e => e = ZeroDivisionError
  end.
Proof.
  unfold export_row_0_height. destruct (grid self !! 0) as [headers|]; [|done].
  unfold MIN_ROW_0_HEIGHT. induction headers as [|text headers IH]; simpl; [done|].
  destruct (String.eqb text ""); [done|].
  unfold floordiv. destruct (_ =? 0); simpl; [done|].
  unfold MIN_ROW_0_HEIGHT, MAX_ROW_0_HEIGHT.
  by replace (Z.max 256 (Z.min (256 + count_lines text * bbox_height (getbbox font "A")) 128))
    with 256 by lia.
Qed.

(** ** The text fitter *)

Lemma midpoint_between low high : low <= high → low <= (low + high) / 2 <= high.
Proof.
  intros Hle. split.
  - apply Z.div_le_lower_bound; lia.
  - apply Z.div_le_upper_bound; lia.
Qed.

(** The binary search has ended once its fuel exceeds the width of the
    interval: more fuel gives the same prefix. *)
Lemma prefix_search_fuel font max_width remaining_text :
  ∀ n fuel low high best,
    (Z.to_nat (high + 1 - low) <= n)%nat → (n < fuel)%nat →
    prefix_search font max_width remaining_text fuel low high best
    = prefix_search font max_width remaining_text (S n) low high best.
Proof.
  induction n as [|n IH]; intros [|fuel] low high best Hn Hf; try lia; simpl.
  - assert ((low <=? high) = false) as -> by lia. done.
  - destruct (low <=? high) eqn:Hle; [|done].
    apply Z.leb_le in Hle. pose proof (midpoint_between low high Hle).
    destruct (fits font max_width _); apply IH; lia.
Qed.

Lemma choose_line_fuel font max_width remaining_text fuel :
  (S (String.length remaining_text) < fuel)%nat →
  prefix_search font max_width remaining_text fuel 0
    (Z.of_nat (String.length remaining_text)) ""
  = prefix_search font max_width remaining_text (S (S (String.length remaining_text))) 0
      (Z.of_nat (String.length remaining_text)) "".
Proof. intros Hf. apply prefix_search_fuel; lia. Qed.

Lemma wrap_loop_length font max_width :
  ∀ room remaining_text lines,
    (length (wrap_loop font max_width room remaining_text lines).1
     <= length lines + room)%nat.
Proof.
  induction room as [|room IH]; intros remaining_text lines; simpl; [lia|].
  destruct (String.eqb remaining_text ""); simpl; [lia|].
  destruct (String.eqb (choose_line font max_width remaining_text) ""); simpl; [lia|].
  etrans; [apply IH|]. rewrite length_app. simpl. lia.
Qed.

Lemma mark_truncated_length font max_width max_lines lines remaining_text :
  length (mark_truncated font max_width max_lines lines remaining_text) = length lines.
Proof.
  unfold mark_truncated. destruct (_ && _); [|done].
  destruct (last lines) as [last_line|] eqn:Hlast; [|done].
  assert (lines ≠ []) as Hne by (by intros ->).
  destruct (exists_last Hne) as (l' & x & ->).
  destruct (_ <=? max_width); rewrite removelast_last, !length_app; simpl; lia.
Qed.

(** The first half of C2 holds: never more than [max(1, (height - 10) //
    line_height)] lines. *)
Lemma wrapped_lines_count text rect font lines :
  wrapped_lines text rect font = Ok lines →
  Z.of_nat (length lines) <= Z.max 1 ((rect_height rect - 10) / get_height font).
Proof.
  unfold wrapped_lines. destruct (_ || _).
  { intros Hl. inversion Hl; subst. simpl. lia. }
  unfold floordiv. destruct (get_height font =? 0); [done|]. simpl.
  pose proof (wrap_loop_length font (rect_width rect - 10)
                (Z.to_nat (Z.max 1 ((rect_height rect - 10) / get_height font)))
                (strip text) []) as Hlen.
  destruct (wrap_loop _ _ _ _ _) as [ls remaining_text]. simpl in Hlen.
  intros Hl. inversion Hl; subst. rewrite mark_truncated_length. lia.
Qed.

Lemma prefix_search_fits font max_width remaining_text :
  ∀ fuel low high best,
    best = "" ∨ fits font max_width best = true →
    prefix_search font max_width remaining_text fuel low high best = "" ∨
    fits font max_width (prefix_search font max_width remaining_text fuel low high best)
    = true.
Proof.
  induction fuel as [|fuel IH]; intros low high best Hbest; simpl; [done|].
  destruct (low <=? high); [|done].
  destruct (fits font max_width (slice_to remaining_text ((low + high) / 2))) eqn:Hfit;
    apply IH; auto.
Qed.

Lemma ellipsis_search_fits font max_width remaining_text i :
  ellipsis_search font max_width remaining_text i = "" ∨
  fits font max_width (ellipsis_search font max_width remaining_text i) = true.
Proof.
  induction i as [|i IH]; simpl; [by left|].
  destruct (fits font max_width (_ ++ ellipsis)) eqn:Hfit; [by right|done].
Qed.

Lemma choose_line_fits font max_width remaining_text :
  choose_line font max_width remaining_text = "" ∨
  fits font max_width (choose_line font max_width remaining_text) = true.
Proof.
  unfold choose_line.
  set (n := String.length remaining_text).
  set (found := prefix_search font max_width remaining_text (S (S n)) 0 (Z.of_nat n) "").
  assert (found = "" ∨ fits font max_width found = true) as Hfound
    by (apply prefix_search_fits; by left).
  set (best := if String.eqb found "" then _ else found).
  assert (best = "" ∨ fits font max_width best = true) as Hbest.
  { subst best. destruct (String.eqb found ""); [|done].
    destruct (ellipsis_search_fits font max_width remaining_text n) as [-> | Hfit].
    - simpl. destruct (fits font max_width ellipsis) eqn:He; [by right|by left].
    - destruct (String.eqb _ ""); [|by right].
      destruct (fits font max_width ellipsis) eqn:He; [by right|by left]. }
  destruct (String.eqb best ""); [by left|].
  destruct (_ && _); [|done]. destruct (0 <? _); [|done].
  destruct (fits font max_width (slice_to best _)) eqn:Hc; [by right|done].
Qed.

(** Every line the wrapping loop appends fits the box. *)
Lemma wrap_loop_fits font max_width :
  ∀ room remaining_text lines,
    Forall (fun line => fits font max_width line = true) lines →
    Forall (fun line => fits font max_width line = true)
      (wrap_loop font max_width room remaining_text lines).1.
Proof.
  induction room as [|room IH]; intros remaining_text lines Hlines; simpl; [done|].
  destruct (String.eqb remaining_text ""); [done|].
  destruct (choose_line_fits font max_width remaining_text) as [Hempty|Hfit].
  - by rewrite Hempty.
  - destruct (String.eqb (choose_line font max_width remaining_text) ""); [done|].
    apply IH. apply Forall_app. split; [done|]. by constructor.
Qed.

(** C2 fails on the code.  With the fixed-pitch font and a box that leaves
    50 pixels, "abcdefghijk" is cut to "abcde"; the shortening loop tests
    "ab..." (50 pixels) and stops with "abc" in hand, and the line drawn is
    "abc...", 60 pixels wide. *)
Theorem draw_wrapped_text_overflow :
  draw_wrapped_text "abcdefghijk" narrow_box mono = Ok [("abc...", (5, 0))] ∧
  font_size mono "abc..." = 60 ∧
  rect_width narrow_box - 10 = 50.
Proof. split; [vm_compute; reflexivity|]. split; reflexivity. Qed.

(** * Further properties *)

(** ** The grid, cell by cell *)

Lemma build_grid_cases fs base sub g :
  build_grid fs base sub = Ok g →
  ∃ entries, listdir fs base = Some entries ∧
    ((filter (fun f => has_supported_ext f = true) entries = [] ∧ g = ∅) ∨
     (filter (fun f => has_supported_ext f = true) entries ≠ [] ∧
      ∃ names : gset string,
        let folders :=
          folders_of sub (filter (fun f => has_supported_ext f = true) entries) in
        g = fill_rows fs folders 2 (sorted (elements names))
              (<[1 := "Base Images" :: map (fun '(b, _) => path_join base b) folders]>
                 (<[0 := "" :: map (fun '(_, fp) => path_basename fp) folders]> ∅)))).
Proof.
  intros Hg. pose proof Hg as Hg'. unfold build_grid, os_listdir in Hg'.
  destruct (listdir fs base) as [entries|] eqn:Hls; [|done]. simpl in Hg'.
  exists entries. split; [done|].
  destruct (decide (filter (fun f => has_supported_ext f = true) entries = [])) as [He|Hne].
  - left. rewrite He in Hg'. split; [done|]. by inversion Hg'.
  - right. split; [done|].
    destruct (build_grid_inv _ _ _ _ _ Hls Hne Hg) as (names & _ & Hgrid). by exists names.
Qed.

Lemma build_grid_keys fs base sub g :
  build_grid fs base sub = Ok g →
  ∀ row, is_Some (g !! row) ↔ 0 <= row < Z.of_nat (size g).
Proof.
  intros Hg row.
  destruct (build_grid_cases _ _ _ _ Hg) as (entries & Hls & [[_ ->]|(_ & names & ->)]).
  { rewrite lookup_empty, map_size_empty. split; [by intros [? ?]|lia]. }
  rewrite fill_rows_size.
  2:{ intros k Hk. by rewrite !lookup_insert_ne by lia. }
  rewrite !map_size_insert_None, map_size_empty; [|done|by rewrite lookup_insert_ne].
  destruct (decide (2 <= row)) as [Hge|Hlt].
  - rewrite fill_rows_lookup_ge by done.
    destruct (sorted (elements names) !! Z.to_nat (row - 2)) as [f|] eqn:Hf.
    + apply lookup_lt_Some in Hf. split; [lia|by eexists].
    + apply lookup_ge_None in Hf. rewrite !lookup_insert_ne by lia.
      rewrite lookup_empty. split; [by intros [? ?]|lia].
  - rewrite fill_rows_lookup_lt by lia.
    destruct (decide (row = 1)) as [->|]; [|destruct (decide (row = 0)) as [->|]].
    + rewrite lookup_insert_eq. split; [lia|by eexists].
    + rewrite lookup_insert_ne, lookup_insert_eq by done. split; [lia|by eexists].
    + rewrite !lookup_insert_ne by done. rewrite lookup_empty.
      split; [by intros [? ?]|lia].
Qed.

Lemma build_grid_row_nonempty fs base sub g row cells :
  build_grid fs base sub = Ok g → g !! row = Some cells → cells ≠ [].
Proof.
  intros Hg Hrow.
  destruct (build_grid_cases _ _ _ _ Hg) as (entries & Hls & [[_ ->]|(_ & names & ->)]);
    [by rewrite lookup_empty in Hrow|].
  destruct (decide (2 <= row)) as [Hge|Hlt].
  - rewrite fill_rows_lookup_ge in Hrow by done.
    destruct (sorted (elements names) !! Z.to_nat (row - 2)) as [f|].
    + by inversion Hrow.
    + by rewrite !lookup_insert_ne, lookup_empty in Hrow by lia.
  - rewrite fill_rows_lookup_lt in Hrow by lia.
    destruct (decide (row = 1)) as [->|]; [|destruct (decide (row = 0)) as [->|]].
    + rewrite lookup_insert_eq in Hrow. by inversion Hrow.
    + rewrite lookup_insert_ne, lookup_insert_eq in Hrow by done. by inversion Hrow.
    + by rewrite !lookup_insert_ne, lookup_empty in Hrow by done.
Qed.

(** The keys of a built grid are the row numbers 0, 1, ..., with no gap:
    [row in grid] holds exactly for [0 <= row < len(grid)]; and every row
    has its column 0. *)
Theorem build_grid_rows_contiguous fs base sub g :
  build_grid fs base sub = Ok g →
  (∀ row, is_Some (g !! row) ↔ 0 <= row < Z.of_nat (size g)) ∧
  (∀ row cells, g !! row = Some cells → ∃ label rest, cells = label :: rest).
Proof.
  intros Hg. split; [exact (build_grid_keys _ _ _ _ Hg)|].
  intros row cells Hrow. pose proof (build_grid_row_nonempty _ _ _ _ _ _ Hg Hrow).
  destruct cells as [|label rest]; [done|]. by exists label, rest.
Qed.

Lemma build_grid_rows_contiguous_witness :
  (∀ row, is_Some (grid_demo !! row) ↔ 0 <= row < Z.of_nat (size grid_demo)) ∧
  (∀ row cells, grid_demo !! row = Some cells → ∃ label rest, cells = label :: rest).
Proof.
  apply (build_grid_rows_contiguous fs_demo "base" "var" grid_demo).
  vm_compute. reflexivity.
Defined.

(** In a variant row (row 2 and up) the cells after the filename follow the
    sorted base images: the cell of a base image is the path
    [subfolders_dir/stem/filename] when that file exists and the placeholder
    marker when it does not. *)
Theorem build_grid_variant_cells fs base sub entries g row filename cells :
  listdir fs base = Some entries →
  build_grid fs base sub = Ok g →
  2 <= row → g !! row = Some (filename :: cells) →
  cells =
    map (fun base_img =>
           let img_path :=
             path_join (path_join sub (path_splitext base_img).1) filename in
           if isfile fs img_path then img_path else PLACEHOLDER)
        (sorted (filter (fun f => has_supported_ext f = true) entries)) ∧
  Forall (fun cell => cell = PLACEHOLDER ∨ isfile fs cell = true) cells.
Proof.
  intros Hls Hg Hrow Hcells.
  destruct (build_grid_cases _ _ _ _ Hg) as (entries' & Hls' & Hcase).
  rewrite Hls in Hls'. inversion Hls'; subst entries'; clear Hls'.
  destruct Hcase as [[_ ->]|(_ & names & ->)]; [by rewrite lookup_empty in Hcells|].
  rewrite fill_rows_lookup_ge in Hcells by done.
  destruct (sorted (elements names) !! Z.to_nat (row - 2)) as [f|].
  2:{ by rewrite !lookup_insert_ne, lookup_empty in Hcells by lia. }
  unfold variant_row, folders_of in Hcells. inversion Hcells; subst; clear Hcells.
  rewrite map_map. split; [done|].
  apply Forall_forall. intros cell Hin%list_elem_of_In%in_map_iff.
  destruct Hin as (b & <- & _). simpl.
  destruct (isfile fs _) eqn:Hfile; [by right|by left].
Qed.

Lemma build_grid_variant_cells_witness :
  ["PLACEHOLDER:"; "var/x/B.png"] =
    map (fun base_img =>
           let img_path :=
             path_join (path_join "var" (path_splitext base_img).1) "B.png" in
           if isfile fs_demo img_path then img_path else PLACEHOLDER)
        (sorted (filter (fun f => has_supported_ext f = true)
                   ["x.png"; "notes.txt"; "A.JPG"])) ∧
  Forall (fun cell => cell = PLACEHOLDER ∨ isfile fs_demo cell = true)
    ["PLACEHOLDER:"; "var/x/B.png"].
Proof.
  apply (build_grid_variant_cells fs_demo "base" "var" ["x.png"; "notes.txt"; "A.JPG"]
           grid_demo 2 "B.png").
  - reflexivity.
  - vm_compute. reflexivity.
  - lia.
  - reflexivity.
Defined.

Lemma rfind_from_last_index c s :
  ∀ i acc,
    rfind_from c s i acc
    = match last_index c s with
      | Some k => i + Z.of_nat k
      | None => acc
      end.
Proof.
  induction s as [|a s IH]; intros i acc; simpl; [done|].
  rewrite IH. destruct (last_index c s); [lia|].
  destruct (Ascii.eqb a c); [lia|done].
Qed.

Lemma plain_name_last_index f : plain_name f ↔ last_index "/" f = None.
Proof.
  unfold plain_name, rfind. rewrite rfind_from_last_index.
  destruct (last_index "/" f); [|done]. split; [lia|done].
Qed.

Lemma last_index_app c a b :
  last_index c (a ++ b)
  = match last_index c b with
    | Some k => Some (String.length a + k)%nat
    | None => last_index c a
    end.
Proof.
  induction a as [|x a IH].
  - change ("" ++ b) with b. simpl. by destruct (last_index c b).
  - change (String x a ++ b) with (String x (a ++ b)). simpl. rewrite IH.
    by destruct (last_index c b).
Qed.

Lemma length_app_string a b :
  String.length (a ++ b) = (String.length a + String.length b)%nat.
Proof.
  induction a as [|x a IH]; [done|].
  change (String x a ++ b) with (String x (a ++ b)). simpl. by rewrite IH.
Qed.

Lemma substring_all s : substring 0 (String.length s) s = s.
Proof. induction s as [|x s IH]; simpl; [done|]. by rewrite IH. Qed.

Lemma substring_app_r a b :
  substring (String.length a) (String.length b) (a ++ b) = b.
Proof.
  induction a as [|x a IH]; [apply substring_all|].
  change (String x a ++ b) with (String x (a ++ b)). simpl. apply IH.
Qed.

Lemma slice_from_app a b : slice_from (a ++ b) (Z.of_nat (String.length a)) = b.
Proof.
  unfold slice_from. rewrite Nat2Z.id, length_app_string.
  replace (String.length a + String.length b - String.length a)%nat
    with (String.length b) by lia.
  apply substring_app_r.
Qed.

Lemma last_index_substring_0 c s :
  last_index c s = None → ∀ n, last_index c (substring 0 n s) = None.
Proof.
  induction s as [|x s IH]; intros Hs n; destruct n; simpl in *; try done.
  destruct (last_index c s); [done|]. destruct (Ascii.eqb x c); [done|].
  by rewrite IH.
Qed.

Lemma last_char_split a c :
  a ≠ "" → substring (String.length a - 1) 1 a = String c "" →
  ∃ a', a = a' ++ String c "".
Proof.
  induction a as [|x a IH]; [done|]. intros _.
  destruct a as [|y a].
  - simpl. intros Heq. inversion Heq; subst. by exists "".
  - change (String.length (String x (String y a)) - 1)%nat
      with (S (String.length a) - 0)%nat.
    rewrite Nat.sub_0_r.
    change (substring (S (String.length a)) 1 (String x (String y a)))
      with (substring (String.length a) 1 (String y a)).
    replace (String.length a) with (String.length (String y a) - 1)%nat at 1
      by (simpl; lia).
    intros Heq. destruct IH as [a' Ha']; [done|done|].
    exists (String x a'). by rewrite Ha'.
Qed.

(** A one-character suffix test finds the string's last character. *)
Lemma endswith_char a c :
  endswith a (String c "") = true → ∃ a', a = a' ++ String c "".
Proof.
  unfold endswith. intros [Hlen Heq]%andb_true_iff.
  apply String.eqb_eq in Heq. apply last_char_split; [|done].
  intros ->. done.
Qed.

(** [os.path.basename(os.path.join(a, b))] is [b] for a plain name [b]. *)
Lemma path_basename_join a b : plain_name b → path_basename (path_join a b) = b.
Proof.
  intros Hb%plain_name_last_index. unfold path_basename, path_join.
  assert (startswith b "/" = false) as ->.
  { unfold startswith. destruct b as [|x b]; [done|].
    change (String.prefix "/" (String x b))
      with (if ascii_dec "/" x then String.prefix "" b else false).
    destruct (ascii_dec "/" x) as [<-|_]; [|done].
    simpl in Hb. destruct (last_index "/" b); done. }
  unfold rfind. rewrite rfind_from_last_index.
  destruct (String.eqb_spec a "") as [->|Ha]; simpl.
  { change ("" ++ b) with b. rewrite Hb. unfold slice_from. simpl.
    rewrite Nat.sub_0_r. apply substring_all. }
  destruct (endswith a "/") eqn:Hend.
  - destruct (endswith_char a "/" Hend) as [a' ->].
    rewrite !last_index_app, Hb. simpl.
    replace (0 + Z.of_nat (String.length a' + 0) + 1)
      with (Z.of_nat (String.length (a' ++ "/"))) by (rewrite length_app_string; simpl; lia).
    apply slice_from_app.
  - rewrite last_index_app, last_index_app, Hb. simpl.
    replace (0 + Z.of_nat (String.length a + 0) + 1)
      with (Z.of_nat (String.length (a ++ "/"))) by (rewrite length_app_string; simpl; lia).
    replace (a ++ "/" ++ b) with ((a ++ "/") ++ b).
    + apply slice_from_app.
    + clear. induction a as [|x a IH]; [done|].
      change (String x a ++ "/") with (String x (a ++ "/")).
      change (String x (a ++ "/") ++ b) with (String x ((a ++ "/") ++ b)).
      change (String x a ++ "/" ++ b) with (String x (a ++ "/" ++ b)). by rewrite IH.
Qed.

Lemma plain_name_stem f : plain_name f → plain_name (path_splitext f).1.
Proof.
  intros Hf. unfold path_splitext. destruct (_ && _); [|done]. simpl.
  apply plain_name_last_index. unfold slice_to.
  by apply last_index_substring_0, plain_name_last_index.
Qed.

(** Row 0 and row 1 of a built grid: row 1 is "Base Images" followed by the
    paths of the base images in sorted order, and row 0 is the empty corner
    followed, column by column, by the stems of those images (their names
    without the extension), the names being plain as [os.listdir] gives
    them. *)
Theorem build_grid_header_rows fs base sub entries g :
  listdir fs base = Some entries →
  filter (fun f => has_supported_ext f = true) entries ≠ [] →
  Forall plain_name entries →
  build_grid fs base sub = Ok g →
  g !! 0 = Some ("" :: map (fun base_img => (path_splitext base_img).1)
                         (sorted (filter (fun f => has_supported_ext f = true) entries))) ∧
  g !! 1 = Some ("Base Images" :: map (path_join base)
                         (sorted (filter (fun f => has_supported_ext f = true) entries))).
Proof.
  intros Hls Hne Hplain Hg.
  destruct (build_grid_inv _ _ _ _ _ Hls Hne Hg) as (names & _ & ->).
  rewrite !fill_rows_lookup_lt by lia. unfold folders_of. split.
  - rewrite lookup_insert_ne, lookup_insert_eq by done. f_equal. f_equal.
    rewrite map_map. apply map_ext_in. intros b Hin. simpl.
    apply path_basename_join, plain_name_stem.
    rewrite Forall_forall in Hplain. apply Hplain.
    apply list_elem_of_In in Hin. rewrite sorted_Permutation in Hin.
    by apply list_elem_of_filter in Hin as [_ Hin].
  - rewrite lookup_insert_eq. f_equal. f_equal. by rewrite map_map.
Qed.

Lemma build_grid_header_rows_witness :
  grid_demo !! 0
  = Some ("" :: map (fun base_img => (path_splitext base_img).1)
                  (sorted (filter (fun f => has_supported_ext f = true)
                             ["x.png"; "notes.txt"; "A.JPG"]))) ∧
  grid_demo !! 1
  = Some ("Base Images" :: map (path_join "base")
                  (sorted (filter (fun f => has_supported_ext f = true)
                             ["x.png"; "notes.txt"; "A.JPG"]))).
Proof.
  apply (build_grid_header_rows fs_demo "base" "var" ["x.png"; "notes.txt"; "A.JPG"]
           grid_demo).
  - reflexivity.
  - vm_compute. discriminate.
  - repeat constructor.
  - vm_compute. reflexivity.
Defined.

(** ** The image cache, filled and emptied *)

(** A surface, once loaded, is memoized: loading the same path again gives
    the same surface and leaves the object as it is, whatever the decoder
    would answer the second time (a failed decode is remembered as well). *)
Theorem load_image_memoized image_load image_load' path self :
  load_image image_load' path (load_image image_load path self).2
  = load_image image_load path self.
Proof.
  unfold load_image. destruct (startswith path PLACEHOLDER) eqn:Hp; simpl; [done|].
  destruct (image_cache self !! path) as [img|] eqn:Hc; simpl.
  - by rewrite Hc.
  - by rewrite lookup_insert_eq.
Qed.

(** [load_image] adds at most the key it was asked for, never a placeholder
    marker, and keeps every entry the cache had. *)
Theorem load_image_cache image_load path self :
  let cache' := image_cache (load_image image_load path self).2 in
  (∀ k v, image_cache self !! k = Some v → cache' !! k = Some v) ∧
  (∀ k, is_Some (cache' !! k) →
        is_Some (image_cache self !! k) ∨
        (k = path ∧ startswith path PLACEHOLDER = false)) ∧
  (startswith path PLACEHOLDER = false →
   cache' !! path = Some (load_image image_load path self).1).
Proof.
  unfold load_image. destruct (startswith path PLACEHOLDER) eqn:Hp; simpl.
  { split; [done|]. split; [by left|done]. }
  destruct (image_cache self !! path) as [img|] eqn:Hc; simpl.
  { split; [done|]. split; [by left|done]. }
  split; [|split].
  - intros k v Hk. rewrite lookup_insert_ne; [done|]. intros <-. congruence.
  - intros k Hk. destruct (decide (k = path)) as [->|Hne]; [by right|].
    rewrite lookup_insert_ne in Hk by done. by left.
  - intros _. by rewrite lookup_insert_eq.
Qed.

Lemma evict_paths_subseteq visible fullscreen keys :
  ∀ cache k v, evict_paths visible fullscreen keys cache !! k = Some v →
    cache !! k = Some v.
Proof.
  unfold evict_paths. induction keys as [|x keys IH]; intros cache k v Hk; simpl in Hk;
    [done|].
  apply IH in Hk. destruct (decide _) as [_|_]; [|done].
  destruct (decide (k = x)) as [->|Hne].
  - by rewrite lookup_delete_eq in Hk.
  - by rewrite lookup_delete_ne in Hk.
Qed.

Lemma evict_paths_keeps visible fullscreen keys :
  ∀ cache k, k ∈ visible ∨ fullscreen = Some k →
    evict_paths visible fullscreen keys cache !! k = cache !! k.
Proof.
  unfold evict_paths. induction keys as [|x keys IH]; intros cache k Hk; simpl; [done|].
  rewrite IH by done. destruct (decide _) as [[Hnv Hnf]|_]; [|done].
  apply lookup_delete_ne. intros ->. destruct Hk as [?|Hfs]; [done|]. congruence.
Qed.

(** The eviction only deletes: every entry it leaves was there before with
    the same surface, every entry for a visible cell or for the fullscreen
    image is still there, and nothing but the cache is touched. *)
Theorem unload_distant_images_retains visible_cells self self' :
  unload_distant_images visible_cells self = Ok self' →
  self' = set_image_cache (image_cache self') self ∧
  (∀ k v, image_cache self' !! k = Some v → image_cache self !! k = Some v) ∧
  (∀ k, visible_cell (grid self) visible_cells k ∨ fullscreen_image self = Some k →
        image_cache self' !! k = image_cache self !! k).
Proof.
  unfold unload_distant_images. intros Hrun.
  destruct (visible_paths_of (grid self) visible_cells) as [visible|] eqn:Hv; [|done].
  simpl in Hrun. inversion Hrun; subst; clear Hrun. simpl. split; [done|]. split.
  - apply evict_paths_subseteq.
  - intros k Hk. apply evict_paths_keeps.
    by rewrite (visible_paths_of_spec _ _ _ Hv k).
Qed.

Lemma unload_distant_images_retains_witness :
  let self' :=
    set_image_cache
      (<["base/A.JPG" := ImageSurface "base/A.JPG"]>
         (<["var/x/B.png" := ImageSurface "var/x/B.png"]> ∅))
      viewer_focused in
  self' = set_image_cache (image_cache self') viewer_focused ∧
  (∀ k v, image_cache self' !! k = Some v → image_cache viewer_focused !! k = Some v) ∧
  (∀ k, visible_cell (grid viewer_focused) (0, 1, 0, 1) k ∨
        fullscreen_image viewer_focused = Some k →
        image_cache self' !! k = image_cache viewer_focused !! k).
Proof.
  apply (unload_distant_images_retains (0, 1, 0, 1) viewer_focused).
  vm_compute. reflexivity.
Defined.

(** The range [get_visible_cells] computes starts at row and column 0 or
    later and ends at [max_rows] and [max_cols] or earlier, and the eviction
    run on it as [draw] does returns: it raises no [IndexError]. *)
Theorem get_visible_cells_in_range screen_width screen_height self
    start_row end_row start_col end_col :
  get_visible_cells screen_width screen_height self
  = Ok (start_row, end_row, start_col, end_col) →
  0 <= start_row ∧ end_row <= max_rows self ∧
  0 <= start_col ∧ end_col <= max_cols self ∧
  ∃ self', unload_distant_images (start_row, end_row, start_col, end_col) self = Ok self'.
Proof.
  unfold get_visible_cells. intros Hv.
  repeat match type of Hv with
         | (mbind _ ?m) = _ => destruct m; simpl in Hv; [|done]
         | (_ ← ?m; _) = _ => destruct m; simpl in Hv; [|done]
         end.
  inversion Hv; subst; clear Hv. unfold BUFFER_ROWS, BUFFER_COLS.
  split; [lia|]. split; [lia|]. split; [lia|]. split; [lia|].
  apply unload_distant_images_returns. lia.
Qed.

Lemma get_visible_cells_in_range_witness :
  0 <= 0 ∧ 4 <= max_rows viewer_demo ∧
  0 <= 0 ∧ 3 <= max_cols viewer_demo ∧
  ∃ self', unload_distant_images (0, 4, 0, 3) viewer_demo = Ok self'.
Proof.
  apply (get_visible_cells_in_range 1024 768 viewer_demo 0 4 0 3).
  vm_compute. reflexivity.
Defined.

(** ** The viewport out of fullscreen *)

Lemma SFcompare_Lt_Gt x y : SFcompare x y = Some Lt → SFcompare y x = Some Gt.
Proof.
  destruct x as [sx|sx| |sx mx ex], y as [sy|sy| |sy my ey]; simpl; try done;
    try (by destruct sx); try (by destruct sy); try (by destruct sx, sy).
  change (PosDef.Pos.compare_cont Eq mx my) with (mx ?= my)%positive.
  change (PosDef.Pos.compare_cont Eq my mx) with (my ?= mx)%positive.
  rewrite (Z.compare_antisym ex ey), (Pos.compare_antisym mx my).
  destruct sx, sy; try done;
    by destruct (ex ?= ey), (mx ?= my)%positive.
Qed.

Lemma float_ltb_leb x y : PrimFloat.ltb x y = true → PrimFloat.leb x y = true.
Proof.
  rewrite ltb_spec, leb_spec. unfold SFltb, SFleb.
  by destruct (SFcompare (Prim2SF x) (Prim2SF y)) as [[]|].
Qed.

Lemma float_ltb_asym x y : PrimFloat.ltb x y = true → PrimFloat.ltb y x = false.
Proof.
  rewrite !ltb_spec. unfold SFltb.
  destruct (SFcompare (Prim2SF x) (Prim2SF y)) as [[]|] eqn:Hc; try done.
  by rewrite (SFcompare_Lt_Gt _ _ Hc).
Qed.

Lemma num_ltb_asym x y : num_ltb x y = true → num_ltb y x = false.
Proof.
  destruct x as [a|f], y as [b|g]; simpl.
  - lia.
  - by destruct (Z_compare_float a g) as [[]|].
  - by destruct (Z_compare_float b f) as [[]|].
  - apply float_ltb_asym.
Qed.

Lemma num_ltb_leb x y : num_ltb x y = true → num_leb x y = true.
Proof.
  destruct x as [a|f], y as [b|g]; simpl.
  - lia.
  - by destruct (Z_compare_float a g) as [[]|].
  - by destruct (Z_compare_float b f) as [[]|].
  - apply float_ltb_leb.
Qed.

(** [max(0, min(m, x))] lies between 0 and [m]. *)
Lemma py_clamp_bounds m x :
  0 <= m →
  num_leb (Int 0) (py_max (Int 0) (py_min (Int m) x)) = true ∧
  num_leb (py_max (Int 0) (py_min (Int m) x)) (Int m) = true.
Proof.
  intros Hm. unfold py_max, py_min.
  destruct (num_ltb x (Int m)) eqn:Hxm.
  - destruct (num_ltb (Int 0) x) eqn:H0x.
    + split; by apply num_ltb_leb.
    + simpl. lia.
  - destruct (num_ltb (Int 0) (Int m)) eqn:H0m; simpl in *; lia.
Qed.

(** Clamping what is already clamped changes nothing. *)
Lemma py_clamp_idem m x :
  0 <= m →
  py_max (Int 0) (py_min (Int m) (py_max (Int 0) (py_min (Int m) x)))
  = py_max (Int 0) (py_min (Int m) x).
Proof.
  intros Hm. unfold py_max, py_min.
  destruct (num_ltb x (Int m)) eqn:Hxm.
  - destruct (num_ltb (Int 0) x) eqn:H0x.
    + by rewrite Hxm, H0x.
    + destruct (num_ltb (Int 0) (Int m)) eqn:H0m; simpl in *.
      * done.
      * by rewrite H0m.
  - simpl. destruct (0 <? m) eqn:H0m; simpl; by rewrite ?Z.ltb_irrefl, ?H0m.
Qed.

Lemma enforce_scroll_bounds_in_bounds screen_size self :
  truthy (fullscreen_image self) = false →
  scroll_in_bounds screen_size (enforce_scroll_bounds screen_size self).
Proof.
  intros Hfs. unfold enforce_scroll_bounds, scroll_in_bounds. rewrite Hfs.
  destruct screen_size as [screen_width screen_height]. simpl.
  split_and!; apply py_clamp_bounds; lia.
Qed.

(** Out of fullscreen, [enforce_scroll_bounds] leaves the scroll offset
    within the content bounds, between 0 and [max(0, content - viewport)] on
    each axis, and running it again changes nothing more. *)
Theorem enforce_scroll_bounds_clamps screen_size self :
  truthy (fullscreen_image self) = false →
  scroll_in_bounds screen_size (enforce_scroll_bounds screen_size self) ∧
  enforce_scroll_bounds screen_size (enforce_scroll_bounds screen_size self)
  = enforce_scroll_bounds screen_size self.
Proof.
  intros Hfs. split; [by apply enforce_scroll_bounds_in_bounds|].
  unfold enforce_scroll_bounds. rewrite Hfs.
  destruct screen_size as [screen_width screen_height]. simpl. rewrite Hfs.
  unfold set_viewport. simpl. by rewrite !py_clamp_idem by lia.
Qed.

Lemma enforce_scroll_bounds_clamps_witness :
  scroll_in_bounds (1024, 768) (enforce_scroll_bounds (1024, 768) viewer_demo) ∧
  enforce_scroll_bounds (1024, 768) (enforce_scroll_bounds (1024, 768) viewer_demo)
  = enforce_scroll_bounds (1024, 768) viewer_demo.
Proof. apply (enforce_scroll_bounds_clamps (1024, 768) viewer_demo). reflexivity. Defined.

Lemma enforce_scroll_bounds_fields screen_size self :
  let self' := enforce_scroll_bounds screen_size self in
  cell_size self' = cell_size self ∧ zoom_level self' = zoom_level self ∧
  max_rows self' = max_rows self ∧ max_cols self' = max_cols self ∧
  col_widths self' = col_widths self ∧ row_heights self' = row_heights self ∧
  fullscreen_image self' = fullscreen_image self.
Proof.
  unfold enforce_scroll_bounds. destruct (truthy _); [done|].
  by destruct screen_size.
Qed.

Lemma float_of_Z_cases z :
  (∃ f, float_of_Z z = Ok f) ∨ float_of_Z z = Raise OverflowError.
Proof.
  unfold float_of_Z. destruct (binary_normalize prec emax z 0 false); eauto.
Qed.

(** Adding an int to an offset fails only when the offset is a float and
    the int is beyond the range of the floats. *)
Lemma num_add_Int_cases x d :
  (∃ y, num_add x (Int d) = Ok y) ∨
  (num_add x (Int d) = Raise OverflowError ∧ float_of_Z d = Raise OverflowError).
Proof.
  destruct x as [a|f]; simpl; [by eauto|].
  destruct (float_of_Z_cases d) as [[fd ->]| ->]; simpl; eauto.
Qed.

(** [scroll], out of fullscreen, ends within the content bounds and leaves
    the cell size and the zoom level alone.  It returns unless a step is
    beyond the range of the floats, the one case in which adding it to a
    float offset raises [OverflowError]. *)
Theorem scroll_stays_in_bounds dx dy screen_size self :
  truthy (fullscreen_image self) = false →
  match scroll dx dy screen_size self with
  | Ok self' =>
      scroll_in_bounds screen_size self' ∧
      cell_size self' = cell_size self ∧ zoom_level self' = zoom_level self
  | Raise e =>
      e = OverflowError ∧
      (float_of_Z dx = Raise OverflowError ∨ float_of_Z dy = Raise OverflowError)
  end.
Proof.
  intros Hfs. unfold scroll. rewrite Hfs.
  destruct (num_add_Int_cases (scroll_offset self).1 dx) as [[so0 ->]|[-> Hx]];
    simpl; [|by auto].
  destruct (num_add_Int_cases (scroll_offset self).2 dy) as [[so1 ->]|[-> Hy]];
    simpl; [|by auto].
  set (moved := set_viewport _ _ _ _ _ self). split.
  - by apply enforce_scroll_bounds_in_bounds.
  - destruct (enforce_scroll_bounds_fields screen_size moved) as (Hc & Hz & _).
    by split.
Qed.

Lemma scroll_stays_in_bounds_witness :
  match scroll 5000 (-40) (1024, 768) viewer_zoomed with
  | Ok self' =>
      scroll_in_bounds (1024, 768) self' ∧
      cell_size self' = cell_size viewer_zoomed ∧ zoom_level self' = zoom_level viewer_zoomed
  | Raise e =>
      e = OverflowError ∧
      (float_of_Z 5000 = Raise OverflowError ∨ float_of_Z (-40) = Raise OverflowError)
  end.
Proof. apply (scroll_stays_in_bounds 5000 (-40) (1024, 768) viewer_zoomed). reflexivity. Defined.

Lemma lookup_map {A B : Type} (f : A → B) (l : list A) (i : nat) :
  map f l !! i = f <$> (l !! i).
Proof.
  revert i. induction l as [|x l IH]; intros [|i]; simpl; auto.
Qed.

Lemma lookup_map_py_range {B : Type} (f : Z → B) (n : Z) (i : nat) (y : B) :
  map f (py_range 0 n) !! i = Some y → y = f (Z.of_nat i) ∧ Z.of_nat i < n.
Proof.
  rewrite lookup_map. unfold py_range.
  destruct (seqZ 0 (n - 0) !! i) as [j|] eqn:Hj; [|done].
  apply lookup_seqZ in Hj as [-> Hi]. simpl. intros Hy. inversion Hy; subst.
  split; [f_equal; lia|lia].
Qed.

Lemma length_map_py_range {B : Type} (f : Z → B) (n : Z) :
  length (map f (py_range 0 n)) = Z.to_nat n.
Proof. unfold py_range. rewrite length_map, length_seqZ. f_equal. lia. Qed.

(** [update_cell_sizes] lays out one width per column and one height per
    row: the filename column and the header row get the zoomed size clamped
    to [1, 200], every other column and row gets the zoomed size itself. *)
Theorem update_cell_sizes_shape DEFAULT_CELL_SIZE self self' :
  update_cell_sizes DEFAULT_CELL_SIZE self = Ok self' →
  ∃ zoomed_size,
    zoomed_cell_size DEFAULT_CELL_SIZE (zoom_level self) = Ok zoomed_size ∧
    length (col_widths self') = Z.to_nat (max_cols self) ∧
    length (row_heights self') = Z.to_nat (max_rows self) ∧
    (∀ w, col_widths self' !! 0%nat = Some w →
          w = Z.max 1 (Z.min 200 zoomed_size) ∧ 1 <= w <= 200) ∧
    (∀ h, row_heights self' !! 0%nat = Some h →
          h = Z.max 1 (Z.min 200 zoomed_size) ∧ 1 <= h <= 200) ∧
    (∀ i w, (0 < i)%nat → col_widths self' !! i = Some w → w = zoomed_size) ∧
    (∀ i h, (0 < i)%nat → row_heights self' !! i = Some h → h = zoomed_size).
Proof.
  unfold update_cell_sizes. intros Hu.
  destruct (zoomed_cell_size DEFAULT_CELL_SIZE (zoom_level self)) as [z|] eqn:Hz; [|done].
  simpl in Hu. inversion Hu; subst; clear Hu. simpl. exists z.
  split; [done|]. split; [apply length_map_py_range|]. split; [apply length_map_py_range|].
  unfold MIN_TEXT_CELL_WIDTH, MAX_FILENAME_WIDTH, MIN_FILENAME_WIDTH,
    MIN_TEXT_CELL_HEIGHT, MAX_HEADER_HEIGHT, MIN_HEADER_HEIGHT.
  split_and!.
  - intros w [-> _]%lookup_map_py_range. simpl. lia.
  - intros h [-> _]%lookup_map_py_range. simpl. lia.
  - intros i w Hi [-> _]%lookup_map_py_range.
    by assert ((Z.of_nat i =? 0) = false) as -> by lia.
  - intros i h Hi [-> _]%lookup_map_py_range.
    by assert ((Z.of_nat i =? 0) = false) as -> by lia.
Qed.

Lemma update_cell_sizes_shape_witness :
  ∃ zoomed_size,
    zoomed_cell_size 300 (zoom_level viewer_demo) = Ok zoomed_size ∧
    length (col_widths viewer_demo) = Z.to_nat (max_cols viewer_demo) ∧
    length (row_heights viewer_demo) = Z.to_nat (max_rows viewer_demo) ∧
    (∀ w, col_widths viewer_demo !! 0%nat = Some w →
          w = Z.max 1 (Z.min 200 zoomed_size) ∧ 1 <= w <= 200) ∧
    (∀ h, row_heights viewer_demo !! 0%nat = Some h →
          h = Z.max 1 (Z.min 200 zoomed_size) ∧ 1 <= h <= 200) ∧
    (∀ i w, (0 < i)%nat → col_widths viewer_demo !! i = Some w → w = zoomed_size) ∧
    (∀ i h, (0 < i)%nat → row_heights viewer_demo !! i = Some h → h = zoomed_size).
Proof.
  apply (update_cell_sizes_shape 300 viewer_demo viewer_demo).
  vm_compute. reflexivity.
Defined.

Lemma update_cell_sizes_uniform DEFAULT_CELL_SIZE self resized :
  update_cell_sizes DEFAULT_CELL_SIZE self = Ok resized →
  ∃ zoomed_size,
    zoomed_cell_size DEFAULT_CELL_SIZE (zoom_level self) = Ok zoomed_size ∧
    zoom_level resized = zoom_level self ∧
    fullscreen_image resized = fullscreen_image self ∧
    max_rows resized = max_rows self ∧ max_cols resized = max_cols self ∧
    (∀ i w, (0 < i)%nat → col_widths resized !! i = Some w → w = zoomed_size) ∧
    (∀ i h, (0 < i)%nat → row_heights resized !! i = Some h → h = zoomed_size).
Proof.
  unfold update_cell_sizes. intros Hu.
  destruct (zoomed_cell_size DEFAULT_CELL_SIZE (zoom_level self)) as [z|] eqn:Hz; [|done].
  simpl in Hu. inversion Hu; subst; clear Hu. simpl. exists z.
  split_and!; try done.
  - intros i w Hi [-> _]%lookup_map_py_range.
    by assert ((Z.of_nat i =? 0) = false) as -> by lia.
  - intros i h Hi [-> _]%lookup_map_py_range.
    by assert ((Z.of_nat i =? 0) = false) as -> by lia.
Qed.

(** What [zoom] returns out of fullscreen: the clamped zoom level, the cell
    size truncated from it, the sizes laid out for it, and some scroll
    offset, all passed through [enforce_scroll_bounds]. *)
Lemma zoom_inv DEFAULT_CELL_SIZE direction mouse_pos screen_size self self' :
  truthy (fullscreen_image self) = false →
  zoom DEFAULT_CELL_SIZE direction mouse_pos screen_size self = Ok self' →
  ∃ step cs so resized,
    float_of_Z direction = Ok step ∧
    let zl :=
      float_max MIN_ZOOM
        (float_min MAX_ZOOM
           (PrimFloat.add (zoom_level self) (PrimFloat.mul step ZOOM_SPEED))) in
    zoomed_cell_size DEFAULT_CELL_SIZE zl = Ok cs ∧
    update_cell_sizes DEFAULT_CELL_SIZE
      (set_viewport (cell_size self) zl (scroll_offset self)
         (col_widths self) (row_heights self) self) = Ok resized ∧
    self' = enforce_scroll_bounds screen_size
              (set_viewport cs zl so (col_widths resized) (row_heights resized) resized).
Proof.
  intros Hfs. unfold zoom. rewrite Hfs.
  destruct (float_of_Z direction) as [step|]; [|done]. simpl.
  set (zl := float_max _ _).
  destruct (update_cell_sizes _ _) as [resized|] eqn:Hu; [|done]. simpl.
  destruct (update_cell_sizes_uniform _ _ _ Hu) as (_ & _ & Hzl & _).
  simpl in Hzl. rewrite Hzl.
  destruct mouse_pos as [[mx my]|].
  - intros Hs. returned Hs.
    inversion Hs; subst. eexists _, _, _, _. split_and!; [done|eassumption|exact Hu|done].
  - intros Hs. returned Hs.
    inversion Hs; subst. eexists _, _, _, _. split_and!; [done|eassumption|exact Hu|done].
Qed.

Lemma zoom_level_clamped z :
  PrimFloat.leb MIN_ZOOM (float_max MIN_ZOOM (float_min MAX_ZOOM z)) = true ∧
  PrimFloat.leb (float_max MIN_ZOOM (float_min MAX_ZOOM z)) MAX_ZOOM = true.
Proof.
  unfold float_max, float_min.
  destruct (PrimFloat.ltb z MAX_ZOOM) eqn:Hz.
  - destruct (PrimFloat.ltb MIN_ZOOM z) eqn:Hm.
    + split; by apply float_ltb_leb.
    + split; reflexivity.
  - split; reflexivity.
Qed.

(** Out of fullscreen, a [zoom] that returns leaves the zoom level between
    [MIN_ZOOM] and [MAX_ZOOM], the cell size equal to
    [int(DEFAULT_CELL_SIZE * zoom_level)], every column width and row height
    past the first equal to that cell size, and the scroll offset within
    the content bounds. *)
Theorem zoom_keeps_viewport_consistent DEFAULT_CELL_SIZE direction mouse_pos screen_size
    self self' :
  truthy (fullscreen_image self) = false →
  zoom DEFAULT_CELL_SIZE direction mouse_pos screen_size self = Ok self' →
  PrimFloat.leb MIN_ZOOM (zoom_level self') = true ∧
  PrimFloat.leb (zoom_level self') MAX_ZOOM = true ∧
  zoomed_cell_size DEFAULT_CELL_SIZE (zoom_level self') = Ok (cell_size self') ∧
  (∀ i w, (0 < i)%nat → col_widths self' !! i = Some w → w = cell_size self') ∧
  (∀ i h, (0 < i)%nat → row_heights self' !! i = Some h → h = cell_size self') ∧
  scroll_in_bounds screen_size self'.
Proof.
  intros Hfs Hzoom.
  destruct (zoom_inv _ _ _ _ _ _ Hfs Hzoom) as (step & cs & so & resized & _ & Hcs & Hu & ->).
  set (zl := float_max _ _) in *.
  set (moved := set_viewport cs zl so _ _ resized).
  destruct (enforce_scroll_bounds_fields screen_size moved)
    as (Hc & Hz & _ & _ & Hcw & Hrh & _).
  rewrite Hc, Hz, Hcw, Hrh. simpl.
  destruct (update_cell_sizes_uniform _ _ _ Hu)
    as (z & Hz' & _ & Hfs' & _ & _ & Hcols & Hrows).
  simpl in Hz', Hfs'. rewrite Hcs in Hz'. inversion Hz'; subst z.
  split; [apply zoom_level_clamped|]. split; [apply zoom_level_clamped|].
  split; [done|]. split; [done|]. split; [done|].
  apply enforce_scroll_bounds_in_bounds. subst moved. simpl. by rewrite Hfs'.
Qed.

Lemma zoom_keeps_viewport_consistent_witness :
  PrimFloat.leb MIN_ZOOM (zoom_level viewer_zoomed) = true ∧
  PrimFloat.leb (zoom_level viewer_zoomed) MAX_ZOOM = true ∧
  zoomed_cell_size 300 (zoom_level viewer_zoomed) = Ok (cell_size viewer_zoomed) ∧
  (∀ i w, (0 < i)%nat → col_widths viewer_zoomed !! i = Some w →
          w = cell_size viewer_zoomed) ∧
  (∀ i h, (0 < i)%nat → row_heights viewer_zoomed !! i = Some h →
          h = cell_size viewer_zoomed) ∧
  scroll_in_bounds (1024, 768) viewer_zoomed.
Proof.
  apply (zoom_keeps_viewport_consistent 300 1 (Some (100, 200)) (1024, 768) viewer_demo).
  - reflexivity.
  - vm_compute. reflexivity.
Defined.

(** At the ceiling a zoom-in step leaves the zoom level at [MAX_ZOOM], and at
    the floor a zoom-out step leaves it at [MIN_ZOOM]. *)
Theorem zoom_saturates DEFAULT_CELL_SIZE direction mouse_pos screen_size self self' :
  truthy (fullscreen_image self) = false →
  (zoom_level self = MAX_ZOOM ∧ direction = 1) ∨
  (zoom_level self = MIN_ZOOM ∧ direction = -1) →
  zoom DEFAULT_CELL_SIZE direction mouse_pos screen_size self = Ok self' →
  zoom_level self' = zoom_level self.
Proof.
  intros Hfs Hedge Hzoom.
  destruct (zoom_inv _ _ _ _ _ _ Hfs Hzoom) as (step & cs & so & resized & Hstep & _ & _ & ->).
  match goal with
  | |- zoom_level (enforce_scroll_bounds ?sz ?s) = _ =>
      destruct (enforce_scroll_bounds_fields sz s) as (_ & -> & _)
  end.
  simpl. destruct Hedge as [[-> ->]|[-> ->]]; vm_compute in Hstep; inversion Hstep; subst step;
    vm_compute; reflexivity.
Qed.

Lemma zoom_saturates_witness :
  zoom_level
    (set_viewport 900 MAX_ZOOM (Int 0, Int 0) [200; 900; 900] [200; 900; 900; 900; 900]
       viewer_demo)
  = zoom_level
      (set_viewport 900 MAX_ZOOM (Int 0, Int 0) [200; 900; 900] [200; 900; 900; 900; 900]
         viewer_demo).
Proof.
  apply (zoom_saturates 300 1 None (1024, 768)
           (set_viewport 900 MAX_ZOOM (Int 0, Int 0) [200; 900; 900]
              [200; 900; 900; 900; 900] viewer_demo)).
  - reflexivity.
  - left. split; reflexivity.
  - vm_compute. reflexivity.
Defined.

(** [reset_viewport], when it returns, puts the scroll offset back to
    (0, 0) and never sets a zoom level below [MIN_START_ZOOM]; when three
    cells of the default size fit each way, the zoom level is 1 and the
    cell size is [DEFAULT_CELL_SIZE]. *)
Theorem reset_viewport_resets DEFAULT_CELL_SIZE screen_size self self' :
  reset_viewport DEFAULT_CELL_SIZE screen_size self = Ok self' →
  scroll_offset self' = (Int 0, Int 0) ∧
  PrimFloat.leb MIN_START_ZOOM (zoom_level self') = true ∧
  (3 <= screen_size.1 / DEFAULT_CELL_SIZE →
   3 <= (screen_size.2 - INFO_HEIGHT) / DEFAULT_CELL_SIZE →
   zoom_level self' = 1%float ∧ cell_size self' = DEFAULT_CELL_SIZE).
Proof.
  unfold reset_viewport. destruct screen_size as [screen_width screen_height].
  unfold floordiv. destruct (DEFAULT_CELL_SIZE =? 0); simpl; [done|].
  destruct ((screen_width / DEFAULT_CELL_SIZE <? 3)
            || ((screen_height - INFO_HEIGHT) / DEFAULT_CELL_SIZE <? 3)) eqn:Hsmall.
  - intros Hu. returned Hu.
    destruct (update_cell_sizes_uniform _ _ _ Hu) as (_ & _ & Hzl & _).
    assert (scroll_offset self' = (Int 0, Int 0)) as Hso.
    { unfold update_cell_sizes in Hu. destruct (zoomed_cell_size _ _); [|done].
      simpl in Hu. by inversion Hu. }
    simpl in Hzl. rewrite Hzl. split; [done|]. split.
    + unfold float_max. destruct (PrimFloat.ltb MIN_START_ZOOM _) eqn:Hlt.
      * by apply float_ltb_leb.
      * reflexivity.
    + intros. apply orb_true_iff in Hsmall. lia.
  - simpl. intros Hu.
    destruct (update_cell_sizes_uniform _ _ _ Hu) as (_ & _ & Hzl & _).
    assert (scroll_offset self' = (Int 0, Int 0) ∧ cell_size self' = DEFAULT_CELL_SIZE)
      as [Hso Hcs].
    { unfold update_cell_sizes in Hu. destruct (zoomed_cell_size _ _); [|done].
      simpl in Hu. by inversion Hu. }
    simpl in Hzl. rewrite Hzl. split; [done|]. split; [reflexivity|done].
Qed.

Lemma reset_viewport_resets_witness :
  scroll_offset viewer_reset = (Int 0, Int 0) ∧
  PrimFloat.leb MIN_START_ZOOM (zoom_level viewer_reset) = true ∧
  (3 <= (1920, 1080).1 / 300 → 3 <= ((1920, 1080).2 - INFO_HEIGHT) / 300 →
   zoom_level viewer_reset = 1%float ∧ cell_size viewer_reset = 300).
Proof.
  apply (reset_viewport_resets 300 (1920, 1080) viewer_zoomed).
  vm_compute. reflexivity.
Defined.

(** ** Fullscreen, there and back *)

Lemma py_index_lookup {A : Type} (l : list A) (i : Z) (x : A) :
  0 <= i → l !! Z.to_nat i = Some x → py_index l i = Ok x.
Proof.
  intros Hi Hx. pose proof (lookup_lt_Some _ _ _ Hx) as Hlen. unfold py_index.
  assert ((i <? 0) = false) as -> by lia.
  assert (((0 <=? i) && (i <? Z.of_nat (length l))) = true) as -> by lia.
  by rewrite Hx.
Qed.

Lemma set_fullscreen_browsing self :
  browsing self → set_fullscreen None None None None self = self.
Proof. destruct self. unfold browsing. simpl. by intros (-> & -> & -> & ->). Qed.

(** Selecting a cell and selecting it again: the first call focuses the
    cell, on the value the grid holds there; the second call clears the
    four fullscreen fields, which from the browsing state gives back the
    object as it was. *)
Theorem toggle_fullscreen_twice image_load row col self self1 :
  ¬ (fullscreen_row self = Some row ∧ fullscreen_col self = Some col) →
  toggle_fullscreen image_load row col self = Ok self1 →
  (∃ cells path,
     grid self !! row = Some cells ∧ py_index cells col = Ok path ∧
     fullscreen_image self1 = Some path ∧
     fullscreen_row self1 = Some row ∧ fullscreen_col self1 = Some col) ∧
  toggle_fullscreen image_load row col self1
  = Ok (set_fullscreen None None None None self) ∧
  (browsing self → toggle_fullscreen image_load row col self1 = Ok self).
Proof.
  intros Hother. unfold toggle_fullscreen at 1.
  destruct (decide _) as [?|_]; [done|]. unfold grid_row.
  destruct (grid self !! row) as [cells|] eqn:Hrow; simpl; [|done].
  destruct (py_index cells col) as [path|] eqn:Hpath; simpl; [|done].
  intros Hs. inversion Hs; subst; clear Hs.
  assert (toggle_fullscreen image_load row col
            (set_fullscreen (Some path)
               (Some (if startswith path PLACEHOLDER
                      then BoxSurface 800 600 PLACEHOLDER_COLOR (placeholder_caption path)
                      else if image_load path then ImageSurface path
                           else BoxSurface 800 600 (120, 40, 40) "Error loading image"))
               (Some row) (Some col) self)
          = Ok (set_fullscreen None None None None self)) as Hback.
  { unfold toggle_fullscreen. simpl. destruct (decide _) as [_|Hn]; [done|].
    by destruct Hn. }
  split; [by exists cells, path|]. split; [done|].
  intros Hb. by rewrite Hback, set_fullscreen_browsing.
Qed.

Lemma toggle_fullscreen_twice_witness :
  (∃ cells path,
     grid viewer_demo !! 2 = Some cells ∧ py_index cells 2 = Ok path ∧
     fullscreen_image viewer_focused = Some path ∧
     fullscreen_row viewer_focused = Some 2 ∧ fullscreen_col viewer_focused = Some 2) ∧
  toggle_fullscreen (fun _ => true) 2 2 viewer_focused
  = Ok (set_fullscreen None None None None viewer_demo) ∧
  (browsing viewer_demo →
   toggle_fullscreen (fun _ => true) 2 2 viewer_focused = Ok viewer_demo).
Proof.
  apply (toggle_fullscreen_twice (fun _ => true) 2 2 viewer_demo viewer_focused).
  - intros [H _]. discriminate H.
  - vm_compute. reflexivity.
Defined.

(** A step of [navigate_fullscreen] towards a data cell is the selection of
    that cell. *)
Lemma navigate_fullscreen_moves image_load direction self row col target_row target_col :
  focused_on self row col → data_cell self row col →
  navigation_target direction row col = Some (target_row, target_col) →
  data_cell self target_row target_col →
  ∃ cells path original,
    grid self !! target_row = Some cells ∧
    cells !! Z.to_nat target_col = Some path ∧
    navigate_fullscreen image_load direction self
    = Ok (set_fullscreen (Some path) (Some original)
            (Some target_row) (Some target_col) self).
Proof.
  intros (Hfs & Hr & Hc) (Hrow & cells0 & Hcells0 & Hcol) Htarget
    (Htrow & cells & Hcells & Htcol).
  destruct (lookup_lt_is_Some_2 cells (Z.to_nat target_col)) as [path Hpath]; [lia|].
  assert (navigate_to image_load row col target_row target_col self
          = Ok (set_fullscreen (Some path)
                  (Some (if startswith path PLACEHOLDER
                         then BoxSurface 800 600 PLACEHOLDER_COLOR
                                (placeholder_caption path)
                         else if image_load path then ImageSurface path
                              else BoxSurface 800 600 (120, 40, 40)
                                     "Error loading image"))
                  (Some target_row) (Some target_col) self) ∨
          (target_row = row ∧ target_col = col)) as Hnav.
  { unfold navigate_to.
    destruct ((target_row =? row) && (target_col =? col)) eqn:Hsame.
    { right. apply andb_true_iff in Hsame. lia. }
    left. rewrite Hcells.
    assert ((Z.of_nat (length cells) <=? target_col) = false) as -> by lia.
    unfold toggle_fullscreen. rewrite Hr, Hc.
    destruct (decide _) as [[H1 H2]|_].
    { inversion H1; inversion H2; subst. by rewrite !Z.eqb_refl in Hsame. }
    unfold grid_row. rewrite Hcells. simpl.
    by rewrite (py_index_lookup cells target_col path) by (done || lia). }
  exists cells, path. eexists. split; [done|]. split; [done|].
  unfold navigate_fullscreen, navigation_target in *. rewrite Hfs, Hr, Hc.
  destruct (String.eqb direction "left").
  { inversion Htarget; subst. replace (Z.max 1 (col - 1)) with (col - 1) by lia.
    destruct Hnav as [->|]; [done|lia]. }
  destruct (String.eqb direction "right").
  { inversion Htarget; subst. unfold grid_row. rewrite Hcells0. simpl.
    rewrite Hcells0 in Hcells. inversion Hcells; subst.
    assert ((col + 1 <? Z.of_nat (length cells)) = true) as -> by lia.
    destruct Hnav as [->|]; [done|lia]. }
  destruct (String.eqb direction "up").
  { inversion Htarget; subst. replace (Z.max 1 (row - 1)) with (row - 1) by lia.
    destruct Hnav as [->|]; [done|lia]. }
  destruct (String.eqb direction "down"); [|done].
  inversion Htarget; subst.
  assert ((row + 1 <? max_rows self) = true) as -> by lia.
  destruct Hnav as [->|]; [done|lia].
Qed.

(** A step in a direction followed by a step in the opposite direction
    comes back: when the cell aimed at is a data cell holding a non-empty
    value, [navigate_fullscreen] focuses it, and the opposite direction from
    there focuses the starting cell again. *)
Theorem navigate_fullscreen_there_and_back image_load direction self row col
    target_row target_col :
  focused_on self row col → data_cell self row col →
  navigation_target direction row col = Some (target_row, target_col) →
  data_cell self target_row target_col →
  (∀ cells, grid self !! target_row = Some cells →
            cells !! Z.to_nat target_col ≠ Some "") →
  ∃ self1 self2 cells path,
    navigate_fullscreen image_load direction self = Ok self1 ∧
    focused_on self1 target_row target_col ∧
    navigate_fullscreen image_load (opposite direction) self1 = Ok self2 ∧
    grid self !! row = Some cells ∧ cells !! Z.to_nat col = Some path ∧
    fullscreen_image self2 = Some path ∧
    fullscreen_row self2 = Some row ∧ fullscreen_col self2 = Some col.
Proof.
  intros Hfocus Hcell Htarget Htcell Hnonempty.
  destruct (navigate_fullscreen_moves image_load _ _ _ _ _ _ Hfocus Hcell Htarget Htcell)
    as (tcells & tpath & toriginal & Htcells & Htpath & Hstep).
  set (self1 := set_fullscreen (Some tpath) (Some toriginal)
                  (Some target_row) (Some target_col) self) in *.
  assert (focused_on self1 target_row target_col) as Hfocus1.
  { split; [|done]. simpl. destruct (String.eqb_spec tpath "") as [->|]; [|done].
    by destruct (Hnonempty tcells Htcells). }
  assert (navigation_target (opposite direction) target_row target_col = Some (row, col))
    as Hback.
  { unfold navigation_target, opposite in *.
    destruct (String.eqb direction "left"); [inversion Htarget; subst; simpl; f_equal;
      f_equal; lia|].
    destruct (String.eqb direction "right"); [inversion Htarget; subst; simpl; f_equal;
      f_equal; lia|].
    destruct (String.eqb direction "up"); [inversion Htarget; subst; simpl; f_equal;
      f_equal; lia|].
    destruct (String.eqb direction "down"); [|done].
    inversion Htarget; subst; simpl; f_equal; f_equal; lia. }
  destruct (navigate_fullscreen_moves image_load _ self1 _ _ _ _ Hfocus1 Htcell Hback Hcell)
    as (cells & path & original & Hcells & Hpath & Hstep2).
  exists self1, (set_fullscreen (Some path) (Some original) (Some row) (Some col) self1),
    cells, path.
  by split_and!.
Qed.

Lemma navigate_fullscreen_there_and_back_witness :
  ∃ self1 self2 cells path,
    navigate_fullscreen (fun _ => true) "down" viewer_focused = Ok self1 ∧
    focused_on self1 3 2 ∧
    navigate_fullscreen (fun _ => true) (opposite "down") self1 = Ok self2 ∧
    grid viewer_focused !! 2 = Some cells ∧ cells !! Z.to_nat 2 = Some path ∧
    fullscreen_image self2 = Some path ∧
    fullscreen_row self2 = Some 2 ∧ fullscreen_col self2 = Some 2.
Proof.
  apply (navigate_fullscreen_there_and_back (fun _ => true) "down" viewer_focused 2 2 3 2).
  - split; [reflexivity|]. split; reflexivity.
  - split; [simpl; lia|]. exists ["B.png"; "PLACEHOLDER:"; "var/x/B.png"].
    split; [reflexivity|simpl; lia].
  - reflexivity.
  - split; [simpl; lia|]. exists ["a.png"; "PLACEHOLDER:"; "var/x/a.png"].
    split; [reflexivity|simpl; lia].
  - intros cells Hcells. vm_compute in Hcells. inversion Hcells; subst. discriminate.
Defined.

(** ** Text in a box *)

Lemma wrap_loop_nonempty font max_width :
  ∀ room remaining_text lines,
    Forall (fun line => line ≠ "") lines →
    Forall (fun line => line ≠ "") (wrap_loop font max_width room remaining_text lines).1.
Proof.
  induction room as [|room IH]; intros remaining_text lines Hlines; simpl; [done|].
  destruct (String.eqb remaining_text ""); [done|].
  destruct (String.eqb (choose_line font max_width remaining_text) "") eqn:He; [done|].
  apply IH. apply Forall_app. split; [done|]. constructor; [|done].
  intros Heq. by rewrite Heq in He.
Qed.

Lemma mark_truncated_cases font max_width max_lines lines remaining_text :
  mark_truncated font max_width max_lines lines remaining_text = lines ∨
  ∃ init last_line s,
    lines = (init ++ [last_line])%list ∧
    mark_truncated font max_width max_lines lines remaining_text
    = (init ++ [(s ++ ellipsis)%string])%list.
Proof.
  unfold mark_truncated. destruct (_ && _); [|by left].
  destruct (last lines) as [last_line|] eqn:Hlast; [|by left].
  assert (lines ≠ []) as Hne by (by intros ->).
  destruct (exists_last Hne) as (init & x & ->).
  rewrite last_snoc in Hlast. inversion Hlast; subst.
  right. exists init, last_line. rewrite removelast_last.
  destruct (_ <=? max_width); eexists; split; done.
Qed.

Lemma app_ellipsis_nonempty s : s ++ ellipsis ≠ "".
Proof.
  intros Heq. apply (f_equal String.length) in Heq.
  rewrite length_app_string in Heq. simpl in Heq. lia.
Qed.

Lemma wrapped_lines_spec text rect font lines :
  wrapped_lines text rect font = Ok lines →
  ∀ (i : nat) line, lines !! i = Some line →
    line ≠ "" ∧
    (S i < length lines → fits font (rect_width rect - 10) line = true)%nat.
Proof.
  unfold wrapped_lines. destruct (_ || _).
  { intros Hl i line Hi. inversion Hl; subst. done. }
  unfold floordiv. destruct (get_height font =? 0); [done|]. simpl.
  pose proof (wrap_loop_fits font (rect_width rect - 10)
                (Z.to_nat (Z.max 1 ((rect_height rect - 10) / get_height font)))
                (strip text) [] (Forall_nil_2 _)) as Hfits.
  pose proof (wrap_loop_nonempty font (rect_width rect - 10)
                (Z.to_nat (Z.max 1 ((rect_height rect - 10) / get_height font)))
                (strip text) [] (Forall_nil_2 _)) as Hne.
  destruct (wrap_loop _ _ _ _ _) as [ls remaining_text]. simpl in Hfits, Hne.
  intros Hl i line Hi. inversion Hl; subst. clear Hl.
  destruct (mark_truncated_cases font (rect_width rect - 10)
              (Z.max 1 ((rect_height rect - 10) / get_height font)) ls remaining_text)
    as [Heq|(init & last_line & s & Hls & Heq)]; rewrite Heq in Hi |- *.
  - split; [by apply (Forall_lookup_1 _ _ _ _ Hne Hi)|].
    intros _. by apply (Forall_lookup_1 _ _ _ _ Hfits Hi).
  - subst ls. apply Forall_app in Hfits as [Hfits _]. apply Forall_app in Hne as [Hne _].
    rewrite length_app. simpl.
    destruct (decide (i < length init)%nat) as [Hlt|Hge].
    + rewrite lookup_app_l in Hi by done.
      split; [by apply (Forall_lookup_1 _ _ _ _ Hne Hi)|].
      intros _. by apply (Forall_lookup_1 _ _ _ _ Hfits Hi).
    + rewrite lookup_app_r in Hi by lia.
      destruct (i - length init)%nat as [|k] eqn:Hk; simpl in Hi; [|done].
      inversion Hi; subst. split; [apply app_ellipsis_nonempty|lia].
Qed.

(** What [draw_wrapped_text] puts on the surface, when it returns: at most
    [max(1, (rect.height - 10) // line_height)] lines, line [i] at
    [(rect.left + 5, rect.top + i * line_height)], no line empty, and every
    line but the last at most [rect.width - 10] wide. *)
Theorem draw_wrapped_text_block text rect font blits :
  draw_wrapped_text text rect font = Ok blits →
  Z.of_nat (length blits) <= Z.max 1 ((rect_height rect - 10) / get_height font) ∧
  ∀ (i : nat) line pos, blits !! i = Some (line, pos) →
    pos = (rect_left rect + 5, rect_top rect + Z.of_nat i * get_height font) ∧
    line ≠ "" ∧
    (S i < length blits → fits font (rect_width rect - 10) line = true)%nat.
Proof.
  unfold draw_wrapped_text.
  destruct (wrapped_lines text rect font) as [lines|e] eqn:Hw; simpl; [|done].
  intros Hb. inversion Hb; subst. clear Hb. rewrite length_imap. split.
  { exact (wrapped_lines_count _ _ _ _ Hw). }
  intros i line pos Hi. rewrite list_lookup_imap in Hi.
  destruct (lines !! i) as [l|] eqn:Hli; simpl in Hi; [|done].
  inversion Hi; subst. destruct (wrapped_lines_spec _ _ _ _ Hw i _ Hli) as [Hne Hfit].
  done.
Qed.

Lemma draw_wrapped_text_block_witness :
  Z.of_nat (length [("abc...", (5, 0))]) <= Z.max 1 ((rect_height narrow_box - 10) / get_height mono) ∧
  ∀ (i : nat) line pos, [("abc...", (5, 0))] !! i = Some (line, pos) →
    pos = (rect_left narrow_box + 5, rect_top narrow_box + Z.of_nat i * get_height mono) ∧
    line ≠ "" ∧
    (S i < length [("abc...", (5, 0))] →
     fits mono (rect_width narrow_box - 10) line = true)%nat.
Proof.
  apply (draw_wrapped_text_block "abcdefghijk" narrow_box mono).
  vm_compute. reflexivity.
Defined.

Lemma prefix_search_all_fit font max_width remaining_text :
  (∀ k, 0 <= k <= Z.of_nat (String.length remaining_text) →
        fits font max_width (slice_to remaining_text k) = true) →
  ∀ fuel low high best,
    0 <= low → high <= Z.of_nat (String.length remaining_text) →
    (Z.to_nat (high + 1 - low) < fuel)%nat →
    prefix_search font max_width remaining_text fuel low high best
    = if low <=? high then slice_to remaining_text high else best.
Proof.
  intros Hall. induction fuel as [|fuel IH]; intros low high best Hlow Hhigh Hf; [lia|].
  simpl. destruct (low <=? high) eqn:Hle; [|done].
  apply Z.leb_le in Hle. pose proof (midpoint_between low high Hle) as Hmid.
  rewrite Hall by lia. rewrite IH by lia.
  destruct ((low + high) / 2 + 1 <=? high) eqn:Hle'; [done|].
  apply Z.leb_gt in Hle'. f_equal. lia.
Qed.

Lemma substring_none n s : substring n 0 s = "".
Proof. revert s. induction n as [|n IH]; intros [|c s]; simpl; auto. Qed.

Lemma choose_line_all_fit font max_width remaining_text :
  remaining_text ≠ "" →
  (∀ k, 0 <= k <= Z.of_nat (String.length remaining_text) →
        fits font max_width (slice_to remaining_text k) = true) →
  choose_line font max_width remaining_text = remaining_text.
Proof.
  intros Hne Hall. unfold choose_line.
  rewrite (prefix_search_all_fit _ _ _ Hall) by lia.
  assert ((0 <=? Z.of_nat (String.length remaining_text)) = true) as ->
    by (apply Z.leb_le; lia).
  assert (slice_to remaining_text (Z.of_nat (String.length remaining_text))
          = remaining_text) as Hs
    by (unfold slice_to; by rewrite Nat2Z.id, substring_all).
  rewrite !Hs.
  assert (String.eqb remaining_text "" = false) as Hx by (by apply String.eqb_neq).
  rewrite Hx. cbv iota. rewrite Hx.
  by rewrite Nat.ltb_irrefl, andb_false_r.
Qed.

(** A text whose prefixes all fit the box is drawn whole, on one line, with
    the white space around it removed and no ellipsis. *)
Theorem draw_wrapped_text_whole text rect font :
  strip text ≠ "" →
  get_height font ≠ 0 →
  (∀ k, 0 <= k <= Z.of_nat (String.length (strip text)) →
        fits font (rect_width rect - 10) (slice_to (strip text) k) = true) →
  draw_wrapped_text text rect font
  = Ok [(strip text, (rect_left rect + 5, rect_top rect))].
Proof.
  intros Hne Hh Hall. unfold draw_wrapped_text, wrapped_lines.
  assert (String.eqb text "" = false) as ->.
  { apply String.eqb_neq. intros ->. by apply Hne. }
  assert (String.eqb (strip text) "" = false) as -> by (by apply String.eqb_neq).
  simpl. unfold floordiv.
  assert ((get_height font =? 0) = false) as -> by lia. simpl.
  destruct (Z.to_nat (Z.max 1 ((rect_height rect - 10) / get_height font)))
    as [|room] eqn:Hroom; [lia|].
  simpl. assert (String.eqb (strip text) "" = false) as -> by (by apply String.eqb_neq).
  rewrite (choose_line_all_fit _ _ _ Hne Hall).
  assert (String.eqb (strip text) "" = false) as -> by (by apply String.eqb_neq).
  unfold slice_from. rewrite Nat2Z.id, Nat.sub_diag, substring_none.
  assert (wrap_loop font (rect_width rect - 10) room (lstrip "") [strip text]
          = ([strip text], "")) as -> by (by destruct room).
  unfold mark_truncated. simpl. do 4 f_equal. lia.
Qed.

Lemma draw_wrapped_text_whole_witness :
  draw_wrapped_text "  ab " narrow_box mono = Ok [("ab", (5, 0))].
Proof.
  apply (draw_wrapped_text_whole "  ab " narrow_box mono).
  - vm_compute. discriminate.
  - vm_compute. discriminate.
  - intros k Hk. change (strip "  ab ") with "ab" in *.
    change (Z.of_nat (String.length "ab")) with 2 in Hk.
    assert (k = 0 ∨ k = 1 ∨ k = 2) as [-> | [-> | ->]] by lia; vm_compute; reflexivity.
Defined.






(** ** The mosaic: boxes and progress *)

Lemma py_range_snoc (n : nat) :
  py_range 0 (Z.of_nat (S n)) = (py_range 0 (Z.of_nat n) ++ [Z.of_nat n])%list.
Proof.
  unfold py_range.
  replace (Z.of_nat (S n) - 0) with (Z.of_nat n + 1) by lia.
  rewrite seqZ_app by lia. rewrite Z.sub_0_r. f_equal.
Qed.

Lemma axis_offset first rest n :
  0 <= n →
  py_sum (map (fun c => if c =? 0 then first else rest) (py_range 0 n))
  = if n =? 0 then 0 else first + (n - 1) * rest.
Proof.
  intros Hn. rewrite <- (Z2Nat.id n) by done. clear Hn.
  induction (Z.to_nat n) as [|k IH]; [done|].
  rewrite py_range_snoc, map_app. unfold py_sum in *. rewrite fold_left_app, IH. simpl.
  destruct k as [|k]; [simpl; lia|].
  assert ((Z.of_nat (S k) =? 0) = false) as -> by (apply Z.eqb_neq; lia).
  lia.
Qed.

(** The boxes of the mosaic tile the canvas: column 0 starts at x = 0 and
    row 0 at y = 0, each box ends where its right and lower neighbours
    start, and the boxes of the last column and row end at the canvas
    edges [total_width] and [total_height]. *)
Theorem export_cells_tile font self l row col x y x2 y2 :
  export_layout font self = Ok l →
  0 <= row → 0 <= col →
  cell_box l self row col = (x, y, x2, y2) →
  cell_box l self row (col + 1) = (x2, y, x2 + cell_size self, y2) ∧
  cell_box l self (row + 1) col = (x, y2, x2, y2 + cell_size self) ∧
  (col = 0 → x = 0) ∧ (row = 0 → y = 0) ∧
  (col = max_cols self - 1 → x2 = total_width l) ∧
  (row = max_rows self - 1 → y2 = total_height l).
Proof.
  intros Hl Hrow Hcol.
  assert (total_width l = column_0_width l + (max_cols self - 1) * cell_size self ∧
          total_height l = row_0_height l + (max_rows self - 1) * cell_size self)
    as [Hw Hh].
  { unfold export_layout in Hl. destruct (export_row_0_height font self); [|done].
    simpl in Hl. by inversion Hl. }
  unfold cell_box, cell_width, cell_height. rewrite !axis_offset by lia.
  assert ((col + 1 =? 0) = false) as -> by (apply Z.eqb_neq; lia).
  assert ((row + 1 =? 0) = false) as -> by (apply Z.eqb_neq; lia).
  intros Hbox. inversion Hbox; subst; clear Hbox.
  destruct (col =? 0) eqn:Hc0; [apply Z.eqb_eq in Hc0|apply Z.eqb_neq in Hc0];
    (destruct (row =? 0) eqn:Hr0; [apply Z.eqb_eq in Hr0|apply Z.eqb_neq in Hr0]);
    split_and!; try (intros; lia);
    repeat match goal with |- (_, _) = (_, _) => apply f_equal2 end; lia.
Qed.

Lemma export_cells_tile_witness :
  cell_box layout_demo viewer_demo 4 (2 + 1) = (728, 1156, 728 + cell_size viewer_demo, 1456) ∧
  cell_box layout_demo viewer_demo (4 + 1) 2 = (428, 1456, 728, 1456 + cell_size viewer_demo) ∧
  (2 = 0 → 428 = 0) ∧ (4 = 0 → 1156 = 0) ∧
  (2 = max_cols viewer_demo - 1 → 728 = total_width layout_demo) ∧
  (4 = max_rows viewer_demo - 1 → 1456 = total_height layout_demo).
Proof.
  apply (export_cells_tile arial_demo viewer_demo layout_demo 4 2 428 1156 728 1456).
  - vm_compute. reflexivity.
  - lia.
  - lia.
  - vm_compute. reflexivity.
Defined.

Lemma build_grid_rectangular fs base sub g :
  build_grid fs base sub = Ok g →
  ∃ n : nat, ∀ row cells, g !! row = Some cells → length cells = S n.
Proof.
  intros Hg.
  destruct (build_grid_cases _ _ _ _ Hg) as (entries & Hls & [[_ ->]|(_ & names & ->)]).
  { exists 0%nat. intros row cells Hrow. by rewrite lookup_empty in Hrow. }
  exists (length (folders_of sub (filter (fun f => has_supported_ext f = true) entries))).
  intros row cells Hrow.
  destruct (decide (2 <= row)) as [Hge|Hlt].
  - rewrite fill_rows_lookup_ge in Hrow by done.
    destruct (sorted (elements names) !! Z.to_nat (row - 2)) as [f|].
    + inversion Hrow; subst. unfold variant_row. simpl. by rewrite length_map.
    + by rewrite !lookup_insert_ne, lookup_empty in Hrow by lia.
  - rewrite fill_rows_lookup_lt in Hrow by lia.
    destruct (decide (row = 1)) as [->|]; [|destruct (decide (row = 0)) as [->|]].
    + rewrite lookup_insert_eq in Hrow. inversion Hrow; subst. simpl.
      by rewrite length_map.
    + rewrite lookup_insert_ne, lookup_insert_eq in Hrow by done.
      inversion Hrow; subst. simpl. by rewrite length_map.
    + by rewrite !lookup_insert_ne, lookup_empty in Hrow by done.
Qed.

Lemma grid_max_cols_uniform (g : gmap Z (list string)) (n : nat) :
  (∀ row cells, g !! row = Some cells → length cells = n) →
  grid_max_cols g = if decide (g = ∅) then 0 else Z.of_nat n.
Proof.
  unfold grid_max_cols. destruct (decide (g = ∅)) as [|Hne]; [done|].
  assert (∀ m : gmap Z (list string),
            (∀ row cells, m !! row = Some cells → length cells = n) →
            map_fold (fun _ row acc => Z.max (Z.of_nat (length row)) acc) 0 m
            = if decide (m = ∅) then 0 else Z.of_nat n) as Hfold.
  { apply (map_fold_weak_ind
             (fun r (m : gmap Z (list string)) =>
                (∀ row cells, m !! row = Some cells → length cells = n) →
                r = if decide (m = ∅) then 0 else Z.of_nat n)).
    - intros _. by destruct (decide _).
    - intros i x m' r Hi IH Hrows.
      rewrite (Hrows i x) by apply lookup_insert_eq.
      rewrite IH.
      + destruct (decide (<[i:=x]> m' = ∅)) as [He|_];
          [by apply insert_non_empty in He|].
        destruct (decide (m' = ∅)); lia.
      + intros row cells Hrow. apply (Hrows row). rewrite lookup_insert_ne; [done|].
        intros ->. by rewrite Hi in Hrow. }
  intros Hrows. rewrite (Hfold g Hrows). by destruct (decide (g = ∅)).
Qed.

(** ** The constructor *)

Lemma update_cell_sizes_frame DEFAULT_CELL_SIZE self self' :
  update_cell_sizes DEFAULT_CELL_SIZE self = Ok self' →
  ∃ cw rh,
    self' = set_viewport (cell_size self) (zoom_level self) (scroll_offset self) cw rh self ∧
    length cw = Z.to_nat (max_cols self) ∧ length rh = Z.to_nat (max_rows self).
Proof.
  unfold update_cell_sizes.
  destruct (zoomed_cell_size DEFAULT_CELL_SIZE (zoom_level self)) as [z|]; [|done].
  simpl. intros Hu. inversion Hu; subst; clear Hu.
  eexists _, _. split; [done|]. by rewrite !length_map_py_range.
Qed.

Lemma reset_viewport_frame DEFAULT_CELL_SIZE screen_size self self' :
  reset_viewport DEFAULT_CELL_SIZE screen_size self = Ok self' →
  DEFAULT_CELL_SIZE ≠ 0 ∧
  ∃ cs zl cw rh,
    self' = set_viewport cs zl (Int 0, Int 0) cw rh self ∧
    length cw = Z.to_nat (max_cols self) ∧ length rh = Z.to_nat (max_rows self).
Proof.
  unfold reset_viewport. destruct screen_size as [screen_width screen_height].
  unfold floordiv. destruct (DEFAULT_CELL_SIZE =? 0) eqn:Hd; simpl; [done|].
  apply Z.eqb_neq in Hd. intros Hr. split; [done|].
  assert (∃ cs zl,
            update_cell_sizes DEFAULT_CELL_SIZE
              (set_viewport cs zl (Int 0, Int 0) (col_widths self) (row_heights self) self)
            = Ok self') as (cs & zl & Hu).
  { destruct ((screen_width / DEFAULT_CELL_SIZE <? 3)
              || ((screen_height - INFO_HEIGHT) / DEFAULT_CELL_SIZE <? 3)).
    - returned Hr. by eexists _, _.
    - simpl in Hr. by eexists _, _. }
  destruct (update_cell_sizes_frame _ _ _ Hu) as (cw & rh & -> & Hcw & Hrh).
  exists cs, zl, cw, rh. by destruct self.
Qed.

(** What [__init__] leaves behind, field by field. *)
Lemma init_frame fs image_dims DEFAULT_CELL_SIZE screen_size base sub self :
  init fs image_dims DEFAULT_CELL_SIZE screen_size base sub = Ok self →
  ∃ g cs zl cw rh resolution,
    build_grid fs base sub = Ok g ∧
    length cw = Z.to_nat (grid_max_cols g) ∧ length rh = size g ∧
    self = {| export_queue := []; export_in_progress := false;
              current_progress := Int 0; current_message := "";
              subfolders_dir := sub; base_folder := base;
              grid := g; image_cache := ∅;
              cell_size := cs; zoom_level := zl;
              scroll_offset := (Int 0, Int 0);
              fullscreen_image := None; fullscreen_original := None;
              max_rows := Z.of_nat (size g); max_cols := grid_max_cols g;
              col_widths := cw; row_heights := rh;
              base_resolution := resolution;
              fullscreen_row := None; fullscreen_col := None |}.
Proof.
  unfold init. destruct (build_grid fs base sub) as [g|] eqn:Hg; simpl; [|done].
  destruct (update_cell_sizes _ _) as [self1|] eqn:Hu; simpl; [|done].
  destruct (get_base_resolution fs image_dims base) as [resolution|]; simpl; [|done].
  intros Hr.
  destruct (update_cell_sizes_frame _ _ _ Hu) as (cw1 & rh1 & -> & _ & _).
  destruct (reset_viewport_frame _ _ _ _ Hr) as (_ & cs & zl & cw & rh & -> & Hcw & Hrh).
  simpl in *. exists g, cs, zl, cw, rh, resolution. split_and!; try done. lia.
Qed.

(** The constructor leaves a consistent viewer: the grid is the one
    [build_grid] returns, [max_rows] is its number of rows and every row has
    [max_cols] cells, there is one width per column and one height per row,
    the view is at the origin, no cell is focused, no export runs and the
    cache is empty. *)
Theorem init_establishes fs image_dims DEFAULT_CELL_SIZE screen_size base sub self :
  init fs image_dims DEFAULT_CELL_SIZE screen_size base sub = Ok self →
  build_grid fs base sub = Ok (grid self) ∧
  max_rows self = Z.of_nat (size (grid self)) ∧
  (∀ row cells, grid self !! row = Some cells → Z.of_nat (length cells) = max_cols self) ∧
  Z.of_nat (length (col_widths self)) = max_cols self ∧
  Z.of_nat (length (row_heights self)) = max_rows self ∧
  scroll_offset self = (Int 0, Int 0) ∧
  browsing self ∧ export_in_progress self = false ∧ image_cache self = ∅.
Proof.
  intros Hinit.
  destruct (init_frame _ _ _ _ _ _ _ Hinit)
    as (g & cs & zl & cw & rh & resolution & Hg & Hcw & Hrh & ->). simpl.
  destruct (build_grid_rectangular _ _ _ _ Hg) as (n & Hrect).
  pose proof (grid_max_cols_uniform g (S n) Hrect) as Hmax.
  split_and!; try done.
  - intros row cells Hrow. rewrite Hmax, (Hrect row cells Hrow).
    destruct (decide (g = ∅)) as [->|]; [by rewrite lookup_empty in Hrow|done].
  - rewrite Hcw, Hmax. destruct (decide (g = ∅)); lia.
  - lia.
Qed.

Lemma init_establishes_witness :
  build_grid fs_demo "base" "var" = Ok (grid viewer_initial) ∧
  max_rows viewer_initial = Z.of_nat (size (grid viewer_initial)) ∧
  (∀ row cells, grid viewer_initial !! row = Some cells →
                Z.of_nat (length cells) = max_cols viewer_initial) ∧
  Z.of_nat (length (col_widths viewer_initial)) = max_cols viewer_initial ∧
  Z.of_nat (length (row_heights viewer_initial)) = max_rows viewer_initial ∧
  scroll_offset viewer_initial = (Int 0, Int 0) ∧
  browsing viewer_initial ∧ export_in_progress viewer_initial = false ∧
  image_cache viewer_initial = ∅.
Proof.
  apply (init_establishes fs_demo dims_demo 640 (1024, 768) "base" "var").
  vm_compute. reflexivity.
Defined.

Lemma count_fold {A : Type} (l : list A) :
  ∀ acc, fold_left (fun processed_cells _ => processed_cells + 1) l acc
         = acc + Z.of_nat (length l).
Proof. induction l as [|x l IH]; intros acc; simpl; [lia|]. rewrite IH. lia. Qed.

Lemma processed_cells_fold (g : gmap Z (list string)) (w : nat) :
  ∀ rows acc,
    Forall (fun row => ∃ cells, g !! row = Some cells ∧ length cells = w) rows →
    fold_left
      (fun processed_cells row =>
         match g !! row with
         | Some cells =>
             fold_left (fun processed_cells _ => processed_cells + 1)
               (py_range 0 (Z.of_nat (length cells))) processed_cells
         | None => processed_cells
         end) rows acc
    = acc + Z.of_nat (length rows) * Z.of_nat w.
Proof.
  induction rows as [|row rows IH]; intros acc Hrows; simpl; [lia|].
  inversion Hrows as [|? ? (cells & Hcells & Hlen) Hrest]; subst.
  rewrite Hcells, count_fold, IH by done.
  unfold py_range. rewrite length_seqZ. lia.
Qed.

(** On a viewer as the constructor leaves it, the drawing loop of the PNG
    export counts exactly [total_cells = max_cols * max_rows] cells: the
    progress it reports ends at 1, and on an empty grid the loop does not
    run at all. *)
Theorem export_grid_counts_every_cell fs image_dims DEFAULT_CELL_SIZE screen_size base sub
    self :
  init fs image_dims DEFAULT_CELL_SIZE screen_size base sub = Ok self →
  export_processed_cells self = max_cols self * max_rows self.
Proof.
  intros Hinit.
  destruct (init_frame _ _ _ _ _ _ _ Hinit)
    as (g & cs & zl & cw & rh & resolution & Hg & Hcw & Hrh & ->).
  unfold export_processed_cells. simpl.
  destruct (build_grid_rectangular _ _ _ _ Hg) as (n & Hrect).
  rewrite (processed_cells_fold g (S n)).
  - rewrite (grid_max_cols_uniform g (S n) Hrect).
    unfold py_range. rewrite length_seqZ.
    destruct (decide (g = ∅)) as [->|]; [by rewrite map_size_empty|lia].
  - apply Forall_forall. intros row Hin. apply elem_of_py_range in Hin.
    destruct (proj2 (build_grid_keys _ _ _ _ Hg row) Hin) as [cells Hcells].
    exists cells. split; [done|]. by apply (Hrect row).
Qed.

Lemma export_grid_counts_every_cell_witness :
  export_processed_cells viewer_initial = max_cols viewer_initial * max_rows viewer_initial.
Proof.
  apply (export_grid_counts_every_cell fs_demo dims_demo 640 (1024, 768) "base" "var").
  vm_compute. reflexivity.
Defined.

(** ** The default cell size *)

Lemma max_resolution_fold (image_dims : string → option (Z * Z)) folder :
  ∀ entries acc,
    let max_res :=
      fold_left
        (fun max_res filename =>
           if has_supported_ext filename then
             match image_dims (path_join folder filename) with
             | Some (width, height) => Z.max (Z.max max_res width) height
             | None => max_res
             end
           else max_res)
        entries acc in
    acc <= max_res ∧
    (∀ filename width height,
       filename ∈ entries → has_supported_ext filename = true →
       image_dims (path_join folder filename) = Some (width, height) →
       width <= max_res ∧ height <= max_res) ∧
    (max_res = acc ∨
     ∃ filename width height,
       filename ∈ entries ∧ has_supported_ext filename = true ∧
       image_dims (path_join folder filename) = Some (width, height) ∧
       (max_res = width ∨ max_res = height)).
Proof.
  induction entries as [|f entries IH]; intros acc; simpl.
  { split; [lia|]. split; [|by left]. intros ? ? ? Hin. by apply elem_of_nil in Hin. }
  set (acc' := if has_supported_ext f then _ else acc).
  destruct (IH acc') as (Hle & Hall & Hsome).
  assert (acc <= acc') as Hacc.
  { subst acc'. destruct (has_supported_ext f); [|lia].
    destruct (image_dims _) as [[w h]|]; lia. }
  split; [lia|]. split.
  - intros filename width height Hin Hext Hdims.
    apply elem_of_cons in Hin as [->|Hin]; [|by apply (Hall filename)].
    assert (width <= acc' ∧ height <= acc')
      by (subst acc'; rewrite Hext, Hdims; lia).
    lia.
  - destruct Hsome as [Heq|(filename & width & height & Hin & Hext & Hdims & Hmax)].
    + rewrite Heq. subst acc'.
      destruct (has_supported_ext f) eqn:Hext; [|by left].
      destruct (image_dims (path_join folder f)) as [[w h]|] eqn:Hdims; [|by left].
      destruct (decide (Z.max (Z.max acc w) h = acc)) as [->|Hne]; [by left|].
      right. exists f, w, h. split_and!; try done; [apply list_elem_of_here|lia].
    + right. exists filename, width, height. split_and!; try done.
      by apply list_elem_of_further.
Qed.

(** [get_max_image_resolution] returns a positive size, at least as large
    as each side of every supported image of the folder that opens; it is
    10 or a side of one of those images. *)
Theorem get_max_image_resolution_bounds fs image_dims folder entries size :
  listdir fs folder = Some entries →
  get_max_image_resolution fs image_dims folder = Ok size →
  0 < size ∧
  (∀ filename width height,
     filename ∈ entries → has_supported_ext filename = true →
     image_dims (path_join folder filename) = Some (width, height) →
     width <= size ∧ height <= size) ∧
  (size = 10 ∨
   ∃ filename width height,
     filename ∈ entries ∧ has_supported_ext filename = true ∧
     image_dims (path_join folder filename) = Some (width, height) ∧
     (size = width ∨ size = height)).
Proof.
  intros Hls. unfold get_max_image_resolution, os_listdir. rewrite Hls. simpl.
  destruct (max_resolution_fold image_dims folder entries 0) as (Hle & Hall & Hsome).
  intros Hsize. inversion Hsize; subst; clear Hsize.
  destruct (0 <? _) eqn:Hpos.
  - apply Z.ltb_lt in Hpos. split; [done|]. split; [done|].
    destruct Hsome as [Heq|Hsome]; [lia|by right].
  - apply Z.ltb_ge in Hpos. split; [lia|]. split; [|by left].
    intros filename width height Hin Hext Hdims.
    destruct (Hall filename width height Hin Hext Hdims). lia.
Qed.

Lemma get_max_image_resolution_bounds_witness :
  0 < 640 ∧
  (∀ filename width height,
     filename ∈ ["x.png"; "notes.txt"; "A.JPG"] → has_supported_ext filename = true →
     dims_demo (path_join "base" filename) = Some (width, height) →
     width <= 640 ∧ height <= 640) ∧
  (640 = 10 ∨
   ∃ filename width height,
     filename ∈ ["x.png"; "notes.txt"; "A.JPG"] ∧ has_supported_ext filename = true ∧
     dims_demo (path_join "base" filename) = Some (width, height) ∧
     (640 = width ∨ 640 = height)).
Proof.
  apply (get_max_image_resolution_bounds fs_demo dims_demo "base").
  - reflexivity.
  - vm_compute. reflexivity.
Defined.

(** ** The HTML export: progress past the end *)

Lemma range_sum_cons F g row rows acc :
  range_sum F g (row :: rows) acc
  = range_sum F g rows
      (match g !! row with Some cells => acc + F row cells | None => acc end).
Proof. reflexivity. Qed.

Lemma range_sum_acc F g :
  ∀ rows acc, range_sum F g rows acc = acc + range_sum F g rows 0.
Proof.
  unfold range_sum. induction rows as [|row rows IH]; intros acc; simpl; [lia|].
  destruct (g !! row) as [cells|]; [|apply IH].
  rewrite IH, (IH (0 + F row cells)). lia.
Qed.

Lemma range_sum_add F G g :
  ∀ rows acc acc',
    range_sum (fun row cells => F row cells + G row cells) g rows (acc + acc')
    = range_sum F g rows acc + range_sum G g rows acc'.
Proof.
  unfold range_sum. induction rows as [|row rows IH]; intros acc acc'; simpl; [done|].
  destruct (g !! row) as [cells|]; [|apply IH].
  rewrite <- IH. f_equal. lia.
Qed.

Lemma range_sum_ext F G g g' :
  ∀ rows acc,
    Forall (fun row => g !! row = g' !! row ∧
                       ∀ cells, g !! row = Some cells → F row cells = G row cells) rows →
    range_sum F g rows acc = range_sum G g' rows acc.
Proof.
  unfold range_sum. induction rows as [|row rows IH]; intros acc Hrows; simpl; [done|].
  inversion Hrows as [|? ? [Hg HF] Hrest]; subst. rewrite <- Hg.
  destruct (g !! row) as [cells|]; [|by apply IH].
  rewrite (HF cells eq_refl). by apply IH.
Qed.

(** A sum over the values of a dict whose keys are 0 .. n-1 is the sum over
    [range(n)]. *)
Lemma map_fold_range_sum F :
  ∀ (n : nat) (g : gmap Z (list string)),
    (∀ row, is_Some (g !! row) ↔ 0 <= row < Z.of_nat n) →
    map_fold (fun row cells acc => acc + F row cells) 0 g
    = range_sum F g (py_range 0 (Z.of_nat n)) 0.
Proof.
  induction n as [|n IH]; intros g Hkeys.
  { assert (g = ∅) as ->.
    { apply map_empty. intros row. apply eq_None_not_Some. rewrite Hkeys. lia. }
    by rewrite map_fold_empty. }
  destruct (proj2 (Hkeys (Z.of_nat n))) as [cells Hcells]; [lia|].
  rewrite (map_fold_delete_L _ _ (Z.of_nat n) cells) by (intros; lia || done).
  rewrite (IH (delete (Z.of_nat n) g)).
  - rewrite py_range_snoc. unfold range_sum. rewrite fold_left_app. simpl.
    rewrite Hcells. f_equal. apply (range_sum_ext F F).
    apply Forall_forall. intros row Hin%elem_of_py_range.
    split; [|done]. apply lookup_delete_ne. lia.
  - intros row. destruct (decide (row = Z.of_nat n)) as [->|Hne].
    + rewrite lookup_delete_eq. split; [by intros [? ?]|lia].
    + rewrite lookup_delete_ne by done. rewrite Hkeys. lia.
Qed.

Lemma filter_cons_length {A : Type} (P : A → bool) (x : A) (l : list A) :
  length (filter (fun x => P x = true) (x :: l))
  = ((if P x then 1 else 0) + length (filter (fun x => P x = true) l))%nat.
Proof.
  rewrite filter_cons. destruct (decide (P x = true)) as [Hx|Hx].
  - by rewrite Hx.
  - apply not_true_is_false in Hx. by rewrite Hx.
Qed.

(** The condition under which a cell costs a second step. *)
Lemma html_steps_fold image_ok row_idx :
  ∀ (cells : list (Z * string)) processed,
    fold_left
      (fun processed '(col_idx, value) =>
         processed + html_cell_steps image_ok row_idx col_idx value)
      cells processed
    = processed + Z.of_nat (length cells)
      + Z.of_nat (length (filter
                            (fun cell : Z * string =>
                               negb (row_idx =? 0) && negb (cell.1 =? 0)
                               && negb (startswith cell.2 PLACEHOLDER)
                               && image_ok cell.2 = true)
                            cells)).
Proof.
  induction cells as [|[col_idx value] cells IH]; intros processed; [simpl; lia|].
  rewrite (filter_cons_length
             (fun cell : Z * string =>
                negb (row_idx =? 0) && negb (cell.1 =? 0)
                && negb (startswith cell.2 PLACEHOLDER) && image_ok cell.2)).
  simpl. rewrite IH. unfold html_cell_steps.
  destruct (row_idx =? 0); simpl; [lia|].
  destruct (col_idx =? 0); simpl; [lia|].
  destruct (startswith value PLACEHOLDER); simpl; [lia|].
  destruct (image_ok value); simpl; lia.
Qed.

Lemma filter_length_ext {A : Type} (P Q : A → bool) (l : list A) :
  Forall (fun x => P x = Q x) l →
  length (filter (fun x => P x = true) l) = length (filter (fun x => Q x = true) l).
Proof.
  induction 1 as [|x l Hx _ IH]; [done|].
  rewrite !filter_cons, Hx.
  destruct (decide (Q x = true)); simpl; by rewrite IH.
Qed.

Lemma enumerate_from {A : Type} (P : Z * A → bool) (Q : A → bool) (l : list A) :
  ∀ k : nat,
    (∀ (i : nat) x, (k <= i)%nat → P (Z.of_nat i, x) = Q x) →
    length (filter (fun cell => P cell = true)
              (imap (fun i x => (Z.of_nat (k + i), x)) l))
    = length (filter (fun x => Q x = true) l).
Proof.
  induction l as [|x l IH]; intros k HPQ; [done|].
  rewrite imap_cons, !filter_cons. rewrite Nat.add_0_r, (HPQ k x) by lia.
  assert (length (filter (fun cell => P cell = true)
                    (imap ((fun i x => (Z.of_nat (k + i), x)) ∘ S) l))
          = length (filter (fun x => Q x = true) l)) as Hrest.
  { rewrite <- (IH (S k)) by (intros; apply HPQ; lia).
    f_equal. f_equal. apply imap_ext. intros i y _. simpl. do 2 f_equal. lia. }
  destruct (decide (Q x = true)); simpl; by rewrite Hrest.
Qed.

(** With every image converted, the HTML export takes more steps than the
    [total_work] it divides by: [total_images] leaves out row 1, so each
    base image shown there adds a step that was not counted, and the
    progress reported ends above 1 by that many steps. *)
Theorem html_export_overcounts fs image_dims DEFAULT_CELL_SIZE screen_size base sub self
    image_ok :
  init fs image_dims DEFAULT_CELL_SIZE screen_size base sub = Ok self →
  (∀ path, image_ok path = true) →
  html_processed image_ok self
  = html_total_work self
    + Z.of_nat (length (filter (fun path => negb (startswith path PLACEHOLDER) = true)
                          (base_image_cells self))).
Proof.
  intros Hinit Hok.
  destruct (init_frame _ _ _ _ _ _ _ Hinit)
    as (g & cs & zl & cw & rh & resolution & Hg & Hcw & Hrh & ->).
  pose proof (build_grid_keys _ _ _ _ Hg) as Hkeys.
  unfold html_processed, html_total_work, html_total_cells, html_total_images,
    base_image_cells. simpl.
  rewrite (map_fold_range_sum (fun _ row => Z.of_nat (length row)) (size g) g Hkeys).
  rewrite (map_fold_range_sum
             (fun row_idx row =>
                Z.of_nat (length (filter (fun cell => counted_image row_idx cell = true)
                                    (enumerate row)))) (size g) g Hkeys).
  set (extra := fun (row_idx : Z) (row : list string) =>
                  Z.of_nat (length (filter
                                      (fun cell : Z * string =>
                                         negb (row_idx =? 0) && negb (cell.1 =? 0)
                                         && negb (startswith cell.2 PLACEHOLDER)
                                         && image_ok cell.2 = true)
                                      (enumerate row)))).
  set (images := fun (row_idx : Z) (row : list string) =>
                   Z.of_nat (length (filter (fun cell => counted_image row_idx cell = true)
                                       (enumerate row)))).
  set (rows := py_range 0 (Z.of_nat (size g))).
  assert (∀ l acc,
            fold_left
              (fun processed row_idx =>
                 match g !! row_idx with
                 | Some row =>
                     fold_left
                       (fun processed '(col_idx, value) =>
                          processed + html_cell_steps image_ok row_idx col_idx value)
                       (enumerate row) processed
                 | None => processed
                 end) l acc
            = range_sum (fun row_idx row => Z.of_nat (length row) + extra row_idx row)
                g l acc) as ->.
  { unfold range_sum. induction l as [|row_idx l IH]; intros acc; simpl; [done|].
    rewrite IH. destruct (g !! row_idx) as [row|]; [|done].
    rewrite html_steps_fold. unfold enumerate at 1. rewrite length_imap.
    f_equal. subst extra. simpl. lia. }
  change 0 with (0 + 0) at 1. rewrite range_sum_add.
  rewrite <- Z.add_assoc. f_equal.
  (* the rows other than row 1 add what was counted *)
  assert (∀ row_idx row,
            0 <= row_idx → row_idx ≠ 1 → extra row_idx row = images row_idx row) as Hsame.
  { intros row_idx row H0 H1. subst extra images. simpl. f_equal.
    apply filter_length_ext. apply Forall_forall.
    intros [col_idx value] Hin. unfold counted_image. simpl. rewrite Hok.
    apply list_elem_of_lookup in Hin as [i Hi]. unfold enumerate in Hi.
    rewrite list_lookup_imap in Hi. destruct (row !! i); simpl in Hi; [|done].
    inversion Hi; subst. destruct (startswith value PLACEHOLDER); simpl.
    { by rewrite !andb_false_r. }
    rewrite andb_true_r.
    destruct (decide (row_idx = 0)) as [->|Hr0]; [done|].
    assert ((row_idx =? 0) = false) as -> by (by apply Z.eqb_neq).
    assert ((1 <? row_idx) = true) as -> by (apply Z.ltb_lt; lia).
    simpl. destruct i as [|i]; [done|].
    assert ((Z.of_nat (S i) =? 0) = false) as -> by (apply Z.eqb_neq; lia).
    assert ((0 <? Z.of_nat (S i)) = true) as -> by (apply Z.ltb_lt; lia).
    done. }
  assert (∀ row, images 1 row = 0) as Himg1.
  { intros row. subst images. simpl.
    rewrite (filter_length_ext _ (fun _ => false)); [|apply Forall_forall; intros cell _;
      unfold counted_image; simpl; by rewrite andb_false_r].
    by induction (enumerate row). }
  assert (∀ label paths,
            extra 1 (label :: paths)
            = Z.of_nat (length (filter (fun path => negb (startswith path PLACEHOLDER) = true)
                                  paths))) as Hbase.
  { intros label paths. subst extra. simpl. f_equal.
    unfold enumerate. rewrite imap_cons.
    rewrite (filter_cons_length
               (fun cell : Z * string =>
                  negb (1 =? 0) && negb (cell.1 =? 0)
                  && negb (startswith cell.2 PLACEHOLDER) && image_ok cell.2)).
    simpl.
    apply (enumerate_from
             (fun cell : Z * string =>
                negb (cell.1 =? 0) && negb (startswith cell.2 PLACEHOLDER) && image_ok cell.2)
             (fun path => negb (startswith path PLACEHOLDER)) paths 1).
    intros i x Hi. simpl. rewrite Hok, andb_true_r.
    assert ((Z.of_nat i =? 0) = false) as -> by (apply Z.eqb_neq; lia). done. }
  subst rows. destruct (size g) as [|[|n]] eqn:Hsize.
  - assert (g !! 1 = None) as ->.
    { apply eq_None_not_Some. rewrite Hkeys. lia. }
    done.
  - assert (g !! 1 = None) as Hnone.
    { apply eq_None_not_Some. rewrite Hkeys. lia. }
    rewrite Hnone. rewrite Z.add_0_r. apply range_sum_ext.
    apply Forall_forall. intros row_idx Hin%elem_of_py_range.
    split; [done|]. intros row _. apply Hsame; lia.
  - assert (py_range 0 (Z.of_nat (S (S n))) = 0 :: 1 :: py_range 2 (Z.of_nat (S (S n))))
      as ->.
    { unfold py_range. rewrite (seqZ_cons 0) by lia. rewrite (seqZ_cons (Z.succ 0)) by lia.
      do 2 f_equal. f_equal; lia. }
    destruct (proj2 (Hkeys 0)) as [row0 Hrow0]; [lia|].
    destruct (proj2 (Hkeys 1)) as [row1 Hrow1]; [lia|].
    rewrite !range_sum_cons, Hrow0, Hrow1.
    rewrite (Hsame 0 row0) by lia. rewrite Himg1.
    rewrite (range_sum_acc extra), (range_sum_acc images).
    rewrite (range_sum_ext extra images g g _ 0).
    2:{ apply Forall_forall. intros row_idx Hin%elem_of_py_range.
        split; [done|]. intros row _. apply Hsame; lia. }
    destruct row1 as [|label paths]; [|rewrite Hbase; lia].
    assert (extra 1 [] = 0) as -> by done. rewrite filter_nil. simpl. lia.
Qed.

Lemma html_export_overcounts_witness :
  html_processed (fun _ => true) viewer_initial
  = html_total_work viewer_initial
    + Z.of_nat (length (filter (fun path => negb (startswith path PLACEHOLDER) = true)
                          (base_image_cells viewer_initial))).
Proof.
  apply (html_export_overcounts fs_demo dims_demo 640 (1024, 768) "base" "var").
  - vm_compute. reflexivity.
  - reflexivity.
Defined.

(** ** The click and the rectangle *)

Lemma py_sum_acc l : ∀ acc, fold_left Z.add l acc = acc + py_sum l.
Proof.
  unfold py_sum. induction l as [|w l IH]; intros acc; simpl; [lia|].
  rewrite IH, (IH (0 + w)). lia.
Qed.

Lemma py_sum_cons w l : py_sum (w :: l) = w + py_sum l.
Proof. unfold py_sum at 1. simpl. rewrite py_sum_acc. lia. Qed.

Lemma py_sum_snoc l w : py_sum (l ++ [w]) = py_sum l + w.
Proof. unfold py_sum at 1. rewrite fold_left_app. simpl. by unfold py_sum. Qed.

Lemma positions_fold :
  ∀ (l ps : list Z) (p : Z),
    last ps = Some p →
    let r := fold_left (fun positions w => positions ++ [default 0 (last positions) + w])%list
               l ps in
    length r = (length ps + length l)%nat ∧
    (∀ j, (j < length ps)%nat → r !! j = ps !! j) ∧
    (∀ i, (i <= length l)%nat →
          r !! (length ps - 1 + i)%nat = Some (p + py_sum (take i l))).
Proof.
  induction l as [|w l IH]; intros ps p Hlast; simpl.
  { split; [lia|]. split; [done|]. intros i Hi. assert (i = 0)%nat as -> by lia.
    replace (length ps - 1 + 0)%nat with (pred (length ps)) by lia.
    rewrite <- last_lookup, Hlast. simpl.
    f_equal. unfold py_sum. simpl. lia. }
  assert (length ps ≠ 0)%nat as Hps by (by destruct ps).
  rewrite Hlast. simpl.
  destruct (IH (ps ++ [p + w])%list (p + w)) as (Hlen & Hpre & Hsum).
  { by rewrite last_snoc. }
  rewrite length_app in Hlen, Hpre, Hsum. simpl in Hlen, Hpre, Hsum.
  split; [lia|]. split.
  - intros j Hj. rewrite Hpre by lia. by rewrite lookup_app_l.
  - intros [|i] Hi.
    + rewrite Hpre by lia. rewrite lookup_app_l by lia.
      replace (length ps - 1 + 0)%nat with (pred (length ps)) by lia.
      rewrite <- last_lookup, Hlast.
      f_equal. unfold py_sum. simpl. lia.
    + replace (length ps - 1 + S i)%nat with (length ps + 1 - 1 + i)%nat by lia.
      rewrite Hsum by lia. simpl. rewrite py_sum_cons. f_equal. lia.
Qed.

Lemma length_positions start sizes :
  length (positions start sizes) = Init.Nat.max 1 (length sizes).
Proof.
  unfold positions.
  destruct (positions_fold (removelast sizes) [start] start eq_refl) as (Hlen & _).
  rewrite Hlen. simpl. rewrite removelast_firstn_len, length_take. lia.
Qed.

Lemma positions_lookup start sizes (i : nat) :
  (i < length sizes)%nat →
  positions start sizes !! i = Some (start + py_sum (take i sizes)).
Proof.
  intros Hi. unfold positions.
  destruct (positions_fold (removelast sizes) [start] start eq_refl) as (_ & _ & Hsum).
  specialize (Hsum i). simpl in Hsum.
  rewrite removelast_firstn_len in Hsum |- *. rewrite length_take in Hsum.
  rewrite Hsum by lia. rewrite take_take.
  by replace (i `min` Init.Nat.pred (length sizes))%nat with i by lia.
Qed.

Lemma py_sum_take_S sizes (i : nat) w :
  sizes !! i = Some w → py_sum (take (S i) sizes) = py_sum (take i sizes) + w.
Proof. intros Hw. by rewrite (take_S_r _ _ _ Hw), py_sum_snoc. Qed.

(** What the scan finds: the first cell whose far edge lies past the
    target, so that from the second cell on the near edge does not. *)
Lemma hit_scan_spec :
  ∀ sizes pixel offset accum idx found,
    hit_scan sizes pixel (Int offset) accum idx = Ok found → 0 <= found → 0 <= idx →
    ∃ i : nat,
      found = idx + Z.of_nat i ∧
      (i < length sizes)%nat ∧
      pixel + offset < accum + py_sum (take (S i) sizes) ∧
      ((0 < i)%nat → accum + py_sum (take i sizes) <= pixel + offset).
Proof.
  induction sizes as [|size sizes IH]; intros pixel offset accum idx found Hscan Hfound Hidx;
    simpl in *; [inversion Hscan; lia|].
  destruct (pixel + offset <? accum + size) eqn:Hlt.
  - inversion Hscan; subst found.
    exists 0%nat. apply Z.ltb_lt in Hlt. split_and!; try lia.
    rewrite py_sum_cons. unfold py_sum. simpl. lia.
  - apply Z.ltb_ge in Hlt.
    destruct (IH pixel offset (accum + size) (idx + 1) found Hscan Hfound)
      as (i & Hr & Hi & Hhi & Hlo); [lia|].
    exists (S i). split_and!; try lia.
    + rewrite py_sum_cons. lia.
    + intros _. simpl. rewrite py_sum_cons. destruct i as [|i].
      * unfold py_sum. simpl. lia.
      * specialize (Hlo ltac:(lia)). lia.
Qed.

Lemma load_image_frame image_load path self :
  ∃ cache, (load_image image_load path self).2 = set_image_cache cache self.
Proof.
  unfold load_image. destruct (startswith path PLACEHOLDER); simpl.
  { exists (image_cache self). by destruct self. }
  destruct (image_cache self !! path); simpl.
  - exists (image_cache self). by destruct self.
  - by eexists.
Qed.

(** The hit test of [main] and the rectangles of [draw] agree below the
    info bar: with integer scroll offsets, a click inside the window, at
    [INFO_HEIGHT] or lower, that [main] resolves to the cell [(row, col)]
    resolves to a data cell the grid has, and lies inside the rectangle
    [draw] computes for that cell, which is not skipped as off screen.  (A
    click on the info bar itself is another matter: see
    [click_on_info_bar].) *)
Theorem click_cell_inside_drawn_rect image_load screen_size mouse_pos sx sy row col self :
  scroll_offset self = (Int sx, Int sy) →
  0 <= mouse_pos.1 <= screen_size.1 →
  INFO_HEIGHT <= mouse_pos.2 <= screen_size.2 →
  click_cell mouse_pos self = Ok (Some (row, col)) →
  ∃ cells path self' x y w h,
    1 <= row ∧ 1 <= col ∧
    grid self !! row = Some cells ∧ py_index cells col = Ok path ∧
    draw_cell image_load screen_size
      (positions 0 (col_widths self)) (positions INFO_HEIGHT (row_heights self))
      row cells col self
    = Ok (self', Some (Int x, Int y, w, h)) ∧
    x <= mouse_pos.1 < x + w ∧ y <= mouse_pos.2 < y + h.
Proof.
  destruct mouse_pos as [mx my]. destruct screen_size as [screen_width screen_height].
  simpl. intros Hso Hmx Hmy. unfold click_cell. rewrite Hso. simpl.
  destruct (hit_scan (col_widths self) mx (Int sx) 0 0) as [col_index|] eqn:Hcol;
    simpl; [|done].
  destruct (hit_scan (row_heights self) my (Int sy) INFO_HEIGHT 0) as [row_index|] eqn:Hrow;
    simpl; [|done].
  destruct (0 <=? row_index) eqn:Hr0; simpl; [|done].
  destruct (0 <=? col_index) eqn:Hc0; simpl; [|done].
  destruct (grid self !! row_index) as [cells|] eqn:Hcells; simpl; [|done].
  destruct (col_index <? Z.of_nat (length cells)) eqn:Hclen; simpl; [|done].
  destruct (1 <=? row_index) eqn:Hr1; simpl; [|done].
  destruct (1 <=? col_index) eqn:Hc1; simpl; [|done].
  intros Hclick. inversion Hclick; subst row col; clear Hclick.
  apply Z.leb_le in Hr0, Hc0, Hr1, Hc1. apply Z.ltb_lt in Hclen.
  destruct (hit_scan_spec (col_widths self) mx sx 0 0 col_index Hcol Hc0)
    as (i & Hi & Hilen & Hihi & Hilo); [lia|].
  destruct (hit_scan_spec (row_heights self) my sy INFO_HEIGHT 0 row_index Hrow Hr0)
    as (j & Hj & Hjlen & Hjhi & Hjlo); [lia|].
  destruct (py_index_in_range cells col_index) as [path Hpath]; [lia|].
  destruct (lookup_lt_is_Some_2 (col_widths self) i Hilen) as [w Hw].
  destruct (lookup_lt_is_Some_2 (row_heights self) j Hjlen) as [h Hh].
  rewrite (py_sum_take_S _ _ _ Hw) in Hihi. rewrite (py_sum_take_S _ _ _ Hh) in Hjhi.
  assert (0 < i)%nat as Hipos by lia. assert (0 < j)%nat as Hjpos by lia.
  specialize (Hilo Hipos). specialize (Hjlo Hjpos).
  destruct (load_image_frame image_load path self) as [cache Hload].
  exists cells, path, (set_image_cache cache self),
    (0 + py_sum (take i (col_widths self)) - sx),
    (INFO_HEIGHT + py_sum (take j (row_heights self)) - sy), w, h.
  split; [done|]. split; [done|]. split; [done|]. split; [done|]. split; [|lia].
  unfold draw_cell. rewrite Hpath. simpl.
  destruct (load_image image_load path self) as [img self1]. simpl in Hload. subst self1.
  rewrite (py_index_lookup (positions 0 (col_widths self)) col_index
             (0 + py_sum (take i (col_widths self)))); [|lia|].
  2:{ rewrite Hi, Z.add_0_l, Nat2Z.id. by apply positions_lookup. }
  simpl.
  rewrite (py_index_lookup (positions INFO_HEIGHT (row_heights self)) row_index
             (INFO_HEIGHT + py_sum (take j (row_heights self)))); [|lia|].
  2:{ rewrite Hj, Z.add_0_l, Nat2Z.id. by apply positions_lookup. }
  simpl.
  rewrite (py_index_lookup (col_widths self) col_index w); [|lia|].
  2:{ by rewrite Hi, Z.add_0_l, Nat2Z.id. }
  simpl.
  rewrite (py_index_lookup (row_heights self) row_index h); [|lia|].
  2:{ by rewrite Hj, Z.add_0_l, Nat2Z.id. }
  simpl. rewrite Hso. simpl.
  assert ((0 + py_sum (take i (col_widths self)) - sx + w <? 0) = false) as ->
    by (apply Z.ltb_ge; lia).
  assert ((INFO_HEIGHT + py_sum (take j (row_heights self)) - sy + h <? INFO_HEIGHT) = false)
    as -> by (apply Z.ltb_ge; lia).
  assert ((screen_width <? 0 + py_sum (take i (col_widths self)) - sx) = false) as ->
    by (apply Z.ltb_ge; lia).
  assert ((screen_height <? INFO_HEIGHT + py_sum (take j (row_heights self)) - sy) = false)
    as -> by (apply Z.ltb_ge; lia).
  done.
Qed.

Lemma click_cell_inside_drawn_rect_witness :
  ∃ cells path self' x y w h,
    1 <= 2 ∧ 1 <= 2 ∧
    grid viewer_demo !! 2 = Some cells ∧ py_index cells 2 = Ok path ∧
    draw_cell (fun _ => true) (1024, 768)
      (positions 0 (col_widths viewer_demo))
      (positions INFO_HEIGHT (row_heights viewer_demo))
      2 cells 2 viewer_demo
    = Ok (self', Some (Int x, Int y, w, h)) ∧
    x <= (600, 600).1 < x + w ∧ y <= (600, 600).2 < y + h.
Proof.
  apply (click_cell_inside_drawn_rect (fun _ => true) (1024, 768) (600, 600) 0 0 2 2
           viewer_demo).
  - reflexivity.
  - simpl. lia.
  - unfold INFO_HEIGHT. simpl. lia.
  - vm_compute. reflexivity.
Defined.

(** On the info bar the two part ways: with the view scrolled down by 510
    pixels, a click at (600, 5) is resolved to the base image in row 1,
    column 2, a cell the same frame left undrawn because it ends above the
    grid area. *)
Example click_on_info_bar :
  let self :=
    set_viewport 300 1 (Int 0, Int 510) (col_widths viewer_demo) (row_heights viewer_demo)
      viewer_demo in
  click_cell (600, 5) self = Ok (Some (1, 2)) ∧
  ∃ self',
    draw_cell (fun _ => true) (1024, 768)
      (positions 0 (col_widths self)) (positions INFO_HEIGHT (row_heights self))
      1 ["Base Images"; "base/A.JPG"; "base/x.png"] 2 self
    = Ok (self', None).
Proof. split; [vm_compute; reflexivity|]. eexists. vm_compute. reflexivity. Qed.

(** ** The frame never indexes out of range *)

Lemma bind_Ok {A B : Type} (x : A) (k : A → result B) : (Ok x ≫= k) = k x.
Proof. reflexivity. Qed.

Lemma in_range_bind {A B : Type} (m : result A) (k : A → result B) :
  in_range m → (∀ x, m = Ok x → in_range (k x)) → in_range (m ≫= k).
Proof. destruct m as [x|e]; simpl; [|done]. intros _ Hk. by apply Hk. Qed.

Lemma for_each_in_range {A S : Type} (items : list A) (body : A → S → result S) :
  (∀ x s, x ∈ items → in_range (body x s)) → ∀ s, in_range (for_each items body s).
Proof.
  induction items as [|x items IH]; intros Hbody s; simpl; [done|].
  apply in_range_bind; [apply Hbody, list_elem_of_here|].
  intros s' _. apply IH. intros y t Hy. by apply Hbody, list_elem_of_further.
Qed.

Lemma for_each_ok {A S : Type} (Inv : S → Prop) (items : list A)
    (body : A → S → result S) :
  (∀ x s, x ∈ items → Inv s → ∃ s', body x s = Ok s' ∧ Inv s') →
  ∀ s, Inv s → ∃ s', for_each items body s = Ok s' ∧ Inv s'.
Proof.
  induction items as [|x items IH]; intros Hbody s Hs; simpl; [by exists s|].
  destruct (Hbody x s (list_elem_of_here _ _) Hs) as (s1 & -> & Hs1). simpl.
  apply IH; [|done]. intros y t Hy. by apply Hbody, list_elem_of_further.
Qed.

Lemma int_of_float_in_range f : in_range (int_of_float f).
Proof. unfold int_of_float. by destruct (Prim2SF f). Qed.

Lemma py_int_in_range x : in_range (py_int x).
Proof. destruct x; simpl; [done|apply int_of_float_in_range]. Qed.

Lemma float_of_Z_in_range z : in_range (float_of_Z z).
Proof. by destruct (float_of_Z_cases z) as [[f ->]| ->]. Qed.

Lemma to_float_in_range x : in_range (to_float x).
Proof. destruct x; [apply float_of_Z_in_range|done]. Qed.

Lemma num_add_in_range x y : in_range (num_add x y).
Proof.
  destruct x as [a|f], y as [b|g]; simpl; try done;
    repeat (apply in_range_bind; [apply float_of_Z_in_range|intros ? _]); done.
Qed.

Lemma num_sub_in_range x y : in_range (num_sub x y).
Proof.
  destruct x as [a|f], y as [b|g]; simpl; try done;
    repeat (apply in_range_bind; [apply float_of_Z_in_range|intros ? _]); done.
Qed.

Lemma num_mul_in_range x y : in_range (num_mul x y).
Proof.
  destruct x as [a|f], y as [b|g]; simpl; try done;
    repeat (apply in_range_bind; [apply float_of_Z_in_range|intros ? _]); done.
Qed.

Lemma int_truediv_in_range a b : in_range (int_truediv a b).
Proof.
  unfold int_truediv. destruct (b =? 0); [done|].
  by destruct (SFdiv prec emax (Z_to_SF a) (Z_to_SF b)).
Qed.

Lemma float_truediv_in_range x y : in_range (float_truediv x y).
Proof.
  destruct x as [a|f], y as [b|g]; simpl; try apply int_truediv_in_range;
    repeat (apply in_range_bind; [apply float_of_Z_in_range|intros ? _]);
    by destruct (PrimFloat.eqb _ _).
Qed.

Lemma num_truediv_in_range x y : in_range (num_truediv x y).
Proof. unfold num_truediv. apply in_range_bind; [apply float_truediv_in_range|done]. Qed.

Lemma zoomed_cell_size_in_range DEFAULT_CELL_SIZE zl :
  in_range (zoomed_cell_size DEFAULT_CELL_SIZE zl).
Proof.
  unfold zoomed_cell_size. apply in_range_bind; [apply float_of_Z_in_range|].
  intros d _. apply int_of_float_in_range.
Qed.

Create HintDb in_range.

#[global] Hint Resolve int_of_float_in_range py_int_in_range float_of_Z_in_range
  to_float_in_range num_add_in_range num_sub_in_range num_mul_in_range
  int_truediv_in_range float_truediv_in_range num_truediv_in_range
  zoomed_cell_size_in_range : in_range.

(** A chain of binds whose steps raise no lookup error raises none. *)
Ltac in_range_chain :=
  repeat (apply in_range_bind; [solve [auto with in_range]|intros ? _]).

Lemma draw_wrapped_text_in_range text rect font : in_range (draw_wrapped_text text rect font).
Proof.
  unfold draw_wrapped_text, wrapped_lines. destruct (_ || _); [done|].
  unfold floordiv. destruct (get_height font =? 0); [done|]. simpl.
  by destruct (wrap_loop _ _ _ _ _).
Qed.

Lemma get_visible_cells_bounds screen_width screen_height self :
  in_range (get_visible_cells screen_width screen_height self) ∧
  ∀ start_row end_row start_col end_col,
    get_visible_cells screen_width screen_height self
    = Ok (start_row, end_row, start_col, end_col) →
    0 <= start_row ∧ end_row <= max_rows self ∧ 0 <= start_col ∧ end_col <= max_cols self.
Proof.
  unfold get_visible_cells. split.
  - in_range_chain. done.
  - intros start_row end_row start_col end_col Hv. returned Hv.
    inversion Hv; subst; clear Hv. unfold BUFFER_ROWS, BUFFER_COLS. lia.
Qed.

Lemma scrollbar_in_range offset max_scroll track :
  in_range (scrollbar offset max_scroll track).
Proof. unfold scrollbar. in_range_chain. auto with in_range. Qed.

Lemma draw_scrollbars_in_range screen_width screen_height self :
  in_range (draw_scrollbars screen_width screen_height self).
Proof.
  unfold draw_scrollbars. apply in_range_bind.
  - destruct (0 <? max_rows self); [|done]. destruct (0 <? _); [|done].
    apply in_range_bind; [apply scrollbar_in_range|intros ? _]. in_range_chain. done.
  - intros _ _. destruct (0 <? max_cols self); [|done]. destruct (0 <? _); [|done].
    apply in_range_bind; [apply scrollbar_in_range|done].
Qed.

Lemma draw_progress_bar_in_range self : in_range (draw_progress_bar self).
Proof.
  unfold draw_progress_bar. destruct (negb _); [done|]. in_range_chain. done.
Qed.

Lemma text_rect_in_range rect_coord x y w h : in_range (text_rect rect_coord x y w h).
Proof. unfold text_rect. in_range_chain. done.
Qed.

Lemma well_formed_set_image_cache cache self :
  well_formed self → well_formed (set_image_cache cache self).
Proof. done. Qed.

(** A loop whose body keeps an invariant and raises no lookup error. *)
Lemma for_each_inv {A S : Type} (Inv : S → Prop) (items : list A)
    (body : A → S → result S) :
  (∀ x s, x ∈ items → Inv s →
          in_range (body x s) ∧ ∀ s', body x s = Ok s' → Inv s') →
  ∀ s, Inv s →
       in_range (for_each items body s) ∧ ∀ s', for_each items body s = Ok s' → Inv s'.
Proof.
  induction items as [|x items IH]; intros Hbody s Hs; simpl.
  { split; [done|]. intros s' Hs'. by inversion Hs'; subst. }
  destruct (Hbody x s (list_elem_of_here _ _) Hs) as [Hsafe Hkeep].
  destruct (body x s) as [s1|e]; simpl; [|done].
  apply IH; [|by apply Hkeep]. intros y t Hy. by apply Hbody, list_elem_of_further.
Qed.

(** The image a cell of the grid shows is loaded before anything else is
    computed for it. *)
Lemma draw_cell_loads image_load screen_size col_positions row_positions row cells col
    self r :
  draw_cell image_load screen_size col_positions row_positions row cells col self = Ok r →
  ∃ path, py_index cells col = Ok path ∧ r.1 = (load_image image_load path self).2.
Proof.
  unfold draw_cell. destruct screen_size as [screen_width screen_height].
  destruct (py_index cells col) as [path|]; simpl; [|done].
  destruct (load_image image_load path self) as [img self1] eqn:Hload. simpl.
  assert (self1 = (load_image image_load path self).2) as Hself by (by rewrite Hload).
  intros Hr. returned Hr.
  destruct (num_ltb _ _); [exists path; by inversion Hr|].
  returned Hr.
  destruct (num_ltb _ _); [exists path; by inversion Hr|].
  destruct (_ || _); exists path; by inversion Hr.
Qed.

Lemma draw_cell_frame image_load screen_size col_positions row_positions row cells col
    self0 self :
  (∃ cache, self = set_image_cache cache self0) →
  0 <= col < Z.of_nat (length cells) →
  col < Z.of_nat (length col_positions) →
  0 <= row < Z.of_nat (length row_positions) →
  col < Z.of_nat (length (col_widths self0)) →
  row < Z.of_nat (length (row_heights self0)) →
  in_range (draw_cell image_load screen_size col_positions row_positions row cells col self) ∧
  ∀ r, draw_cell image_load screen_size col_positions row_positions row cells col self
       = Ok r →
       ∃ cache, r.1 = set_image_cache cache self0.
Proof.
  intros [cache ->] Hcol Hcp Hrp Hcw Hrh. split.
  - destruct (py_index_in_range cells col) as [path Hpath]; [lia|].
    destruct (py_index_in_range col_positions col) as [cx Hcx]; [lia|].
    destruct (py_index_in_range row_positions row) as [cy Hcy]; [lia|].
    destruct (py_index_in_range (col_widths self0) col) as [w Hw]; [lia|].
    destruct (py_index_in_range (row_heights self0) row) as [h Hh]; [lia|].
    unfold draw_cell. destruct screen_size as [screen_width screen_height].
    rewrite Hpath, bind_Ok.
    destruct (load_image_frame image_load path (set_image_cache cache self0))
      as [cache' Hload].
    destruct (load_image image_load path (set_image_cache cache self0)) as [img self1].
    simpl in Hload. subst self1. rewrite Hcx, bind_Ok.
    apply in_range_bind; [auto with in_range|intros x _]. rewrite Hcy, bind_Ok.
    apply in_range_bind; [auto with in_range|intros y _].
    change (col_widths (set_image_cache cache' (set_image_cache cache self0)))
      with (col_widths self0).
    change (row_heights (set_image_cache cache' (set_image_cache cache self0)))
      with (row_heights self0).
    rewrite Hw, bind_Ok, Hh, bind_Ok.
    apply in_range_bind; [auto with in_range|intros x_end _].
    destruct (num_ltb _ _); [done|].
    apply in_range_bind; [auto with in_range|intros y_end _].
    destruct (num_ltb _ _); [done|]. by destruct (_ || _).
  - intros r Hr. destruct (draw_cell_loads _ _ _ _ _ _ _ _ _ Hr) as (path & _ & ->).
    destruct (load_image_frame image_load path (set_image_cache cache self0))
      as [cache' ->].
    by exists cache'.
Qed.

Lemma draw_cells_frame image_load screen_size start_row end_row start_col end_col self :
  well_formed self →
  0 <= start_row → end_row <= max_rows self → 0 <= start_col → end_col <= max_cols self →
  in_range (draw_cells image_load screen_size
              (positions 0 (col_widths self)) (positions INFO_HEIGHT (row_heights self))
              (start_row, end_row, start_col, end_col) self) ∧
  ∀ self',
    draw_cells image_load screen_size
      (positions 0 (col_widths self)) (positions INFO_HEIGHT (row_heights self))
      (start_row, end_row, start_col, end_col) self = Ok self' →
    ∃ cache, self' = set_image_cache cache self.
Proof.
  intros (Hgrid & Hcw & Hrh & Hrows & Hcols) Hsr Her Hsc Hec. unfold draw_cells.
  apply (for_each_inv (fun s => ∃ cache, s = set_image_cache cache self)).
  2:{ exists (image_cache self). by destruct self. }
  intros row s Hrow%elem_of_py_range [cache ->]. simpl.
  destruct (grid self !! row) as [cells|] eqn:Hcells.
  2:{ split; [done|]. intros s' Hs'. inversion Hs'; subst. by exists cache. }
  destruct (Hgrid row cells Hcells) as [Hrange Hlen].
  apply (for_each_inv (fun s => ∃ cache, s = set_image_cache cache self)).
  2:{ by exists cache. }
  intros col s Hcol%elem_of_py_range Hs.
  destruct (draw_cell_frame image_load screen_size
              (positions 0 (col_widths self)) (positions INFO_HEIGHT (row_heights self))
              row cells col self s Hs) as [Hsafe Hframe];
    rewrite ?length_positions; try lia.
  destruct (draw_cell _ _ _ _ _ _ _ s) as [r|e]; simpl; [|done].
  split; [done|]. intros s' Hs'. inversion Hs'; subst. by apply Hframe.
Qed.

Lemma draw_headers_in_range font rect_coord screen_width start_row end_row start_col
    end_col self :
  well_formed self → end_col <= max_cols self →
  in_range (draw_headers font rect_coord screen_width (positions 0 (col_widths self))
              (start_row, end_row, start_col, end_col) self).
Proof.
  intros (Hgrid & Hcw & Hrh & Hrows & Hcols) Hec. unfold draw_headers.
  destruct (grid self !! 0) as [headers|] eqn:Hheaders; [|done].
  destruct (Hgrid 0 headers Hheaders) as [_ Hlen].
  destruct (py_index_in_range (row_heights self) 0) as [h ->]; [lia|]. rewrite bind_Ok.
  apply for_each_in_range. intros col [] Hcol%elem_of_py_range.
  destruct (py_index_in_range headers col) as [text ->]; [lia|]. rewrite bind_Ok.
  destruct (py_index_in_range (positions 0 (col_widths self)) col) as [cx ->];
    [rewrite length_positions; lia|]. rewrite bind_Ok.
  apply in_range_bind; [auto with in_range|intros x _].
  destruct (py_index_in_range (col_widths self) col) as [w ->]; [lia|]. rewrite bind_Ok.
  apply in_range_bind; [auto with in_range|intros x_end _].
  destruct (_ || _); [done|]. destruct (String.eqb _ ""); [done|].
  apply in_range_bind; [apply text_rect_in_range|intros rect _].
  apply in_range_bind; [apply draw_wrapped_text_in_range|done].
Qed.

Lemma draw_filenames_in_range font rect_coord screen_height start_row end_row start_col
    end_col self :
  well_formed self → 0 <= start_row →
  in_range (draw_filenames font rect_coord screen_height
              (positions INFO_HEIGHT (row_heights self))
              (start_row, end_row, start_col, end_col) self).
Proof.
  intros (Hgrid & Hcw & Hrh & Hrows & Hcols) Hsr. unfold draw_filenames.
  apply for_each_in_range. intros row [] Hrow%elem_of_py_range.
  destruct (grid self !! row) as [cells|] eqn:Hcells; [|done].
  destruct (Hgrid row cells Hcells) as [Hrange Hlen].
  destruct (py_index_in_range cells 0) as [filename ->]; [lia|]. rewrite bind_Ok.
  destruct (py_index_in_range (positions INFO_HEIGHT (row_heights self)) row) as [cy ->];
    [rewrite length_positions; lia|]. rewrite bind_Ok.
  apply in_range_bind; [auto with in_range|intros y _].
  destruct (py_index_in_range (col_widths self) 0) as [w ->]; [lia|]. rewrite bind_Ok.
  destruct (py_index_in_range (row_heights self) row) as [h ->]; [lia|]. rewrite bind_Ok.
  apply in_range_bind; [auto with in_range|intros y_end _].
  destruct (_ || _); [done|].
  apply in_range_bind; [apply text_rect_in_range|intros rect _].
  apply in_range_bind; [apply draw_wrapped_text_in_range|done].
Qed.

(** On the empty grid the first frame fails: [main] reaches its loop with
    empty [col_widths], and [draw], having found no cell to draw, raises
    [IndexError] on [self.col_widths[0]] for the corner rectangle. *)
Theorem first_frame_on_empty_grid fs image_dims image_load font surface_size rect_coord
    base sub entries :
  listdir fs base = Some entries →
  filter (fun f => has_supported_ext f = true) entries = [] →
  base ≠ "" → isdir fs base = true → sub ≠ "" → isdir fs sub = true →
  ∃ self,
    main_startup fs image_dims base sub = Ok (EnteredLoop 10 self) ∧
    col_widths self = [] ∧
    draw 10 image_load font surface_size rect_coord (1024, 768) self = Raise IndexError.
Proof.
  intros Hls He Hb Hbd Hs Hsd.
  assert (build_grid fs base sub = Ok ∅) as Hg.
  { unfold build_grid, os_listdir. rewrite Hls. simpl. by rewrite He. }
  pose proof (no_supported_entries _ He) as Hno.
  unfold main_startup. rewrite Hbd, Hsd.
  apply String.eqb_neq in Hb, Hs. rewrite Hb, Hs. simpl.
  rewrite (max_resolution_no_images _ _ _ _ Hls Hno). simpl.
  unfold init. rewrite Hg. simpl.
  rewrite (base_resolution_no_images _ _ _ _ Hls Hno).
  eexists. split; [vm_compute; reflexivity|]. split; [reflexivity|].
  vm_compute. reflexivity.
Qed.

Lemma first_frame_on_empty_grid_witness :
  ∃ self,
    main_startup fs_no_images (fun _ => None) "base" "variants" = Ok (EnteredLoop 10 self) ∧
    col_widths self = [] ∧
    draw 10 (fun _ => true) mono (fun _ => (300, 200)) (fun _ => 0) (1024, 768) self
    = Raise IndexError.
Proof.
  apply (first_frame_on_empty_grid fs_no_images (fun _ => None) (fun _ => true) mono
           (fun _ => (300, 200)) (fun _ => 0) "base" "variants" ["notes.txt"]);
    first [reflexivity|discriminate].
Defined.

(** ** The cache after a frame *)

Lemma load_image_grows image_load path self :
  let self' := (load_image image_load path self).2 in
  (∃ cache, self' = set_image_cache cache self) ∧
  (∀ k, is_Some (image_cache self !! k) → is_Some (image_cache self' !! k)) ∧
  (startswith path PLACEHOLDER = false → is_Some (image_cache self' !! path)).
Proof.
  unfold load_image. destruct (startswith path PLACEHOLDER) eqn:Hp; simpl.
  { split; [exists (image_cache self); by destruct self|]. done. }
  destruct (image_cache self !! path) as [img|] eqn:Hc; simpl.
  { split; [exists (image_cache self); by destruct self|]. split; [done|].
    intros _. by rewrite Hc. }
  split; [by eexists|]. split.
  - intros k Hk. destruct (decide (k = path)) as [->|Hne].
    + by rewrite lookup_insert_eq.
    + by rewrite lookup_insert_ne.
  - intros _. by rewrite lookup_insert_eq.
Qed.

Lemma draw_row_caches image_load screen_size col_positions row_positions row cells :
  ∀ cols self self',
    for_each cols
      (fun col self =>
         r ← draw_cell image_load screen_size col_positions row_positions row cells col self;
         Ok r.1)
      self = Ok self' →
    (∃ cache, self' = set_image_cache cache self) ∧
    (∀ k, is_Some (image_cache self !! k) → is_Some (image_cache self' !! k)) ∧
    (∀ col path, col ∈ cols → py_index cells col = Ok path →
                 startswith path PLACEHOLDER = false →
                 is_Some (image_cache self' !! path)).
Proof.
  induction cols as [|col cols IH]; intros self self' Hrun; simpl in Hrun.
  { inversion Hrun; subst. split; [exists (image_cache self'); by destruct self'|].
    split; [done|]. intros col path Hin. by apply elem_of_nil in Hin. }
  destruct (draw_cell _ _ _ _ _ _ _ _) as [r|] eqn:Hcell; simpl in Hrun; [|done].
  destruct (draw_cell_loads _ _ _ _ _ _ _ _ _ Hcell) as (path & Hpath & Hr).
  destruct (load_image_grows image_load path self) as ([cache1 Hframe] & Hkeep & Hnew).
  simpl in Hframe, Hkeep, Hnew. rewrite <- Hr in Hframe, Hkeep, Hnew.
  destruct (IH _ _ Hrun) as ([cache2 Hframe2] & Hkeep2 & Hcols).
  split; [|split].
  - exists cache2. by rewrite Hframe2, Hframe.
  - intros k Hk. by apply Hkeep2, Hkeep.
  - intros c p Hin Hp Hreal. apply elem_of_cons in Hin as [->|Hin].
    + rewrite Hpath in Hp. inversion Hp; subst p. by apply Hkeep2, Hnew.
    + by apply (Hcols c).
Qed.

Lemma draw_cells_caches image_load screen_size col_positions row_positions start_col
    end_col :
  ∀ rows self self',
    for_each rows
      (fun row self =>
         match grid self !! row with
         | None => Ok self
         | Some cells =>
             for_each
               (py_range (Z.max 1 start_col)
                  (Z.min (end_col + 1) (Z.of_nat (length cells))))
               (fun col self =>
                  r ← draw_cell image_load screen_size col_positions row_positions row
                        cells col self;
                  Ok r.1)
               self
         end)
      self = Ok self' →
    (∃ cache, self' = set_image_cache cache self) ∧
    (∀ k, is_Some (image_cache self !! k) → is_Some (image_cache self' !! k)) ∧
    (∀ row col cells path,
       row ∈ rows → grid self !! row = Some cells →
       Z.max 1 start_col <= col < Z.min (end_col + 1) (Z.of_nat (length cells)) →
       py_index cells col = Ok path → startswith path PLACEHOLDER = false →
       is_Some (image_cache self' !! path)).
Proof.
  induction rows as [|row rows IH]; intros self self' Hrun; simpl in Hrun.
  { inversion Hrun; subst. split; [exists (image_cache self'); by destruct self'|].
    split; [done|]. intros row col cells path Hin. by apply elem_of_nil in Hin. }
  destruct (grid self !! row) as [cells|] eqn:Hcells.
  - destruct (for_each (py_range _ _) _ self) as [self1|] eqn:Hrow; simpl in Hrun; [|done].
    destruct (draw_row_caches _ _ _ _ _ _ _ _ _ Hrow) as ([cache1 Hframe] & Hkeep & Hnew).
    destruct (IH _ _ Hrun) as ([cache2 Hframe2] & Hkeep2 & Hrows).
    split; [|split].
    + exists cache2. by rewrite Hframe2, Hframe.
    + intros k Hk. by apply Hkeep2, Hkeep.
    + intros r c cs p Hin Hr Hc Hp Hreal. apply elem_of_cons in Hin as [->|Hin].
      * rewrite Hcells in Hr. inversion Hr; subst cs.
        apply Hkeep2, (Hnew c); [by apply elem_of_py_range|done..].
      * apply (Hrows r c cs); try done. by rewrite Hframe.
  - simpl in Hrun. destruct (IH _ _ Hrun) as (Hframe & Hkeep & Hrows).
    split; [done|]. split; [done|].
    intros r c cs p Hin Hr Hc Hp Hreal. apply elem_of_cons in Hin as [->|Hin].
    + congruence.
    + by apply (Hrows r c cs).
Qed.

(** After a frame the cache follows the view: while no image is focused,
    a [draw] that returns changes only the image cache and the export
    queue; every surface it leaves cached belongs to a cell of the visible
    range, and every data cell of the visible range that holds a real path
    has its surface cached. *)
Theorem draw_cache_follows_view DEFAULT_CELL_SIZE image_load font surface_size rect_coord
    screen_width screen_height self start_row end_row start_col end_col buttons self' :
  truthy (fullscreen_image self) = false →
  get_visible_cells screen_width screen_height self
  = Ok (start_row, end_row, start_col, end_col) →
  draw DEFAULT_CELL_SIZE image_load font surface_size rect_coord
    (screen_width, screen_height) self = Ok (buttons, self') →
  self' = poll_export_queue (set_image_cache (image_cache self') self) ∧
  (∀ k, is_Some (image_cache self' !! k) →
        visible_cell (grid self) (start_row, end_row, start_col, end_col) k ∨
        fullscreen_image self = Some k) ∧
  (∀ row col cells path,
     Z.max 1 start_row <= row <= end_row → grid self !! row = Some cells →
     Z.max 1 start_col <= col < Z.min (end_col + 1) (Z.of_nat (length cells)) →
     py_index cells col = Ok path → startswith path PLACEHOLDER = false →
     is_Some (image_cache self' !! path)).
Proof.
  intros Hfs Hv. unfold draw. rewrite Hfs, Hv, bind_Ok. cbv beta zeta.
  destruct (draw_cells _ _ _ _ _ self) as [self1|] eqn:Hcells; [|done].
  destruct (draw_cells_caches image_load (screen_width, screen_height)
              (positions 0 (col_widths self)) (positions INFO_HEIGHT (row_heights self))
              start_col end_col (py_range (Z.max 1 start_row) (end_row + 1)) self self1
              Hcells) as ([cache1 Hframe] & Hkeep & Hnew).
  rewrite bind_Ok.
  destruct (draw_headers _ _ _ _ _ _); [rewrite bind_Ok|done].
  destruct (draw_filenames _ _ _ _ _ _); [rewrite bind_Ok|done].
  destruct (py_index (col_widths self1) 0); [rewrite bind_Ok|done].
  destruct (py_index (row_heights self1) 0); [rewrite bind_Ok|done].
  destruct (if String.eqb _ "" then _ else _); [rewrite bind_Ok|done].
  destruct (draw_scrollbars _ _ _); [rewrite bind_Ok|done].
  destruct (unload_distant_images _ self1) as [self2|] eqn:Hu; [rewrite bind_Ok|done].
  destruct (if export_in_progress _ then _ else _); [rewrite bind_Ok|done].
  intros Hdraw. inversion Hdraw; subst buttons self'; clear Hdraw.
  unfold unload_distant_images in Hu.
  destruct (visible_paths_of (grid self1) _) as [visible|] eqn:Hvis; [|done].
  simpl in Hu. inversion Hu; subst self2; clear Hu.
  subst self1.
  pose proof (visible_paths_of_spec (grid self) (start_row, end_row, start_col, end_col)
                visible Hvis) as Hspec.
  clear Hvis Hcells. simpl in *. split; [done|]. split.
  - intros k Hk. apply evict_paths_spec in Hk as [Hsome Hkeys].
    rewrite <- (Hspec k). apply Hkeys.
    destruct Hsome as [v Hsome]. apply list_elem_of_fmap.
    exists (k, v). split; [done|]. by apply elem_of_map_to_list.
  - intros row col cells path Hrow Hcells' Hcol Hpath Hreal.
    rewrite evict_paths_keeps.
    + apply (Hnew row col cells path); try done. apply elem_of_py_range. lia.
    + left. rewrite (Hspec path).
      exists row, col, cells. split_and!; try done; lia.
Qed.

Lemma draw_cache_follows_view_witness :
  viewer_drawn = poll_export_queue (set_image_cache (image_cache viewer_drawn) viewer_demo) ∧
  (∀ k, is_Some (image_cache viewer_drawn !! k) →
        visible_cell (grid viewer_demo) (0, 4, 0, 3) k ∨
        fullscreen_image viewer_demo = Some k) ∧
  (∀ row col cells path,
     Z.max 1 0 <= row <= 4 → grid viewer_demo !! row = Some cells →
     Z.max 1 0 <= col < Z.min (3 + 1) (Z.of_nat (length cells)) →
     py_index cells col = Ok path → startswith path PLACEHOLDER = false →
     is_Some (image_cache viewer_drawn !! path)).
Proof.
  apply (draw_cache_follows_view 300 (fun _ => true) mono (fun _ => (300, 200)) (fun _ => 0)
           1024 768 viewer_demo 0 4 0 3 (Some ((914, 5, 110, 20), (794, 5, 110, 20)))).
  - reflexivity.
  - vm_compute. reflexivity.
  - vm_compute. reflexivity.
Defined.

(** ** The event loop *)

Lemma enforce_scroll_bounds_frame screen_size self :
  ∃ so, enforce_scroll_bounds screen_size self
        = set_viewport (cell_size self) (zoom_level self) so
            (col_widths self) (row_heights self) self.
Proof.
  unfold enforce_scroll_bounds. destruct (truthy _).
  - exists (scroll_offset self). by destruct self.
  - destruct screen_size. by eexists.
Qed.

Lemma scroll_frame dx dy screen_size self self' :
  scroll dx dy screen_size self = Ok self' →
  ∃ so, self' = set_viewport (cell_size self) (zoom_level self) so
                  (col_widths self) (row_heights self) self.
Proof.
  unfold scroll. destruct (truthy _).
  - intros Hs. inversion Hs; subst. exists (scroll_offset self'). by destruct self'.
  - intros Hs. returned Hs. inversion Hs; subst; clear Hs.
    match goal with
    | |- context [enforce_scroll_bounds ?ss ?s] =>
        destruct (enforce_scroll_bounds_frame ss s) as [so ->]
    end.
    by exists so.
Qed.

Lemma scroll_in_range dx dy screen_size self : in_range (scroll dx dy screen_size self).
Proof. unfold scroll. destruct (truthy _); [done|]. in_range_chain. done. Qed.

Lemma zoom_frame DEFAULT_CELL_SIZE direction mouse_pos screen_size self self' :
  zoom DEFAULT_CELL_SIZE direction mouse_pos screen_size self = Ok self' →
  ∃ cs zl so cw rh, self' = set_viewport cs zl so cw rh self.
Proof.
  destruct (truthy (fullscreen_image self)) eqn:Hfs.
  { unfold zoom. rewrite Hfs. intros Hz. inversion Hz; subst.
    exists (cell_size self'), (zoom_level self'), (scroll_offset self'),
      (col_widths self'), (row_heights self'). by destruct self'. }
  intros Hz.
  destruct (zoom_inv _ _ _ _ _ _ Hfs Hz) as (step & cs & so & resized & _ & _ & Hu & ->).
  destruct (update_cell_sizes_frame _ _ _ Hu) as (cw & rh & -> & _ & _).
  match goal with
  | |- context [enforce_scroll_bounds ?ss ?s] =>
      destruct (enforce_scroll_bounds_frame ss s) as [so' ->]
  end.
  by eexists _, _, _, _, _.
Qed.

Lemma floordiv_in_range a b : in_range (floordiv a b).
Proof. unfold floordiv. by destruct (b =? 0). Qed.

Lemma update_cell_sizes_in_range DEFAULT_CELL_SIZE self :
  in_range (update_cell_sizes DEFAULT_CELL_SIZE self).
Proof.
  unfold update_cell_sizes. apply in_range_bind; [apply zoomed_cell_size_in_range|done].
Qed.

Lemma zoom_in_range DEFAULT_CELL_SIZE direction mouse_pos screen_size self :
  in_range (zoom DEFAULT_CELL_SIZE direction mouse_pos screen_size self).
Proof.
  unfold zoom. destruct (truthy _); [done|].
  apply in_range_bind; [apply float_of_Z_in_range|]. intros step _.
  apply in_range_bind; [apply update_cell_sizes_in_range|]. intros self1 _.
  apply in_range_bind; [|done].
  destruct mouse_pos as [[mx my]|]; in_range_chain; done.
Qed.

Lemma reset_viewport_in_range DEFAULT_CELL_SIZE screen_size self :
  in_range (reset_viewport DEFAULT_CELL_SIZE screen_size self).
Proof.
  unfold reset_viewport. destruct screen_size as [screen_width screen_height].
  apply in_range_bind; [apply floordiv_in_range|]. intros visible_cols _.
  apply in_range_bind; [apply floordiv_in_range|]. intros visible_rows _.
  apply in_range_bind; [|intros; apply update_cell_sizes_in_range].
  destruct (_ || _); [|done]. in_range_chain. done.
Qed.

Lemma os_listdir_in_range fs path : in_range (os_listdir fs path).
Proof. unfold os_listdir. by destruct (listdir fs path). Qed.

Lemma collect_filenames_in_range fs folders :
  ∀ acc, in_range (collect_filenames fs folders acc).
Proof.
  induction folders as [|[b fp] folders IH]; intros acc; simpl; [done|].
  destruct (isdir fs fp); [|apply IH].
  apply in_range_bind; [apply os_listdir_in_range|]. intros entries _. apply IH.
Qed.

Lemma build_grid_in_range fs base sub : in_range (build_grid fs base sub).
Proof.
  unfold build_grid. apply in_range_bind; [apply os_listdir_in_range|].
  intros entries _. destruct (filter _ entries); [done|].
  apply in_range_bind; [apply collect_filenames_in_range|done].
Qed.

Lemma init_in_range fs image_dims DEFAULT_CELL_SIZE screen_size base sub :
  in_range (init fs image_dims DEFAULT_CELL_SIZE screen_size base sub).
Proof.
  unfold init. apply in_range_bind; [apply build_grid_in_range|]. intros g _.
  apply in_range_bind; [apply update_cell_sizes_in_range|]. intros self _.
  apply in_range_bind.
  { unfold get_base_resolution. apply in_range_bind; [apply os_listdir_in_range|done]. }
  intros resolution _. apply reset_viewport_in_range.
Qed.

Lemma init_coherent fs image_dims DEFAULT_CELL_SIZE screen_size base sub self :
  init fs image_dims DEFAULT_CELL_SIZE screen_size base sub = Ok self →
  coherent self ∧ browsing self.
Proof.
  intros Hinit.
  destruct (init_frame _ _ _ _ _ _ _ Hinit)
    as (g & cs & zl & cw & rh & resolution & Hg & Hcw & Hrh & ->).
  split; [split|]; [|by left|done].
  intros row cells Hrow. simpl. apply (build_grid_keys _ _ _ _ Hg row). by eexists.
Qed.

Lemma toggle_fullscreen_data_cell image_load row col self :
  data_cell self row col →
  ∃ self',
    toggle_fullscreen image_load row col self = Ok self' ∧
    (self' = set_fullscreen None None None None self ∨
     ∃ cells path original,
       grid self !! row = Some cells ∧ py_index cells col = Ok path ∧
       ¬ (fullscreen_row self = Some row ∧ fullscreen_col self = Some col) ∧
       self' = set_fullscreen (Some path) (Some original) (Some row) (Some col) self).
Proof.
  intros (Hrow & cells & Hcells & Hcol). unfold toggle_fullscreen.
  destruct (decide _) as [|Hother]; [eexists; split; [done|by left]|].
  unfold grid_row. rewrite Hcells. simpl.
  destruct (py_index_in_range cells col) as [path Hpath]; [lia|]. rewrite Hpath. simpl.
  eexists. split; [done|]. right. by eexists cells, path, _.
Qed.

Lemma coherent_cleared self :
  coherent self → coherent (set_fullscreen None None None None self).
Proof. intros [Hrows _]. split; [done|]. by left. Qed.

Lemma coherent_focused path original row col self :
  coherent self → data_cell self row col →
  coherent (set_fullscreen (Some path) (Some original) (Some row) (Some col) self).
Proof. intros [Hrows _] Hcell. split; [done|]. right. by exists row, col. Qed.

Lemma hit_scan_in_range sizes pixel offset :
  ∀ accum idx, in_range (hit_scan sizes pixel offset accum idx).
Proof.
  induction sizes as [|size sizes IH]; intros accum idx; simpl; [done|].
  apply in_range_bind; [apply (num_add_in_range (Int pixel) offset)|intros target _].
  cbv beta. destruct (num_ltb _ _); [done|apply IH].
Qed.

Lemma click_cell_in_range mouse_pos self : in_range (click_cell mouse_pos self).
Proof.
  unfold click_cell.
  apply in_range_bind; [apply hit_scan_in_range|intros col_index _].
  apply in_range_bind; [apply hit_scan_in_range|intros row_index _].
  by destruct (_ && _).
Qed.

Lemma click_cell_data_cell mouse_pos self row col :
  map_Forall (fun row _ => 0 <= row < max_rows self) (grid self) →
  click_cell mouse_pos self = Ok (Some (row, col)) →
  data_cell self row col.
Proof.
  intros Hrows. unfold click_cell.
  destruct (hit_scan (col_widths self) _ _ 0 0) as [col_index|]; simpl; [|done].
  destruct (hit_scan (row_heights self) _ _ INFO_HEIGHT 0) as [row_index|]; simpl; [|done].
  destruct (0 <=? row_index) eqn:Hr0; simpl; [|done].
  destruct (0 <=? col_index) eqn:Hc0; simpl; [|done].
  destruct (grid self !! row_index) as [cells|] eqn:Hcells; simpl; [|done].
  destruct (col_index <? Z.of_nat (length cells)) eqn:Hclen; simpl; [|done].
  destruct (1 <=? row_index) eqn:Hr1; simpl; [|done].
  destruct (1 <=? col_index) eqn:Hc1; simpl; [|done].
  intros Hclick. inversion Hclick; subst row col; clear Hclick.
  apply Z.leb_le in Hr1, Hc1. apply Z.ltb_lt in Hclen.
  pose proof (Hrows row_index cells Hcells) as Hrange. simpl in Hrange.
  split; [lia|]. exists cells. split; [done|lia].
Qed.

Lemma navigate_fullscreen_data_cell image_load direction self row col :
  focused_on self row col → data_cell self row col →
  ∃ self' row' col',
    navigate_fullscreen image_load direction self = Ok self' ∧
    grid self' = grid self ∧ max_rows self' = max_rows self ∧
    fullscreen_row self' = Some row' ∧ fullscreen_col self' = Some col' ∧
    data_cell self' row' col'.
Proof.
  intros Hfocus Hcell.
  pose proof Hfocus as (Hfs & Hr & Hc). pose proof Hcell as (Hrow & cells & Hcells & Hcol).
  unfold navigate_fullscreen. rewrite Hfs, Hr, Hc.
  destruct (String.eqb direction "left"); [|destruct (String.eqb direction "right");
    [|destruct (String.eqb direction "up"); [|destruct (String.eqb direction "down")]]].
  - destruct (navigate_to_data_cell image_load self row col row (Z.max 1 (col - 1)))
      as (self' & row' & col' & Hnav & Hg & Hm & Hr' & Hc' & Hcell' & _);
      [done..|lia|].
    by exists self', row', col'.
  - unfold grid_row. rewrite Hcells. simpl.
    destruct (col + 1 <? Z.of_nat (length cells)) eqn:Hlt.
    + destruct (navigate_to_data_cell image_load self row col row (col + 1))
        as (self' & row' & col' & Hnav & Hg & Hm & Hr' & Hc' & Hcell' & _);
        [done..|lia|].
      by exists self', row', col'.
    + by exists self, row, col.
  - destruct (navigate_to_data_cell image_load self row col (Z.max 1 (row - 1)) col)
      as (self' & row' & col' & Hnav & Hg & Hm & Hr' & Hc' & Hcell' & _);
      [done..|lia|lia|].
    by exists self', row', col'.
  - destruct (row + 1 <? max_rows self) eqn:Hlt.
    + destruct (navigate_to_data_cell image_load self row col (row + 1) col)
        as (self' & row' & col' & Hnav & Hg & Hm & Hr' & Hc' & Hcell' & _);
        [done..|lia|lia|].
      by exists self', row', col'.
    + by exists self, row, col.
  - by exists self, row, col.
Qed.

Lemma navigate_fullscreen_coherent image_load direction self :
  coherent self →
  ∃ self', navigate_fullscreen image_load direction self = Ok self' ∧ coherent self'.
Proof.
  intros [Hrows Hfocus].
  destruct (truthy (fullscreen_image self)) eqn:Hfs.
  2:{ exists self. split; [|done]. unfold navigate_fullscreen. by rewrite Hfs. }
  destruct Hfocus as [(Hnone & _)|(row & col & Hr & Hc & Hcell)].
  { by rewrite Hnone in Hfs. }
  destruct (navigate_fullscreen_data_cell image_load direction self row col)
    as (self' & row' & col' & Hnav & Hg & Hm & Hr' & Hc' & Hcell'); [done..|].
  exists self'. split; [done|]. split.
  - rewrite Hg, Hm. done.
  - right. by exists row', col'.
Qed.

(** Every event keeps the loop coherent, and none makes it read the grid
    out of range: handling an event returns, exits, or fails on arithmetic
    or on the file system, never with an [IndexError] or a [KeyError]; and
    afterwards every row of the grid is still below [max_rows], the focused
    cell (if any) is a data cell of the grid, and no drag is under way
    while an image is focused. *)
Theorem handle_event_keeps_coherent fs image_dims image_load DEFAULT_CELL_SIZE base sub
    now ev l :
  loop_coherent l →
  in_range (handle_event fs image_dims image_load DEFAULT_CELL_SIZE base sub now ev l) ∧
  ∀ l', handle_event fs image_dims image_load DEFAULT_CELL_SIZE base sub now ev l
        = Ok (Some l') →
        loop_coherent l'.
Proof.
  intros [Hco Hdrag].
  assert (∀ direction mouse_pos,
            in_range (zoom DEFAULT_CELL_SIZE direction mouse_pos (screen l) (viewer l)
                      ≫= (fun self => Ok (Some (set_viewer self l)))) ∧
            ∀ l', zoom DEFAULT_CELL_SIZE direction mouse_pos (screen l) (viewer l)
                  ≫= (fun self => Ok (Some (set_viewer self l))) = Ok (Some l') →
                  loop_coherent l') as Hzoom.
  { intros direction mouse_pos. split; [apply in_range_bind; [apply zoom_in_range|done]|].
    intros l'. destruct (zoom _ _ _ _ _) as [self|] eqn:Hz; simpl; [|done].
    intros Hl. inversion Hl; subst; clear Hl.
    destruct (zoom_frame _ _ _ _ _ _ Hz) as (cs & zl & so & cw & rh & ->).
    by split. }
  assert (∀ dx dy (k : ImageGrid → Loop),
            (∀ self, viewer (k self) = self ∧ dragging (k self) = dragging l) →
            in_range (scroll dx dy (screen l) (viewer l) ≫= (fun self => Ok (Some (k self)))) ∧
            ∀ l', scroll dx dy (screen l) (viewer l) ≫= (fun self => Ok (Some (k self)))
                  = Ok (Some l') →
                  loop_coherent l') as Hscroll.
  { intros dx dy k Hk. split; [apply in_range_bind; [apply scroll_in_range|done]|].
    intros l'. destruct (scroll _ _ _ _) as [self|] eqn:Hs; simpl; [|done].
    intros Hl. inversion Hl; subst; clear Hl.
    destruct (scroll_frame _ _ _ _ _ Hs) as [so ->].
    destruct (Hk (set_viewport (cell_size (viewer l)) (zoom_level (viewer l)) so
                    (col_widths (viewer l)) (row_heights (viewer l)) (viewer l)))
      as [Hv Hd].
    split; [by rewrite Hv|]. rewrite Hv, Hd. exact Hdrag. }
  assert (∀ r, (r = start_export_grid None now (viewer l) ∨
                r = start_export_html "html_export" (viewer l)) →
               loop_coherent (after_start r l)) as Hstart.
  { intros r [->| ->]; unfold start_export_grid, start_export_html;
      destruct (export_in_progress (viewer l)); by split. }
  assert (loop_coherent l) as Hl0 by (by split).
  destruct ev as [|button pos|button pos mouse_pos|pos|k|w h|]; simpl.
  - split; [done|]. intros l' Hl. inversion Hl.
  - destruct (button =? 1).
    { destruct (truthy (fullscreen_image (viewer l))) eqn:Hfs.
      { split; [done|]. intros l' Hl. inversion Hl; subst; clear Hl.
        split; [by apply coherent_cleared|done]. }
      destruct (hits (export_button_rect l) pos).
      { split; [done|]. intros l' Hl. inversion Hl; subst; clear Hl.
        apply Hstart. by left. }
      destruct (hits (html_button_rect l) pos).
      { split; [done|]. intros l' Hl. inversion Hl; subst; clear Hl.
        apply Hstart. by right. }
      split; [done|]. intros l' Hl. inversion Hl; subst; clear Hl.
      split; [done|]. simpl. by rewrite Hfs. }
    destruct (button =? 4); [apply Hzoom|]. destruct (button =? 5); [apply Hzoom|].
    split; [done|]. intros l' Hl. by inversion Hl; subst.
  - destruct ((button =? 1) && dragging l) eqn:Hb.
    2:{ split; [done|]. intros l' Hl. by inversion Hl; subst. }
    match goal with
    | |- in_range (?m ≫= _) ∧ _ => set (released := m)
    end.
    assert (in_range released ∧ ∀ self, released = Ok self → coherent self)
      as [Hsafe Hself].
    { subst released. clear Hb.
      destruct (drag_start_pos l) as [start|];
        [|split; [done|]; intros self Hs; by inversion Hs; subst].
      destruct (_ && _); [|split; [done|]; intros self Hs; by inversion Hs; subst].
      pose proof (click_cell_in_range mouse_pos (viewer l)) as Hclick_safe.
      destruct (click_cell mouse_pos (viewer l)) as [[[row col]|]|e] eqn:Hclick;
        simpl; [| |done].
      2:{ split; [done|]. intros self Hs. by inversion Hs; subst. }
      pose proof (click_cell_data_cell _ _ _ _ (proj1 Hco) Hclick) as Hcell.
      destruct (toggle_fullscreen_data_cell image_load row col (viewer l) Hcell)
        as (self & -> & [->|(cells & path & original & _ & _ & _ & ->)]).
      - split; [done|]. intros self Hs. inversion Hs; subst. by apply coherent_cleared.
      - split; [done|]. intros self Hs. inversion Hs; subst. by apply coherent_focused. }
    split; [apply in_range_bind; [done|done]|].
    intros l'. destruct released as [self|]; simpl; [|done].
    intros Hl. inversion Hl; subst. split; [by apply Hself|done].
  - destruct (dragging l) eqn:Hd.
    2:{ split; [done|]. intros l' Hl. by inversion Hl; subst. }
    apply (Hscroll _ _ (fun self => mkLoop self (screen l) true pos (drag_start_pos l)
                                      (export_button_rect l) (html_button_rect l)
                                      (started l))).
    done.
  - destruct (truthy (fullscreen_image (viewer l))) eqn:Hfs.
    + assert (∀ direction,
                in_range (navigate_fullscreen image_load direction (viewer l)
                          ≫= (fun self => Ok (Some (set_viewer self l)))) ∧
                ∀ l', navigate_fullscreen image_load direction (viewer l)
                      ≫= (fun self => Ok (Some (set_viewer self l))) = Ok (Some l') →
                      loop_coherent l') as Hnav.
      { intros direction.
        destruct (navigate_fullscreen_coherent image_load direction (viewer l) Hco)
          as (self & -> & Hself).
        simpl. split; [done|]. intros l' Hl. inversion Hl; subst. split; [done|].
        intros _. by apply Hdrag. }
      destruct k; try apply Hnav;
        try (split; [done|]; intros l' Hl; by inversion Hl; subst).
      split; [done|]. intros l' Hl. inversion Hl; subst.
      split; [by apply coherent_cleared|done].
    + destruct k; try apply Hzoom;
        try (apply (Hscroll _ _ (fun self => set_viewer self l)); done);
        try (split; [done|]; intros l' Hl; inversion Hl; subst; apply Hstart; auto; fail).
      * split; [apply in_range_bind; [apply reset_viewport_in_range|done]|].
        intros l'. destruct (reset_viewport _ _ _) as [self|] eqn:Hr; simpl; [|done].
        intros Hl. inversion Hl; subst; clear Hl.
        destruct (reset_viewport_frame _ _ _ _ Hr) as (_ & cs & zl & cw & rh & -> & _ & _).
        match goal with
        | |- context [enforce_scroll_bounds ?ss ?s] =>
            destruct (enforce_scroll_bounds_frame ss s) as [so ->]
        end.
        split; [done|]. simpl. by rewrite Hfs.
      * split; [apply in_range_bind; [apply init_in_range|done]|].
        intros l'. destruct (init _ _ _ _ _ _) as [self|] eqn:Hinit; simpl; [|done].
        intros Hl. inversion Hl; subst; clear Hl.
        destruct (init_coherent _ _ _ _ _ _ _ Hinit) as [Hself (Hnone & _)].
        split; [done|]. simpl. by rewrite Hnone.
      * split; [done|]. intros l' Hl. by inversion Hl; subst.
  - split; [done|]. intros l' Hl. inversion Hl; subst; clear Hl.
    destruct (enforce_scroll_bounds_frame (w, h) (viewer l)) as [so ->].
    by split.
  - split; [done|]. intros l' Hl. by inversion Hl; subst.
Qed.

Lemma viewer_demo_rows :
  map_Forall (fun row _ => 0 <= row < max_rows viewer_demo) (grid viewer_demo).
Proof.
  unfold viewer_demo, grid_demo. simpl.
  repeat (apply map_Forall_insert_2; [by vm_compute|]). apply map_Forall_empty.
Qed.

Lemma loop_demo_coherent : loop_coherent loop_demo.
Proof. split; [split; [apply viewer_demo_rows|by left]|done]. Qed.

Lemma loop_focused_coherent : loop_coherent loop_focused.
Proof.
  split; [split; [apply viewer_demo_rows|]|done].
  right. exists 2, 2. split; [done|]. split; [done|].
  split; [by vm_compute|]. eexists. split; [reflexivity|]. by vm_compute.
Qed.

Lemma handle_event_keeps_coherent_witness :
  in_range (handle_event fs_demo dims_demo (fun _ => true) 300 "base" "var" "20260101_000000"
              (KEYDOWN K_RIGHT) loop_focused) ∧
  ∀ l', handle_event fs_demo dims_demo (fun _ => true) 300 "base" "var" "20260101_000000"
          (KEYDOWN K_RIGHT) loop_focused = Ok (Some l') →
        loop_coherent l'.
Proof.
  apply (handle_event_keeps_coherent fs_demo dims_demo (fun _ => true) 300 "base" "var"
           "20260101_000000" (KEYDOWN K_RIGHT) loop_focused).
  apply loop_focused_coherent.
Defined.

(** While an image is focused, only the left click, ESC and the arrow keys
    act: any other event the loop survives leaves the viewer exactly as it
    was (no zoom, no scroll, no reset, no rebuild) and starts no export. *)
Theorem focused_viewer_ignores fs image_dims image_load DEFAULT_CELL_SIZE base sub
    now ev l l' :
  loop_coherent l →
  truthy (fullscreen_image (viewer l)) = true →
  focus_event ev = false →
  handle_event fs image_dims image_load DEFAULT_CELL_SIZE base sub now ev l = Ok (Some l') →
  viewer l' = viewer l ∧ started l' = started l ∧ dragging l' = false.
Proof.
  intros [Hco Hdrag] Hfs Hev. pose proof (Hdrag Hfs) as Hd.
  assert (∀ direction mouse_pos,
            zoom DEFAULT_CELL_SIZE direction mouse_pos (screen l) (viewer l)
            = Ok (viewer l)) as Hzoom.
  { intros direction mouse_pos. unfold zoom. by rewrite Hfs. }
  destruct ev as [|button pos|button pos mouse_pos|pos|k|w h|]; simpl; simpl in Hev.
  - done.
  - rewrite Hev. rewrite !Hzoom. simpl.
    destruct (button =? 4); [|destruct (button =? 5)];
      intros Hl; inversion Hl; subst; clear Hl; done.
  - rewrite Hd, andb_false_r. intros Hl. by inversion Hl; subst.
  - rewrite Hd. intros Hl. by inversion Hl; subst.
  - rewrite Hfs. destruct k; try done; intros Hl; by inversion Hl; subst.
  - intros Hl. inversion Hl; subst; clear Hl. simpl.
    unfold enforce_scroll_bounds. by rewrite Hfs.
  - intros Hl. by inversion Hl; subst.
Qed.

Lemma focused_viewer_ignores_witness :
  viewer loop_focused = viewer loop_focused ∧
  started loop_focused = started loop_focused ∧
  dragging loop_focused = false.
Proof.
  apply (focused_viewer_ignores fs_demo dims_demo (fun _ => true) 300 "base" "var"
           "20260101_000000" (KEYDOWN K_e) loop_focused loop_focused).
  - apply loop_focused_coherent.
  - reflexivity.
  - reflexivity.
  - reflexivity.
Defined.

(** A click opens a cell and the next click closes it: from a loop with no
    focused cell, a left press away from the two buttons followed by a
    release within the drag threshold, over a pixel the hit test resolves
    to [(row, col)], focuses that cell on the value the grid holds there
    and ends the drag; when that value is not empty, the next left press,
    wherever it falls, gives back the viewer exactly as it was. *)
Theorem click_opens_click_closes fs image_dims image_load DEFAULT_CELL_SIZE base sub
    now l pos pos' mouse_pos pos'' row col :
  loop_coherent l → browsing (viewer l) →
  hits (export_button_rect l) pos = false → hits (html_button_rect l) pos = false →
  Z.abs (pos'.1 - pos.1) < drag_threshold → Z.abs (pos'.2 - pos.2) < drag_threshold →
  click_cell mouse_pos (viewer l) = Ok (Some (row, col)) →
  ∃ l1 l2 cells path,
    handle_event fs image_dims image_load DEFAULT_CELL_SIZE base sub now
      (MOUSEBUTTONDOWN 1 pos) l = Ok (Some l1) ∧
    handle_event fs image_dims image_load DEFAULT_CELL_SIZE base sub now
      (MOUSEBUTTONUP 1 pos' mouse_pos) l1 = Ok (Some l2) ∧
    grid (viewer l) !! row = Some cells ∧ py_index cells col = Ok path ∧
    fullscreen_image (viewer l2) = Some path ∧
    fullscreen_row (viewer l2) = Some row ∧ fullscreen_col (viewer l2) = Some col ∧
    dragging l2 = false ∧
    (path ≠ "" →
     ∃ l3,
       handle_event fs image_dims image_load DEFAULT_CELL_SIZE base sub now
         (MOUSEBUTTONDOWN 1 pos'') l2 = Ok (Some l3) ∧
       viewer l3 = viewer l).
Proof.
  intros [[Hrows _] _] Hbrowsing Hexport Hhtml Hdx Hdy Hclick.
  pose proof Hbrowsing as (Himg & Horig & Hfrow & Hfcol).
  destruct (click_cell_data_cell _ _ _ _ Hrows Hclick) as (Hrow & cells & Hcells & Hcol).
  destruct (py_index_in_range cells col) as [path Hpath]; [lia|].
  eexists _, _, cells, path. split.
  { simpl. rewrite Himg. simpl. by rewrite Hexport, Hhtml. }
  simpl. apply Z.ltb_lt in Hdx, Hdy. rewrite Hdx, Hdy, Hclick. simpl.
  unfold toggle_fullscreen at 1. destruct (decide _) as [[Hr _]|_]; [congruence|].
  unfold grid_row. rewrite Hcells. simpl. rewrite Hpath. simpl.
  split; [done|]. split; [done|]. split; [done|].
  split; [done|]. split; [done|]. split; [done|]. split; [done|].
  intros Hne. apply String.eqb_neq in Hne. simpl. rewrite Hne. simpl.
  eexists. split; [done|]. simpl.
  transitivity (set_fullscreen None None None None (viewer l)); [reflexivity|].
  by apply set_fullscreen_browsing.
Qed.

Lemma click_opens_click_closes_witness :
  ∃ l1 l2 cells path,
    handle_event fs_demo dims_demo (fun _ => true) 300 "base" "var" "20260101_000000"
      (MOUSEBUTTONDOWN 1 (600, 600)) loop_demo = Ok (Some l1) ∧
    handle_event fs_demo dims_demo (fun _ => true) 300 "base" "var" "20260101_000000"
      (MOUSEBUTTONUP 1 (601, 599) (600, 600)) l1 = Ok (Some l2) ∧
    grid (viewer loop_demo) !! 2 = Some cells ∧ py_index cells 2 = Ok path ∧
    fullscreen_image (viewer l2) = Some path ∧
    fullscreen_row (viewer l2) = Some 2 ∧ fullscreen_col (viewer l2) = Some 2 ∧
    dragging l2 = false ∧
    (path ≠ "" →
     ∃ l3,
       handle_event fs_demo dims_demo (fun _ => true) 300 "base" "var" "20260101_000000"
         (MOUSEBUTTONDOWN 1 (10, 10)) l2 = Ok (Some l3) ∧
       viewer l3 = viewer loop_demo).
Proof.
  apply (click_opens_click_closes fs_demo dims_demo (fun _ => true) 300 "base" "var"
           "20260101_000000" loop_demo (600, 600) (601, 599) (600, 600) (10, 10) 2 2).
  - apply loop_demo_coherent.
  - done.
  - reflexivity.
  - reflexivity.
  - reflexivity.
  - reflexivity.
  - vm_compute. reflexivity.
Defined.

(** ** The frame, focused or not *)

Lemma draw_fullscreen_in_range surface_size screen_size self :
  coherent self → in_range (draw_fullscreen surface_size screen_size self).
Proof.
  intros [_ Hfocus]. unfold draw_fullscreen.
  destruct (fullscreen_original self) as [original|] eqn:Horig; [|done].
  destruct screen_size as [screen_width screen_height].
  destruct (surface_size original) as [img_width img_height].
  in_range_chain.
  destruct (fullscreen_col self) as [col|] eqn:Hcol; [|done].
  destruct (grid self !! 0) as [headers|]; [|done].
  destruct (col <? Z.of_nat (length headers)) eqn:Hlt; [|done].
  apply Z.ltb_lt in Hlt.
  destruct Hfocus as [(_ & Hnone & _)|(row & col' & _ & Hcol' & _ & cells & _ & Hrange)];
    [congruence|].
  assert (col' = col) as -> by congruence.
  destruct (py_index_in_range headers col) as [col_name ->]; [lia|]. done.
Qed.

(** A frame on a coherent viewer whose sizes agree with its grid (rows
    below [max_rows], 1 to [max_cols] cells per row, one width per column
    and one height per row) reads no list out of range, whether an image is
    focused or not: [draw] returns, or fails on arithmetic (a zero cell
    size, line height or image side, a number beyond the range of the
    floats), never with an [IndexError] or a [KeyError]. *)
Theorem draw_stays_in_range DEFAULT_CELL_SIZE image_load font surface_size rect_coord
    screen_size self :
  well_formed self →
  coherent self →
  in_range (draw DEFAULT_CELL_SIZE image_load font surface_size rect_coord screen_size self).
Proof.
  intros Hwf Hco. unfold draw.
  destruct (truthy (fullscreen_image self)) eqn:Hfs.
  { apply in_range_bind; [by apply draw_fullscreen_in_range|done]. }
  destruct screen_size as [screen_width screen_height].
  destruct (get_visible_cells_bounds screen_width screen_height self) as [Hsafe Hbounds].
  apply in_range_bind; [done|].
  intros [[[start_row end_row] start_col] end_col] Hv.
  destruct (Hbounds _ _ _ _ Hv) as (Hsr & Her & Hsc & Hec).
  destruct (draw_cells_frame image_load (screen_width, screen_height)
              start_row end_row start_col end_col self Hwf Hsr Her Hsc Hec)
    as [Hcells_safe Hcells_frame].
  cbv beta zeta. apply in_range_bind; [done|]. intros self1 Hcells.
  destruct (Hcells_frame self1 Hcells) as [cache ->].
  pose proof (well_formed_set_image_cache cache self Hwf) as Hwf1.
  apply in_range_bind.
  { by apply (draw_headers_in_range font rect_coord screen_width start_row end_row
                start_col end_col (set_image_cache cache self)). }
  intros _ _. apply in_range_bind.
  { by apply (draw_filenames_in_range font rect_coord screen_height start_row end_row
                start_col end_col (set_image_cache cache self)). }
  intros _ _. destruct Hwf as (Hgrid & Hcw & Hrh & Hrows & Hcols).
  change (col_widths (set_image_cache cache self)) with (col_widths self).
  change (row_heights (set_image_cache cache self)) with (row_heights self).
  destruct (py_index_in_range (col_widths self) 0) as [corner_w ->]; [lia|].
  rewrite bind_Ok.
  destruct (py_index_in_range (row_heights self) 0) as [corner_h ->]; [lia|].
  rewrite bind_Ok.
  apply in_range_bind.
  { destruct (String.eqb _ ""); [done|]. apply zoomed_cell_size_in_range. }
  intros _ _. apply in_range_bind; [apply draw_scrollbars_in_range|]. intros _ _.
  destruct (unload_distant_images_returns start_row end_row start_col end_col
              (set_image_cache cache self) Hsc) as [self2 ->].
  simpl. apply in_range_bind; [|done].
  destruct (export_in_progress _); [apply draw_progress_bar_in_range|done].
Qed.

Lemma draw_stays_in_range_witness :
  in_range (draw 300 (fun _ => true) mono (fun _ => (300, 200)) (fun _ => 0) (1024, 768)
              viewer_focused).
Proof.
  apply (draw_stays_in_range 300 (fun _ => true) mono (fun _ => (300, 200)) (fun _ => 0)
           (1024, 768) viewer_focused).
  - split; [|by vm_compute]. unfold viewer_focused, viewer_demo, grid_demo. simpl.
    repeat (apply map_Forall_insert_2; [by vm_compute|]). apply map_Forall_empty.
  - apply loop_focused_coherent.
Defined.
